(** * A memory-mapped sequential byte stream (stream.c)

    Shallow embedding of [stream_open], [stream_write], [stream_read],
    [stream_seek], [stream_tell], [stream_end], [stream_sync] and
    [stream_close], together with the small part of the operating system
    they talk to (descriptors, regular files, shared mappings, [errno]). *)

From Stdlib Require Import ZArith Lia Strings.Byte Strings.Ascii.
From stdpp Require Import gmap strings list.

Local Open Scope Z_scope.

(** ** Constants of the C environment

    The values are those of the Linux LP64 ABI ([limits.h], [errno.h],
    [fcntl.h], [sys/mman.h]); the development only relies on them being
    distinct and on [PROT_READ], [PROT_WRITE] being single bits. *)

Definition LONG_MAX : Z := 9223372036854775807.
Definition LONG_MIN : Z := -9223372036854775808.

Definition EPERM   : Z := 1.
Definition ENOENT  : Z := 2.
Definition EBADF   : Z := 9.
Definition ENOMEM  : Z := 12.
Definition EINVAL  : Z := 22.
Definition EFBIG   : Z := 27.
Definition ERANGE  : Z := 34.
Definition ENOTSUP : Z := 95.

Definition PROT_READ  : Z := 1.
Definition PROT_WRITE : Z := 2.

Definition O_RDONLY  : Z := 0.
Definition O_WRONLY  : Z := 1.
Definition O_RDWR    : Z := 2.
Definition O_ACCMODE : Z := 3.
Definition O_CREAT   : Z := 64.
Definition O_TRUNC   : Z := 512.

(** ** Outcomes

    A C function either returns, or runs into undefined behaviour (signed
    overflow of a [long], division by zero, an access outside an object or a
    mapping), or - in this embedding - exhausts the fuel given to a [while]
    loop. *)

Inductive outcome (A : Type) : Type :=
| Done (a : A)
| Undef
| Timeout.

Arguments Done {A} a.
Arguments Undef {A}.
Arguments Timeout {A}.

#[global] Instance outcome_ret : MRet outcome := λ A a, Done a.
#[global] Instance outcome_bind : MBind outcome := λ A B k m,
  match m with
  | Done a => k a
  | Undef => Undef
  | Timeout => Timeout
  end.

(** Arithmetic on [long]: a result outside the type is undefined
    behaviour, as is a division by zero. *)

Definition in_long (z : Z) : bool := (LONG_MIN <=? z) && (z <=? LONG_MAX).

Definition long (z : Z) : outcome Z := if in_long z then Done z else Undef.

Definition ldivide (a b : Z) : outcome Z :=
  if b =? 0 then Undef else long (Z.quot a b).

(** ** The operating system

    The stream is written against the POSIX calls [sysconf], [open],
    [fstat], [ftruncate], [mmap], [munmap], [msync], [close] and against
    [malloc]. They are modelled here as far as the stream uses them: a
    flat name space of regular files, a descriptor table, shared
    mappings that read and write the bytes of the file itself, and a
    schedule of failures from which any call that can fail may be made to
    fail with any error code. *)

(** What a pointer returned by [mmap] designates: [m_len] bytes of the
    file behind descriptor [m_des], starting at file offset [m_off], mapped
    [MAP_SHARED] with protection [m_prot]. *)
Record mapping : Type := Mapping {
  m_des  : Z;
  m_off  : Z;
  m_len  : Z;
  m_prot : Z
}.

(** [w_fs] holds the regular files by path, each one the list of its bytes
    as every descriptor and every shared mapping sees them; [w_fds] is the
    descriptor table; [w_faults] schedules the failures of the system: every
    call that may fail takes the head of the list, [Some e] makes it fail
    with [errno = e], [None] (or an empty list) lets it proceed. *)
Record world : Type := World {
  w_errno    : Z;
  w_pagesize : Z;
  w_blksize  : Z;
  w_fs       : gmap string (list Byte.byte);
  w_fds      : gmap Z string;
  w_faults   : list (option Z)
}.

Definition set_errno (e : Z) (w : world) : world :=
  World e (w_pagesize w) (w_blksize w) (w_fs w) (w_fds w) (w_faults w).

Definition set_fs (fs : gmap string (list Byte.byte)) (w : world) : world :=
  World (w_errno w) (w_pagesize w) (w_blksize w) fs (w_fds w) (w_faults w).

Definition set_fds (fds : gmap Z string) (w : world) : world :=
  World (w_errno w) (w_pagesize w) (w_blksize w) (w_fs w) fds (w_faults w).

Definition set_faults (fl : list (option Z)) (w : world) : world :=
  World (w_errno w) (w_pagesize w) (w_blksize w) (w_fs w) (w_fds w) fl.

(** The next scheduled failure, if any. *)
Definition fault (w : world) : option Z * world :=
  match w_faults w with
  | [] => (None, w)
  | o :: rest => (o, set_faults rest w)
  end.

(** The system reports no failure from now on. *)
Definition quiet (w : world) : Prop := Forall (λ o, o = None) (w_faults w).

(** The bytes of the file behind a descriptor. *)
Definition fd_file (w : world) (fd : Z) : option (list Byte.byte) :=
  p ← w_fds w !! fd; w_fs w !! p.

Definition fd_set_file (fd : Z) (data : list Byte.byte) (w : world) : world :=
  match w_fds w !! fd with
  | Some p => set_fs (<[p := data]> (w_fs w)) w
  | None => w
  end.

(** [sysconf(_SC_PAGESIZE)] *)
Definition sys_pagesize (w : world) : Z := w_pagesize w.

Fixpoint lowest_free (fds : gmap Z string) (n : nat) (fd : Z) : Z :=
  match n with
  | O => fd
  | S n' => match fds !! fd with
            | None => fd
            | Some _ => lowest_free fds n' (fd + 1)
            end
  end.

(** [open(path, oflg, PERMS)]: the lowest free descriptor. The name space
    is flat and every string is taken as a possible name: what the system
    refuses as a path (the empty string, a missing directory) is not
    modelled, so no general result below concludes that an [open] which
    creates its file succeeds. *)
Definition sys_open (path : string) (oflg : Z) (w : world) : Z * world :=
  match fault w with
  | (Some e, w) => (-1, set_errno e w)
  | (None, w) =>
    let creat := negb (Z.land oflg O_CREAT =? 0) in
    let trunc := negb (Z.land oflg O_TRUNC =? 0) in
    match w_fs w !! path with
    | None =>
      if creat then
        let fd := lowest_free (w_fds w) (size (w_fds w)) 0 in
        (fd, set_fds (<[fd := path]> (w_fds w)) (set_fs (<[path := []]> (w_fs w)) w))
      else (-1, set_errno ENOENT w)
    | Some data =>
      let fd := lowest_free (w_fds w) (size (w_fds w)) 0 in
      let data := if trunc then [] else data in
      (fd, set_fds (<[fd := path]> (w_fds w)) (set_fs (<[path := data]> (w_fs w)) w))
    end
  end.

(** The two fields of [struct stat] the stream looks at. *)
Record stat : Type := Stat {
  st_size    : Z;
  st_blksize : Z
}.

Definition sys_fstat (fd : Z) (w : world) : Z * stat * world :=
  match fault w with
  | (Some e, w) => (-1, Stat 0 0, set_errno e w)
  | (None, w) =>
    match fd_file w fd with
    | None => (-1, Stat 0 0, set_errno EBADF w)
    | Some data => (0, Stat (Z.of_nat (length data)) (w_blksize w), w)
    end
  end.

(** [ftruncate(fd, n)]: cut the file or extend it with zero bytes. *)
Definition resize (n : nat) (data : list Byte.byte) : list Byte.byte :=
  take n data ++ replicate (n - length data)%nat Byte.x00.

Definition sys_ftruncate (fd : Z) (n : Z) (w : world) : Z * world :=
  match fault w with
  | (Some e, w) => (-1, set_errno e w)
  | (None, w) =>
    match fd_file w fd with
    | None => (-1, set_errno EBADF w)
    | Some data =>
      if n <? 0 then (-1, set_errno EINVAL w)
      else (0, fd_set_file fd (resize (Z.to_nat n) data) w)
    end
  end.

(** [mmap(NULL, len, prot, MAP_SHARED, fd, off)]; [None] is [MAP_FAILED].
    A zero length is refused, and a negative [long] converts to a [size_t]
    no address space can hold. The descriptor table does not record the
    access mode a descriptor was opened with, and the mapping is granted
    without regard to it, where the system refuses to map a descriptor
    that is not open for reading, and to map one shared for writing that
    is not open for reading and writing ([EACCES]). A write that succeeds
    through a newly mapped window is therefore to be read of a stream open
    for reading and writing, as the properties of the code state it. *)
Definition sys_mmap (len prot fd off : Z) (w : world) : option mapping * world :=
  match fault w with
  | (Some e, w) => (None, set_errno e w)
  | (None, w) =>
    match fd_file w fd with
    | None => (None, set_errno EBADF w)
    | Some _ =>
      if len =? 0 then (None, set_errno EINVAL w)
      else if len <? 0 then (None, set_errno ENOMEM w)
      else (Some (Mapping fd off len prot), w)
    end
  end.

(** [munmap]: the stream ignores its result. *)
Definition sys_munmap (m : mapping) (len : Z) (w : world) : world := w.

(** [msync(buf, len, MS_SYNC)]: the bytes of a shared mapping are the
    bytes of the file already, forcing them to the device does not change
    them. *)
Definition sys_msync (m : mapping) (len : Z) (w : world) : Z * world :=
  match fault w with
  | (Some e, w) => (-1, set_errno e w)
  | (None, w) => (0, w)
  end.

(** [close(fd)] *)
Definition sys_close (fd : Z) (w : world) : world :=
  set_fds (delete fd (w_fds w)) w.

(** [malloc(sizeof(stream))]: [false] is [NULL]. *)
Definition sys_malloc (w : world) : bool * world :=
  match fault w with
  | (Some e, w) => (false, set_errno e w)
  | (None, w) => (true, w)
  end.

(** Access to byte [i] of a mapped region. Outside the region, or past
    the end of the file behind it, the access traps. *)
Definition map_load (m : mapping) (i : Z) (w : world) : outcome Byte.byte :=
  if (0 <=? i) && (i <? m_len m) && (0 <=? m_off m) then
    match fd_file w (m_des m) with
    | Some data =>
      match data !! Z.to_nat (m_off m + i) with
      | Some b => Done b
      | None => Undef
      end
    | None => Undef
    end
  else Undef.

Definition map_store (m : mapping) (i : Z) (b : Byte.byte) (w : world) : outcome world :=
  if (0 <=? i) && (i <? m_len m) && (0 <=? m_off m)
     && (Z.land (m_prot m) PROT_WRITE =? PROT_WRITE) then
    match fd_file w (m_des m) with
    | Some data =>
      if m_off m + i <? Z.of_nat (length data) then
        Done (fd_set_file (m_des m) (<[Z.to_nat (m_off m + i) := b]> data) w)
      else Undef
    | None => Undef
    end
  else Undef.

(** Access to byte [i] of a caller's buffer. *)
Definition buf_load (l : list Byte.byte) (i : Z) : outcome Byte.byte :=
  if i <? 0 then Undef
  else match l !! Z.to_nat i with
       | Some b => Done b
       | None => Undef
       end.

Definition buf_store (l : list Byte.byte) (i : Z) (b : Byte.byte) : outcome (list Byte.byte) :=
  if i <? 0 then Undef
  else if i <? Z.of_nat (length l) then Done (<[Z.to_nat i := b]> l)
  else Undef.

(** ** The stream control block ([struct stream]) *)

Record stream : Type := Stream {
  s_buf : option mapping;  (* buffer address, [None] for [MAP_FAILED] *)
  s_off : Z;               (* buffer offset *)
  s_len : Z;               (* buffer length *)
  s_brk : Z;               (* buffer break *)
  s_blk : Z;               (* block size *)
  s_cur : Z;               (* file cursor *)
  s_end : Z;               (* end of file position *)
  s_siz : Z;               (* file size *)
  s_mod : Z;               (* file mode *)
  s_des : Z                (* file descriptor *)
}.

Definition set_buf (v : option mapping) (s : stream) : stream :=
  Stream v (s_off s) (s_len s) (s_brk s) (s_blk s) (s_cur s) (s_end s) (s_siz s) (s_mod s) (s_des s).
Definition set_off (v : Z) (s : stream) : stream :=
  Stream (s_buf s) v (s_len s) (s_brk s) (s_blk s) (s_cur s) (s_end s) (s_siz s) (s_mod s) (s_des s).
Definition set_len (v : Z) (s : stream) : stream :=
  Stream (s_buf s) (s_off s) v (s_brk s) (s_blk s) (s_cur s) (s_end s) (s_siz s) (s_mod s) (s_des s).
Definition set_brk (v : Z) (s : stream) : stream :=
  Stream (s_buf s) (s_off s) (s_len s) v (s_blk s) (s_cur s) (s_end s) (s_siz s) (s_mod s) (s_des s).
Definition set_blk (v : Z) (s : stream) : stream :=
  Stream (s_buf s) (s_off s) (s_len s) (s_brk s) v (s_cur s) (s_end s) (s_siz s) (s_mod s) (s_des s).
Definition set_cur (v : Z) (s : stream) : stream :=
  Stream (s_buf s) (s_off s) (s_len s) (s_brk s) (s_blk s) v (s_end s) (s_siz s) (s_mod s) (s_des s).
Definition set_end (v : Z) (s : stream) : stream :=
  Stream (s_buf s) (s_off s) (s_len s) (s_brk s) (s_blk s) (s_cur s) v (s_siz s) (s_mod s) (s_des s).
Definition set_siz (v : Z) (s : stream) : stream :=
  Stream (s_buf s) (s_off s) (s_len s) (s_brk s) (s_blk s) (s_cur s) (s_end s) v (s_mod s) (s_des s).
Definition set_mod (v : Z) (s : stream) : stream :=
  Stream (s_buf s) (s_off s) (s_len s) (s_brk s) (s_blk s) (s_cur s) (s_end s) (s_siz s) v (s_des s).
Definition set_des (v : Z) (s : stream) : stream :=
  Stream (s_buf s) (s_off s) (s_len s) (s_brk s) (s_blk s) (s_cur s) (s_end s) (s_siz s) (s_mod s) v.

(** ** stream_open *)

(** The character [*(mode + i)] of a C string, the terminator included. *)
Definition mode_char (mode : string) (i : nat) : Ascii.ascii :=
  default Ascii.zero (String.get i mode).

Definition is_char (c d : Ascii.ascii) : bool := bool_decide (c = d).

(** The [failure:] label of [stream_open]. *)
Definition open_failure (strm : stream) (errn : Z) (w : world) : option stream * world :=
  let w := if s_des strm >=? 0 then sys_close (s_des strm) w else w in
  (None, set_errno errn w).

(** The block size [stream_open] settles on, from the page size [blk] and
    the [st_blksize] of the file. *)
Definition choose_blk (blk : Z) (blksize : Z) : Z :=
  if blksize <? LONG_MAX then
    let lval := blksize in
    if lval >? blk then
      if (Z.rem lval blk =? 0) && (Z.quot lval blk >? 1) then lval else blk
    else blk
  else blk.

Definition stream_open (path : option string) (mode : string) (w : world)
  : option stream * world :=
  let strm := Stream None 0 0 0 0 0 0 0 0 (-1) in
  match path with
  | None => open_failure strm EINVAL w
  | Some path =>
    if negb (is_char (mode_char mode 0) "r"%char) && negb (is_char (mode_char mode 0) "w"%char)
    then open_failure strm EINVAL w
    else
      (* check system page size *)
      let strm := set_blk (sys_pagesize w) strm in
      if s_blk strm <? 1 then open_failure strm ENOTSUP w
      else
        (* determine file opening mode *)
        let oflg :=
          if is_char (mode_char mode 1) "+"%char
          then (if is_char (mode_char mode 0) "w"%char
                then Z.lor (Z.lor O_RDWR O_CREAT) O_TRUNC else O_RDWR)
          else (if is_char (mode_char mode 0) "w"%char
                then Z.lor (Z.lor O_WRONLY O_CREAT) O_TRUNC else O_RDONLY) in
        (* open file *)
        let '(fd, w) := sys_open path oflg w in
        let strm := set_des fd strm in
        if s_des strm <? 0 then open_failure strm (w_errno w) w
        else
          (* set mmap protection mode *)
          let acc := Z.land oflg O_ACCMODE in
          let strm :=
            if acc =? O_RDONLY then set_mod PROT_READ strm
            else if acc =? O_WRONLY then set_mod PROT_WRITE strm
            else set_mod (Z.lor PROT_READ PROT_WRITE) strm in
          (* get file information *)
          let '(rc, inf, w) := sys_fstat (s_des strm) w in
          if negb (rc =? 0) then open_failure strm (w_errno w) w
          else if st_size inf >? LONG_MAX then open_failure strm EFBIG w
          else
            (* save current file size *)
            let lval := st_size inf in
            let strm := set_siz lval (set_end lval strm) in
            (* check file's best IO block size *)
            let strm := set_blk (choose_blk (s_blk strm) (st_blksize inf)) strm in
            (* allocate space from the heap *)
            let '(ok, w) := sys_malloc w in
            if negb ok then open_failure strm (w_errno w) w
            else (Some strm, w)
  end.

(** ** The window manager *)

(** The page-fault test shared by the two loops. *)
Definition stale (s : stream) : bool :=
  (s_cur s <? s_off s) || (s_cur s >=? s_brk s)
  || match s_buf s with None => true | Some _ => false end.

(** Release the window held, if any. *)
Definition release (s : stream) (w : world) : stream * world :=
  match s_buf s with
  | Some m => (set_buf None s, sys_munmap m (s_len s) w)
  | None => (s, w)
  end.

(** The block-aligned window around the cursor. *)
Definition align (s : stream) : outcome stream :=
  q ← ldivide (s_cur s) (s_blk s);
  off ← long (q * s_blk s);
  let s := set_off off s in
  let s := set_len (s_blk s) s in
  b ← long (s_off s + s_len s);
  mret (set_brk b s).

(** Map the window computed; [Some errn] is the jump to [failure:]. *)
Definition map_window (s : stream) (w : world) : option Z * stream * world :=
  let '(m, w) := sys_mmap (s_len s) (s_mod s) (s_des s) (s_off s) w in
  let s := set_buf m s in
  match m with
  | None => (Some (w_errno w), s, w)
  | Some _ => (None, s, w)
  end.

(** Page fault on the write path: the file is grown to the window. *)
Definition write_fault (s : stream) (w : world) : outcome (option Z * stream * world) :=
  let '(s, w) := release s w in
  s ← align s;
  if s_brk s >? s_siz s then
    let '(rc, w) := sys_ftruncate (s_des s) (s_brk s) w in
    if negb (rc =? 0) then mret (Some (w_errno w), s, w)
    else mret (map_window (set_siz (s_brk s) s) w)
  else mret (map_window s w).

(** Page fault on the read path: the window is cut at the file size. *)
Definition read_fault (s : stream) (w : world) : outcome (option Z * stream * world) :=
  let '(s, w) := release s w in
  s ← align s;
  if s_brk s >? s_siz s then
    l ← long (s_siz s - s_off s);
    let s := set_len l s in
    b ← long (s_off s + s_len s);
    mret (map_window (set_brk b s) w)
  else mret (map_window s w).

(** ** The byte copiers: [for (cnt = n; cnt > 0; cnt--) *dst++ = *src++;] *)

Fixpoint copy_out (cnt : nat) (src : list Byte.byte) (si : Z) (m : mapping) (di : Z)
    (w : world) : outcome world :=
  match cnt with
  | O => mret w
  | S cnt =>
    b ← buf_load src si;
    w ← map_store m di b w;
    copy_out cnt src (si + 1) m (di + 1) w
  end.

Fixpoint copy_in (cnt : nat) (m : mapping) (si : Z) (dst : list Byte.byte) (di : Z)
    (w : world) : outcome (list Byte.byte) :=
  match cnt with
  | O => mret dst
  | S cnt =>
    b ← map_load m si w;
    dst ← buf_store dst di b;
    copy_in cnt m (si + 1) dst (di + 1) w
  end.

(** ** stream_write *)

(** One turn of the writing loop; [Some errn] in the first component is
    the jump to [failure:]. *)
Definition write_body (brk : Z) (buf : list Byte.byte) (len : Z) (s : stream) (w : world)
  : outcome (option Z * Z * stream * world) :=
  (* check page faults *)
  '(e, s, w) ← (if stale s then write_fault s w else mret (None, s, w));
  match e with
  | Some errn => mret (Some errn, len, s, w)
  | None =>
    match s_buf s with
    | None => Undef
    | Some m =>
      (* determine write length *)
      wrl ← long ((if brk <? s_brk s then brk else s_brk s) - s_cur s);
      (* calculate source and destination pointers *)
      d ← long (s_cur s - s_off s);
      (* copy bytes *)
      w ← copy_out (Z.to_nat wrl) buf len m d w;
      (* update file position and counter *)
      c ← long (s_cur s + wrl);
      let s := set_cur c s in
      len ← long (len + wrl);
      (* check if end of file must be updated *)
      let s := if s_cur s >? s_end s then set_end (s_cur s) s else s in
      mret (None, len, s, w)
    end
  end.

Fixpoint write_loop (fuel : nat) (brk : Z) (buf : list Byte.byte) (len : Z)
    (s : stream) (w : world) : outcome (Z * stream * world) :=
  match fuel with
  | O => Timeout
  | S fuel =>
    if s_cur s <? brk then
      '(e, len, s, w) ← write_body brk buf len s w;
      match e with
      | Some errn => mret (-1, s, set_errno errn w)
      | None => write_loop fuel brk buf len s w
      end
    else mret (len, s, w)
  end.

Definition stream_write (fuel : nat) (s : option stream) (buf : option (list Byte.byte))
    (len : Z) (w : world) : outcome (Z * option stream * world) :=
  match s, buf with
  | Some s, Some buf =>
    if len <? 0 then mret (-1, Some s, set_errno EINVAL w)
    (* check stream permissions *)
    else if negb (Z.land (s_mod s) PROT_WRITE =? PROT_WRITE)
    then mret (-1, Some s, set_errno EPERM w)
    else
      (* check limits *)
      lim ← long (LONG_MAX - len);
      if s_cur s >? lim then mret (-1, Some s, set_errno EFBIG w)
      else
        (* calculate write break *)
        brk ← long (s_cur s + len);
        '(r, s, w) ← write_loop fuel brk buf 0 s w;
        mret (r, Some s, w)
  | _, _ => mret (-1, s, set_errno EINVAL w)
  end.

(** ** stream_read *)

(** One turn of the reading loop. *)
Definition read_body (brk : Z) (buf : list Byte.byte) (len : Z) (s : stream) (w : world)
  : outcome (option Z * Z * stream * list Byte.byte * world) :=
  (* check page faults *)
  '(e, s, w) ← (if stale s then read_fault s w else mret (None, s, w));
  match e with
  | Some errn => mret (Some errn, len, s, buf, w)
  | None =>
    match s_buf s with
    | None => Undef
    | Some m =>
      (* determine read length *)
      rdl ← long ((if brk <? s_brk s then brk else s_brk s) - s_cur s);
      (* calculate source and destination pointers *)
      d ← long (s_cur s - s_off s);
      (* copy bytes *)
      buf ← copy_in (Z.to_nat rdl) m d buf len w;
      (* update file position and counter *)
      c ← long (s_cur s + rdl);
      let s := set_cur c s in
      len ← long (len + rdl);
      mret (None, len, s, buf, w)
    end
  end.

Fixpoint read_loop (fuel : nat) (brk : Z) (buf : list Byte.byte) (len : Z)
    (s : stream) (w : world) : outcome (Z * stream * list Byte.byte * world) :=
  match fuel with
  | O => Timeout
  | S fuel =>
    if s_cur s <? brk then
      '(e, len, s, buf, w) ← read_body brk buf len s w;
      match e with
      | Some errn => mret (-1, s, buf, set_errno errn w)
      | None => read_loop fuel brk buf len s w
      end
    else mret (len, s, buf, w)
  end.

Definition stream_read (fuel : nat) (s : option stream) (buf : option (list Byte.byte))
    (len : Z) (w : world) : outcome (Z * option stream * option (list Byte.byte) * world) :=
  match s, buf with
  | Some s, Some buf =>
    if len <? 0 then mret (-1, Some s, Some buf, set_errno EINVAL w)
    (* check stream permissions *)
    else if negb (Z.land (s_mod s) PROT_READ =? PROT_READ)
    then mret (-1, Some s, Some buf, set_errno EPERM w)
    else
      (* check limits *)
      lim ← long (s_end s - len);
      len ← (if s_cur s >? lim then long (s_end s - s_cur s) else mret len);
      (* calculate read break *)
      brk ← long (s_cur s + len);
      '(r, s, buf, w) ← read_loop fuel brk buf 0 s w;
      mret (r, Some s, Some buf, w)
  | _, _ => mret (-1, s, buf, set_errno EINVAL w)
  end.

(** ** stream_seek, stream_tell, stream_end *)

Definition stream_seek (s : option stream) (pos : Z) (w : world)
  : outcome (Z * option stream * world) :=
  match s with
  | None => mret (-1, None, set_errno EINVAL w)
  | Some s =>
    if negb (s_cur s =? pos) then
      pos ← (if pos <? 0 then long (pos + s_end s) else mret pos);
      if (pos <? 0) || (pos >? s_end s)
      then mret (-1, Some s, set_errno ERANGE w)
      else mret (pos, Some (set_cur pos s), w)
    else mret (pos, Some s, w)
  end.

Definition stream_tell (s : option stream) (w : world) : Z * world :=
  match s with
  | None => (-1, set_errno EINVAL w)
  | Some s => (s_cur s, w)
  end.

Definition stream_end (s : option stream) (w : world) : Z * world :=
  match s with
  | None => (-1, set_errno EINVAL w)
  | Some s => (s_end s, w)
  end.

(** ** stream_sync, stream_close *)

Definition stream_sync (s : option stream) (w : world) : Z * option stream * world :=
  match s with
  | None => (-1, None, set_errno EINVAL w)
  | Some s =>
    match s_buf s with
    | Some m =>
      let '(rc, w) := sys_msync m (s_len s) w in
      if negb (rc =? 0) then (-1, Some s, set_errno (w_errno w) w)
      else (0, Some s, w)
    | None => (0, Some s, w)
    end
  end.

(** [stream_close] returns nothing; the control block is freed. The
    results of [munmap], [ftruncate] and [close] are not looked at. *)
Definition stream_close (s : option stream) (w : world) : world :=
  match s with
  | None => w
  | Some s =>
    let w := match s_buf s with
             | Some m => sys_munmap m (s_len s) w
             | None => w
             end in
    let w := if s_end s <? s_siz s
             then snd (sys_ftruncate (s_des s) (s_end s) w) else w in
    sys_close (s_des s) w
  end.

(** ** The invariant of an open stream *)

(** A window held is the mapping of a block-aligned, non-empty region
    that lies inside the file. *)
Definition window_ok (s : stream) : Prop :=
  match s_buf s with
  | None => True
  | Some m =>
    m = Mapping (s_des s) (s_off s) (s_len s) (s_mod s) ∧
    0 ≤ s_off s ∧ Z.rem (s_off s) (s_blk s) = 0 ∧
    0 < s_len s ≤ s_blk s ∧
    s_brk s = s_off s + s_len s ∧ s_brk s ≤ s_siz s
  end.

Record stream_inv (s : stream) (w : world) : Prop := StreamInv {
  inv_blk  : 1 ≤ s_blk s;
  inv_cur  : 0 ≤ s_cur s ≤ s_end s;
  inv_end  : s_end s ≤ s_siz s ≤ LONG_MAX;
  inv_file : ∃ data, fd_file w (s_des s) = Some data ∧ Z.of_nat (length data) = s_siz s;
  inv_win  : window_ok s
}.

(** What no operation on an open stream changes. *)
Definition same_handle (s s' : stream) : Prop :=
  s_blk s' = s_blk s ∧ s_mod s' = s_mod s ∧ s_des s' = s_des s.

(** ** Auxiliary notions of the specification *)

(** The window [align] computes, as a stream. *)
Definition aligned (s : stream) : stream :=
  let off := Z.quot (s_cur s) (s_blk s) * s_blk s in
  Stream (s_buf s) off (s_blk s) (off + s_blk s) (s_blk s)
         (s_cur s) (s_end s) (s_siz s) (s_mod s) (s_des s).

(** What a call of the writing loop that is successful has done: the
    request is served to its last byte. *)
Definition written (brk : Z) (buf : list Byte.byte) (len : Z) (s : stream)
    (r : Z) (s' : stream) (d' : list Byte.byte) : Prop :=
  r = len + (s_cur s' - s_cur s) ∧ s_cur s' = Z.max brk (s_cur s) ∧
  s_end s' = Z.max (s_end s) (s_cur s') ∧
  (s_cur s < brk → is_Some (s_buf s') ∧ s_off s' < s_cur s' ≤ s_brk s') ∧
  (∀ k : nat, Z.of_nat k < s_cur s' - s_cur s →
     d' !! Z.to_nat (s_cur s + Z.of_nat k) = buf !! Z.to_nat (len + Z.of_nat k)).

(** What a call of the reading loop that is successful has delivered. *)
Definition delivered (brk : Z) (len : Z) (s : stream) (d : list Byte.byte)
    (r : Z) (s' : stream) (buf' : list Byte.byte) : Prop :=
  r = len + (s_cur s' - s_cur s) ∧ s_cur s' = Z.max brk (s_cur s) ∧
  (s_cur s < brk → is_Some (s_buf s') ∧ s_off s' < s_cur s' ≤ s_brk s') ∧
  (∀ k : nat, Z.of_nat k < s_cur s' - s_cur s →
     buf' !! Z.to_nat (len + Z.of_nat k) = d !! Z.to_nat (s_cur s + Z.of_nat k)).

Definition writable (s : stream) : Prop := Z.land (s_mod s) PROT_WRITE = PROT_WRITE.

Definition readable (s : stream) : Prop := Z.land (s_mod s) PROT_READ = PROT_READ.

(** The preferred block size is a whole multiple of the page size,
    more than once. *)
Definition clean_multiple (page pref : Z) : Prop := ∃ k, 1 < k ∧ pref = k * page.

(** The system is scheduled to fail some call with code [e]. *)
Definition reports (e : Z) (w : world) : Prop := Some e ∈ w_faults w.

(** The codes the system model raises by itself. *)
Definition os_code (e : Z) : Prop := e = EBADF ∨ e = EINVAL ∨ e = ENOMEM.

(** [w'] comes after [w]: nothing is scheduled in [w'] that was not in [w]. *)
Definition later (w w' : world) : Prop := ∀ e, reports e w' → reports e w.

(** The streams a program can hold: opened by [stream_open], then taken
    through any sequence of calls, successful or not. *)
Inductive reachable : stream → world → Prop :=
| reach_open path mode w s w' :
    stream_open path mode w = (Some s, w') → reachable s w'
| reach_write fuel s w buf len r s' w' :
    reachable s w →
    stream_write fuel (Some s) buf len w = Done (r, Some s', w') → reachable s' w'
| reach_read fuel s w buf len r s' buf' w' :
    reachable s w →
    stream_read fuel (Some s) buf len w = Done (r, Some s', buf', w') → reachable s' w'
| reach_seek s w p r s' w' :
    reachable s w → LONG_MIN ≤ p ≤ LONG_MAX →
    stream_seek (Some s) p w = Done (r, Some s', w') → reachable s' w'
| reach_sync s w r s' w' :
    reachable s w →
    stream_sync (Some s) w = (r, Some s', w') → reachable s' w'.

(** A system with 4096-byte pages and blocks, one file ["data"] of [size]
    zero bytes, open on descriptor 3. *)
Definition demo_world (size : nat) (faults : list (option Z)) : world :=
  World 0 4096 4096 {[ "data"%string := replicate size Byte.x00 ]}
        {[ 3 := "data"%string ]} faults.

(** The control block of ["data"], open for reading and writing. *)
Definition demo_stream (cur size : Z) : stream :=
  Stream None 0 0 0 4096 cur size size (Z.lor PROT_READ PROT_WRITE) 3.

(** The digits 0 to 9. *)
Definition ten_bytes : list Byte.byte :=
  [Byte.x30; Byte.x31; Byte.x32; Byte.x33; Byte.x34;
   Byte.x35; Byte.x36; Byte.x37; Byte.x38; Byte.x39].

(** A system with one file ["data"] of ten bytes and nothing open. *)
Definition closed_world (faults : list (option Z)) : world :=
  World 0 4096 4096 {[ "data"%string := ten_bytes ]} ∅ faults.

(** The first scenario of the specification: create a file, write ten
    bytes, ask for the end, seek to 0, read twenty bytes, close, open
    again for reading. *)
Definition first_scenario
  : outcome (Z * Z * Z * option (list Byte.byte) * option Z * option Z) :=
  '(written, s, w) ←
    stream_write 11 (fst (stream_open (Some "new"%string) "w+" (closed_world [])))
      (Some ten_bytes) 10 (snd (stream_open (Some "new"%string) "w+" (closed_world [])));
  '(pos, s1, w1) ← stream_seek s 0 w;
  '(got, s2, out, w2) ← stream_read 11 s1 (Some (replicate 20 Byte.x00)) 20 w1;
  mret (written, fst (stream_end s w), got, option_map (take 10) out,
        option_map (λ d : list Byte.byte, Z.of_nat (length d)) (fd_file w 0),
        option_map s_siz (fst (stream_open (Some "new"%string) "r" (stream_close s2 w2)))).

(** Create a file, write 4097 bytes, seek back to 0. *)
Definition seek_back : outcome (Z * option stream * world) :=
  '(n, s, w) ←
    stream_write 3 (fst (stream_open (Some "new"%string) "w+" (closed_world [])))
      (Some (replicate 4097 Byte.x41)) 4097
      (snd (stream_open (Some "new"%string) "w+" (closed_world [])));
  stream_seek s 0 w.

(** The call has left the descriptor table alone and every file but the
    one behind [fd]. *)
Definition only_file (fd : Z) (w w' : world) : Prop :=
  w_fds w' = w_fds w ∧
  ∀ p, w_fds w !! fd ≠ Some p → w_fs w' !! p = w_fs w !! p.

(** The protection [stream_open] derives from the mode string, through
    the flags it passes to [open] and the [switch] on their access mode. *)
Definition mode_prot (mode : string) : Z :=
  if is_char (mode_char mode 1) "+"%char then Z.lor PROT_READ PROT_WRITE
  else if is_char (mode_char mode 0) "w"%char then PROT_WRITE else PROT_READ.

(** What a program has done that, since [s0] in [w0], has only called
    [stream_read], [stream_seek], [stream_tell], [stream_end] and
    [stream_sync], with any arguments and any outcome. *)
Inductive browsed (s0 : stream) (w0 : world) : stream → world → Prop :=
| browse_start : browsed s0 w0 s0 w0
| browse_read fuel s w buf len r s' buf' w' :
    browsed s0 w0 s w →
    stream_read fuel (Some s) buf len w = Done (r, Some s', buf', w') →
    browsed s0 w0 s' w'
| browse_seek s w p r s' w' :
    browsed s0 w0 s w → LONG_MIN ≤ p ≤ LONG_MAX →
    stream_seek (Some s) p w = Done (r, Some s', w') →
    browsed s0 w0 s' w'
| browse_sync s w r s' w' :
    browsed s0 w0 s w →
    stream_sync (Some s) w = (r, Some s', w') →
    browsed s0 w0 s' w'.

(** The bytes of the stream: the file up to the end-of-stream position. *)
Definition contents (s : stream) (w : world) : option (list Byte.byte) :=
  d ← fd_file w (s_des s); Some (take (Z.to_nat (s_end s)) d).

(** What a program has done that, since [s0] in [w0], has called
    [stream_write], [stream_read], [stream_seek], [stream_tell],
    [stream_end] and [stream_sync] on the stream, with any arguments and
    any outcome. *)
Inductive used (s0 : stream) (w0 : world) : stream → world → Prop :=
| use_start : used s0 w0 s0 w0
| use_write fuel s w buf len r s' w' :
    used s0 w0 s w →
    stream_write fuel (Some s) buf len w = Done (r, Some s', w') →
    used s0 w0 s' w'
| use_read fuel s w buf len r s' buf' w' :
    used s0 w0 s w →
    stream_read fuel (Some s) buf len w = Done (r, Some s', buf', w') →
    used s0 w0 s' w'
| use_seek s w p r s' w' :
    used s0 w0 s w → LONG_MIN ≤ p ≤ LONG_MAX →
    stream_seek (Some s) p w = Done (r, Some s', w') →
    used s0 w0 s' w'
| use_sync s w r s' w' :
    used s0 w0 s w →
    stream_sync (Some s) w = (r, Some s', w') →
    used s0 w0 s' w'.

(** A system whose file ["data"] has [LONG_MAX] bytes - the largest size
    a file can have, reached by a sparse file -, open on descriptor 3. *)
Definition top_world : world := demo_world (Z.to_nat LONG_MAX) [].

(** The control block of that file, open for reading and writing, with
    no window held. *)
Definition top_stream (cur : Z) : stream := demo_stream cur LONG_MAX.

(** * Properties *)

(** ** Outcomes and [long] arithmetic *)

Lemma bind_Done {A B} (m : outcome A) (k : A → outcome B) (r : B) :
  mbind k m = Done r → ∃ a, m = Done a ∧ k a = Done r.
Proof. destruct m; simpl; intros H; try discriminate. eauto. Qed.

Lemma bind_not_Timeout {A B} (m : outcome A) (k : A → outcome B) :
  m ≠ Timeout → (∀ a, m = Done a → k a ≠ Timeout) → mbind k m ≠ Timeout.
Proof. destruct m; simpl; intros H1 H2; try congruence. by apply H2. Qed.

Lemma in_long_spec z : in_long z = true ↔ LONG_MIN ≤ z ≤ LONG_MAX.
Proof. unfold in_long. rewrite andb_true_iff, !Z.leb_le. tauto. Qed.

Lemma long_Done z r : long z = Done r → r = z ∧ LONG_MIN ≤ z ≤ LONG_MAX.
Proof.
  unfold long. destruct (in_long z) eqn:E; intros H; [|discriminate].
  apply in_long_spec in E. injection H as <-. by split.
Qed.

Lemma long_in z : LONG_MIN ≤ z ≤ LONG_MAX → long z = Done z.
Proof. intros H. unfold long. apply in_long_spec in H. by rewrite H. Qed.

Lemma long_not_Timeout z : long z ≠ Timeout.
Proof. unfold long. by destruct (in_long z). Qed.

Lemma ldivide_Done a b r :
  ldivide a b = Done r → b ≠ 0 ∧ r = Z.quot a b.
Proof.
  unfold ldivide. destruct (Z.eqb_spec b 0); [discriminate|].
  intros H. apply long_Done in H. tauto.
Qed.

Lemma ldivide_in a b :
  0 ≤ a ≤ LONG_MAX → 1 ≤ b → ldivide a b = Done (Z.quot a b).
Proof.
  intros Ha Hb. unfold ldivide. destruct (Z.eqb_spec b 0); [lia|].
  apply long_in. rewrite Z.quot_div_nonneg by lia.
  assert (0 ≤ a / b ≤ a); [|unfold LONG_MIN; lia].
  split; [apply Z.div_pos; lia|]. apply Z.div_le_upper_bound; nia.
Qed.

Lemma ldivide_not_Timeout a b : ldivide a b ≠ Timeout.
Proof. unfold ldivide. destruct (b =? 0); [done|apply long_not_Timeout]. Qed.

(** The aligned offset brackets the cursor. *)
Lemma align_bracket c b :
  0 ≤ c → 1 ≤ b →
  0 ≤ Z.quot c b * b ≤ c ∧ c < Z.quot c b * b + b ∧ Z.rem (Z.quot c b * b) b = 0.
Proof.
  intros Hc Hb. rewrite Z.quot_div_nonneg by lia.
  pose proof (Z.mul_div_le c b ltac:(lia)).
  pose proof (Z.mul_succ_div_gt c b ltac:(lia)).
  assert (0 ≤ c / b) by (apply Z.div_pos; lia).
  repeat split; try nia.
  rewrite Z.rem_mod_nonneg by nia. apply Z.mod_mul. lia.
Qed.

(** ** The operating system *)

Lemma fault_inv w o w1 :
  fault w = (o, w1) →
  w_fs w1 = w_fs w ∧ w_fds w1 = w_fds w ∧ w_errno w1 = w_errno w ∧
  (quiet w → o = None ∧ quiet w1).
Proof.
  unfold fault, quiet. destruct (w_faults w) as [|o' l] eqn:E.
  - intros [= <- <-]. rewrite E. repeat split; auto.
  - intros [= <- <-]. simpl. repeat split; auto.
    all: by inversion H.
Qed.

Lemma fd_file_ext w w' fd :
  w_fs w' = w_fs w → w_fds w' = w_fds w → fd_file w' fd = fd_file w fd.
Proof. unfold fd_file. by intros -> ->. Qed.

Lemma fd_file_set fd d w :
  is_Some (fd_file w fd) → fd_file (fd_set_file fd d w) fd = Some d.
Proof.
  unfold fd_file, fd_set_file. destruct (w_fds w !! fd) as [p|] eqn:E; simpl.
  - intros _. rewrite E. simpl. apply lookup_insert_eq.
  - by intros [? ?].
Qed.

Lemma fd_set_file_fds fd d w : w_fds (fd_set_file fd d w) = w_fds w.
Proof. unfold fd_set_file. by destruct (w_fds w !! fd). Qed.

Lemma fd_set_file_faults fd d w : w_faults (fd_set_file fd d w) = w_faults w.
Proof. unfold fd_set_file. by destruct (w_fds w !! fd). Qed.

Lemma fd_set_file_errno fd d w : w_errno (fd_set_file fd d w) = w_errno w.
Proof. unfold fd_set_file. by destruct (w_fds w !! fd). Qed.

Lemma fd_set_file_quiet fd d w : quiet w → quiet (fd_set_file fd d w).
Proof. unfold quiet. by rewrite fd_set_file_faults. Qed.

Lemma length_resize n d : length (resize n d) = n.
Proof.
  unfold resize. rewrite length_app, length_take, length_replicate. lia.
Qed.

Lemma lookup_resize n d (i : nat) :
  (i < length d)%nat → (i < n)%nat → resize n d !! i = d !! i.
Proof.
  intros Hi Hn. unfold resize.
  rewrite lookup_app_l by (rewrite length_take; lia).
  by rewrite lookup_take_lt.
Qed.

Lemma sys_ftruncate_spec fd n w rc w' d :
  sys_ftruncate fd n w = (rc, w') →
  fd_file w fd = Some d →
  w_fds w' = w_fds w ∧ (quiet w → quiet w') ∧
  ((rc = 0 ∧ 0 ≤ n ∧ fd_file w' fd = Some (resize (Z.to_nat n) d)) ∨
   (rc = -1 ∧ w_fs w' = w_fs w)) ∧
  (quiet w → 0 ≤ n → rc = 0).
Proof.
  unfold sys_ftruncate. destruct (fault w) as [o w1] eqn:Hf.
  apply fault_inv in Hf as (Hfs & Hfds & _ & Hq).
  intros H Hd. rewrite <- (fd_file_ext w w1 fd) in Hd by done.
  destruct o as [e|].
  - injection H as <- <-. simpl. repeat split; auto.
    + intros Q. by destruct (Hq Q).
    + intros Q. by destruct (Hq Q).
  - rewrite Hd in H. destruct (Z.ltb_spec n 0).
    + injection H as <- <-. simpl. repeat split; auto; try lia.
      intros Q. by destruct (Hq Q).
    + injection H as <- <-. rewrite fd_set_file_fds. repeat split; auto.
      * intros Q. apply fd_set_file_quiet. by destruct (Hq Q).
      * left. repeat split; auto. apply fd_file_set. by rewrite Hd.
Qed.

Lemma sys_mmap_spec len prot fd off w m w' :
  sys_mmap len prot fd off w = (m, w') →
  w_fs w' = w_fs w ∧ w_fds w' = w_fds w ∧ (quiet w → quiet w') ∧
  (m = None ∨ (m = Some (Mapping fd off len prot) ∧ 0 < len)) ∧
  (quiet w → is_Some (fd_file w fd) → 0 < len → is_Some m).
Proof.
  unfold sys_mmap. destruct (fault w) as [o w1] eqn:Hf.
  apply fault_inv in Hf as (Hfs & Hfds & _ & Hq).
  rewrite <- (fd_file_ext w w1 fd) by done.
  intros H. destruct o as [e|].
  { injection H as <- <-. simpl. repeat split; auto.
    - intros Q. by destruct (Hq Q).
    - intros Q. by destruct (Hq Q). }
  destruct (fd_file w1 fd) as [d|].
  2:{ injection H as <- <-. simpl. repeat split; auto.
      - intros Q. by destruct (Hq Q).
      - by intros _ [? ?]. }
  destruct (Z.eqb_spec len 0).
  { injection H as <- <-. simpl. repeat split; auto; try lia.
    intros Q. by destruct (Hq Q). }
  destruct (Z.ltb_spec len 0).
  { injection H as <- <-. simpl. repeat split; auto; try lia.
    intros Q. by destruct (Hq Q). }
  injection H as <- <-. repeat split; auto.
  - intros Q. by destruct (Hq Q).
  - right. split; [done|lia].
Qed.

(** ** The window manager *)

Ltac inv_bind H :=
  let a := fresh "a" in
  let Ha := fresh "Ha" in
  apply bind_Done in H as (a & Ha & H).

Lemma release_eq s w : release s w = (set_buf None s, w).
Proof. unfold release, sys_munmap. by destruct s as [[m|] ? ? ? ? ? ? ? ? ?]. Qed.

Lemma align_Done s s' :
  align s = Done s' →
  s' = aligned s ∧ s_blk s ≠ 0 ∧ LONG_MIN ≤ s_off s' + s_blk s ≤ LONG_MAX.
Proof.
  unfold align. intros H.
  inv_bind H. apply ldivide_Done in Ha as [Hb ->].
  inv_bind H. apply long_Done in Ha as [-> _].
  inv_bind H. simpl in Ha. apply long_Done in Ha as [-> Hr].
  simpl in H. injection H as <-. by destruct s.
Qed.

Lemma align_in s :
  0 ≤ s_cur s ≤ LONG_MAX → 1 ≤ s_blk s →
  Z.quot (s_cur s) (s_blk s) * s_blk s + s_blk s ≤ LONG_MAX →
  align s = Done (aligned s).
Proof.
  intros Hc Hb Ho. unfold align.
  destruct (align_bracket (s_cur s) (s_blk s)) as (H1 & H2 & _); [lia..|].
  rewrite ldivide_in by lia. simpl.
  rewrite long_in by (unfold LONG_MIN; lia). simpl.
  rewrite long_in by (unfold LONG_MIN; lia). simpl.
  by destruct s.
Qed.

(** In the last block below [LONG_MAX] the bound [s->off + s->len] is
    not representable: both loops overflow a signed [long] there. *)
Lemma align_overflow s :
  0 ≤ s_cur s ≤ LONG_MAX → 1 ≤ s_blk s →
  LONG_MAX < Z.quot (s_cur s) (s_blk s) * s_blk s + s_blk s →
  align s = Undef.
Proof.
  intros Hc Hb Ho. unfold align.
  destruct (align_bracket (s_cur s) (s_blk s)) as (H1 & H2 & _); [lia..|].
  rewrite ldivide_in by lia. simpl.
  rewrite long_in by (unfold LONG_MIN; lia). simpl.
  unfold long. destruct (in_long _) eqn:E; [|done].
  apply in_long_spec in E. lia.
Qed.

Lemma align_not_Timeout s : align s ≠ Timeout.
Proof.
  unfold align. apply bind_not_Timeout; [apply ldivide_not_Timeout|].
  intros q _. apply bind_not_Timeout; [apply long_not_Timeout|].
  intros o _. apply bind_not_Timeout; [apply long_not_Timeout|]. done.
Qed.

Lemma map_window_spec s w e s' w' :
  map_window s w = (e, s', w') →
  w_fs w' = w_fs w ∧ w_fds w' = w_fds w ∧ (quiet w → quiet w') ∧
  (∃ m, s' = set_buf m s ∧
        match e with
        | None => m = Some (Mapping (s_des s) (s_off s) (s_len s) (s_mod s)) ∧ 0 < s_len s
        | Some errn => m = None ∧ errn = w_errno w'
        end) ∧
  (quiet w → is_Some (fd_file w (s_des s)) → 0 < s_len s → e = None).
Proof.
  unfold map_window.
  destruct (sys_mmap (s_len s) (s_mod s) (s_des s) (s_off s) w) as [m w1] eqn:Hm.
  apply sys_mmap_spec in Hm as (Hfs & Hfds & Hq & Hm & Hok).
  destruct m as [m|]; intros [= <- <- <-]; repeat split; auto.
  - destruct Hm as [?|[[= ->] ?]]; [done|]. eexists; eauto.
  - eexists; eauto.
  - intros Q F L. by destruct (Hok Q F L).
Qed.

(** The write path grows the file to the window: what was in the file
    stays, the window covers the cursor. *)
Lemma write_fault_spec s w e s' w' :
  stream_inv s w →
  write_fault s w = Done (e, s', w') →
  stream_inv s' w' ∧ same_handle s s' ∧
  s_cur s' = s_cur s ∧ s_end s' = s_end s ∧ s_siz s ≤ s_siz s' ∧
  (quiet w → quiet w') ∧
  (∃ d d', fd_file w (s_des s) = Some d ∧ fd_file w' (s_des s) = Some d' ∧
           ∀ i : nat, (i < length d)%nat → d' !! i = d !! i) ∧
  match e with
  | None => is_Some (s_buf s') ∧ s_off s' ≤ s_cur s < s_brk s'
  | Some errn => errn = w_errno w'
  end ∧
  (quiet w → e = None).
Proof.
  intros [Hblk Hcur Hend (d & Hd & Hlen) Hwin] H.
  unfold write_fault in H. rewrite release_eq in H.
  inv_bind H. apply align_Done in Ha as (-> & _ & Hr).
  unfold aligned in *. simpl in *.
  destruct (align_bracket (s_cur s) (s_blk s)) as (H1 & H2 & H3); [lia..|].
  set (off := Z.quot (s_cur s) (s_blk s) * s_blk s) in *.
  rewrite Z.gtb_ltb in H. destruct (Z.ltb_spec (s_siz s) (off + s_blk s)).
  - destruct (sys_ftruncate _ _ w) as [rc w1] eqn:Ht.
    eapply sys_ftruncate_spec in Ht as (Hfds & Hq & Hcase & Hok); [|exact Hd].
    destruct Hcase as [(-> & Hn & Hd1)|(-> & Hfs)]; simpl in H.
    + destruct (map_window _ w1) as [[e1 s1] w2] eqn:Hm.
      injection H as -> -> ->.
      apply map_window_spec in Hm as (Hfs2 & Hfds2 & Hq2 & (m & -> & Hm) & Hok2).
      simpl in *.
      assert (Hd2 : fd_file w' (s_des s) = Some (resize (Z.to_nat (off + s_blk s)) d))
        by (by rewrite (fd_file_ext w1 w')).
      repeat split; simpl; auto; try lia.
      * eexists; split; [exact Hd2|]. rewrite length_resize. lia.
      * unfold window_ok. simpl. destruct e as [errn|]; destruct Hm as [-> Hm]; [done|].
        repeat split; auto; lia.
      * exists d, (resize (Z.to_nat (off + s_blk s)) d). repeat split; auto.
        intros i Hi. apply lookup_resize; lia.
      * destruct e as [errn|]; destruct Hm as [-> Hm]; [done|].
        repeat split; eauto; lia.
      * intros Q. apply Hok2; [by apply Hq|by rewrite Hd1|lia].
    + injection H as <- <- <-. simpl.
      assert (Hd2 : fd_file w1 (s_des s) = Some d) by (by rewrite (fd_file_ext w w1)).
      repeat split; simpl; auto; try lia.
      * eexists; split; [exact Hd2|]. done.
      * exists d, d. repeat split; auto.
      * intros Q. specialize (Hok Q). lia.
  - simpl in H.
    destruct (map_window _ w) as [[e1 s1] w2] eqn:Hm.
    injection H as -> -> ->.
    apply map_window_spec in Hm as (Hfs2 & Hfds2 & Hq2 & (m & -> & Hm) & Hok2).
    simpl in *.
    assert (Hd2 : fd_file w' (s_des s) = Some d) by (by rewrite (fd_file_ext w w')).
    repeat split; simpl; auto; try lia.
    + eexists; split; [exact Hd2|]. done.
    + unfold window_ok. simpl. destruct e as [errn|]; destruct Hm as [-> Hm]; [done|].
      repeat split; auto; lia.
    + exists d, d. repeat split; auto.
    + destruct e as [errn|]; destruct Hm as [-> Hm]; [done|].
      repeat split; eauto; lia.
    + intros Q. apply Hok2; [done|by rewrite Hd|lia].
Qed.

Lemma write_fault_not_Timeout s w : write_fault s w ≠ Timeout.
Proof.
  unfold write_fault. rewrite release_eq.
  apply bind_not_Timeout; [apply align_not_Timeout|].
  intros s1 _. destruct (s_brk s1 >? s_siz s1); [|done].
  destruct (sys_ftruncate _ _ w) as [rc w1]. by destruct (negb (rc =? 0)).
Qed.

(** The read path never maps past the end of the file, and leaves the
    files alone. *)
Lemma read_fault_spec s w e s' w' :
  stream_inv s w →
  read_fault s w = Done (e, s', w') →
  stream_inv s' w' ∧ same_handle s s' ∧
  s_cur s' = s_cur s ∧ s_end s' = s_end s ∧ s_siz s' = s_siz s ∧
  w_fs w' = w_fs w ∧ w_fds w' = w_fds w ∧ (quiet w → quiet w') ∧
  match e with
  | None => is_Some (s_buf s') ∧ s_off s' ≤ s_cur s ∧
            (s_cur s < s_siz s → s_cur s < s_brk s')
  | Some errn => errn = w_errno w'
  end ∧
  (quiet w → s_cur s < s_siz s → e = None).
Proof.
  intros [Hblk Hcur Hend (d & Hd & Hlen) Hwin] H.
  unfold read_fault in H. rewrite release_eq in H.
  inv_bind H. apply align_Done in Ha as (-> & _ & Hr).
  unfold aligned in *. simpl in *.
  destruct (align_bracket (s_cur s) (s_blk s)) as (H1 & H2 & H3); [lia..|].
  set (off := Z.quot (s_cur s) (s_blk s) * s_blk s) in *.
  rewrite Z.gtb_ltb in H. destruct (Z.ltb_spec (s_siz s) (off + s_blk s)).
  - inv_bind H. apply long_Done in Ha as [-> _]. simpl in H.
    inv_bind H. apply long_Done in Ha as [-> _]. simpl in H.
    destruct (map_window _ w) as [[e1 s1] w2] eqn:Hm.
    injection H as -> -> ->.
    apply map_window_spec in Hm as (Hfs2 & Hfds2 & Hq2 & (m & -> & Hm) & Hok2).
    simpl in *.
    assert (Hd2 : fd_file w' (s_des s) = Some d) by (by rewrite (fd_file_ext w w')).
    repeat split; simpl; auto; try lia.
    + eexists; split; [exact Hd2|]. done.
    + unfold window_ok. simpl. destruct e as [errn|]; destruct Hm as [-> Hm]; [done|].
      repeat split; auto; lia.
    + destruct e as [errn|]; destruct Hm as [-> Hm]; [done|].
      repeat split; eauto; lia.
    + intros Q L. apply Hok2; [done|by rewrite Hd|lia].
  - simpl in H.
    destruct (map_window _ w) as [[e1 s1] w2] eqn:Hm.
    injection H as -> -> ->.
    apply map_window_spec in Hm as (Hfs2 & Hfds2 & Hq2 & (m & -> & Hm) & Hok2).
    simpl in *.
    assert (Hd2 : fd_file w' (s_des s) = Some d) by (by rewrite (fd_file_ext w w')).
    repeat split; simpl; auto; try lia.
    + eexists; split; [exact Hd2|]. done.
    + unfold window_ok. simpl. destruct e as [errn|]; destruct Hm as [-> Hm]; [done|].
      repeat split; auto; lia.
    + destruct e as [errn|]; destruct Hm as [-> Hm]; [done|].
      repeat split; eauto; lia.
    + intros Q L. apply Hok2; [done|by rewrite Hd|lia].
Qed.

(** With a representable window bound the read path has defined
    behaviour. *)
Lemma read_fault_defined s w :
  stream_inv s w →
  Z.quot (s_cur s) (s_blk s) * s_blk s + s_blk s ≤ LONG_MAX →
  ∃ r, read_fault s w = Done r.
Proof.
  intros [Hblk Hcur Hend (d & Hd & Hlen) Hwin] Ho.
  unfold read_fault. rewrite release_eq.
  destruct (align_bracket (s_cur s) (s_blk s)) as (H1 & H2 & H3); [lia..|].
  rewrite align_in by (simpl; lia). unfold aligned. simpl.
  set (off := Z.quot (s_cur s) (s_blk s) * s_blk s) in *.
  destruct (off + s_blk s >? s_siz s); [|eauto].
  rewrite long_in by (unfold LONG_MIN; lia). simpl.
  rewrite long_in by (unfold LONG_MIN; lia). simpl. eauto.
Qed.

(** ** The byte copiers *)

Lemma buf_load_Done l i b :
  buf_load l i = Done b → 0 ≤ i ∧ l !! Z.to_nat i = Some b.
Proof.
  unfold buf_load. destruct (Z.ltb_spec i 0); [discriminate|].
  destruct (l !! Z.to_nat i); [|discriminate]. intros [= ->]. by split.
Qed.

Lemma buf_store_Done l i b l' :
  buf_store l i b = Done l' →
  0 ≤ i < Z.of_nat (length l) ∧ l' = <[Z.to_nat i := b]> l.
Proof.
  unfold buf_store. destruct (Z.ltb_spec i 0); [discriminate|].
  destruct (Z.ltb_spec i (Z.of_nat (length l))); [|discriminate].
  intros [= <-]. split; [lia|done].
Qed.

Lemma map_load_Done m i w b :
  map_load m i w = Done b →
  0 ≤ i < m_len m ∧ 0 ≤ m_off m ∧
  ∃ d, fd_file w (m_des m) = Some d ∧ d !! Z.to_nat (m_off m + i) = Some b.
Proof.
  unfold map_load.
  destruct (Z.leb_spec 0 i), (Z.ltb_spec i (m_len m)), (Z.leb_spec 0 (m_off m));
    simpl; try discriminate.
  destruct (fd_file w (m_des m)) as [d|]; [|discriminate].
  destruct (d !! Z.to_nat (m_off m + i)) eqn:E; [|discriminate].
  intros [= ->]. repeat split; try lia. eauto.
Qed.

Lemma map_store_Done m i b w w' d :
  map_store m i b w = Done w' →
  fd_file w (m_des m) = Some d →
  0 ≤ i < m_len m ∧ 0 ≤ m_off m ∧ m_off m + i < Z.of_nat (length d) ∧
  w' = fd_set_file (m_des m) (<[Z.to_nat (m_off m + i) := b]> d) w.
Proof.
  unfold map_store. intros H Hd. rewrite Hd in H.
  destruct (Z.leb_spec 0 i), (Z.ltb_spec i (m_len m)), (Z.leb_spec 0 (m_off m)),
    (Z.land (m_prot m) PROT_WRITE =? PROT_WRITE); simpl in H; try discriminate.
  destruct (Z.ltb_spec (m_off m + i) (Z.of_nat (length d))); [|discriminate].
  injection H as <-. repeat split; auto; lia.
Qed.

Lemma copy_out_spec n : ∀ src si m di w w' d,
  copy_out n src si m di w = Done w' →
  fd_file w (m_des m) = Some d →
  ∃ d', fd_file w' (m_des m) = Some d' ∧ length d' = length d ∧
        w_fds w' = w_fds w ∧ w_faults w' = w_faults w ∧ w_errno w' = w_errno w ∧
        (∀ k : nat, (k < n)%nat →
           d' !! Z.to_nat (m_off m + di + Z.of_nat k) = src !! Z.to_nat (si + Z.of_nat k)) ∧
        (∀ i : nat, Z.of_nat i < m_off m + di ∨ m_off m + di + Z.of_nat n ≤ Z.of_nat i →
           d' !! i = d !! i).
Proof.
  induction n as [|n IH]; intros src si m di w w' d H Hd; simpl in H.
  - injection H as <-. exists d. repeat split; auto. intros k Hk. lia.
  - inv_bind H. apply buf_load_Done in Ha as [Hsi Hb].
    inv_bind H. eapply map_store_Done in Ha; [|exact Hd].
    destruct Ha as (Hi & Hoff & Hlt & ->).
    set (d1 := <[Z.to_nat (m_off m + di) := a]> d) in *.
    assert (Hd1 : fd_file (fd_set_file (m_des m) d1 w) (m_des m) = Some d1)
      by (apply fd_file_set; by rewrite Hd).
    destruct (IH _ _ _ _ _ _ _ H Hd1) as (d' & Hd' & Hlen & Hfds & Hfl & Herr & Hin & Hout).
    exists d'. rewrite Hfds, Hfl, Herr, fd_set_file_fds, fd_set_file_faults, fd_set_file_errno.
    repeat split; auto.
    + rewrite Hlen. unfold d1. apply length_insert.
    + intros [|k] Hk.
      * rewrite !Z.add_0_r, Hout by lia. unfold d1.
        rewrite list_lookup_insert_eq by lia. done.
      * replace (m_off m + di + Z.of_nat (S k)) with (m_off m + (di + 1) + Z.of_nat k) by lia.
        replace (si + Z.of_nat (S k)) with (si + 1 + Z.of_nat k) by lia.
        apply Hin. lia.
    + intros i Hi'. rewrite Hout by lia. unfold d1.
      apply list_lookup_insert_ne. lia.
Qed.

Lemma copy_out_not_Timeout n : ∀ src si m di w, copy_out n src si m di w ≠ Timeout.
Proof.
  induction n as [|n IH]; intros src si m di w; simpl; [done|].
  apply bind_not_Timeout.
  { unfold buf_load. destruct (si <? 0); [done|]. by destruct (src !! Z.to_nat si). }
  intros b _. apply bind_not_Timeout; [|intros w1 _; apply IH].
  unfold map_store. destruct (_ && _); [|done].
  destruct (fd_file w (m_des m)); [|done]. by destruct (_ <? _).
Qed.

Lemma copy_in_spec n : ∀ m si dst di w dst' d,
  copy_in n m si dst di w = Done dst' →
  fd_file w (m_des m) = Some d →
  length dst' = length dst ∧
  (∀ k : nat, (k < n)%nat →
     dst' !! Z.to_nat (di + Z.of_nat k) = d !! Z.to_nat (m_off m + si + Z.of_nat k)) ∧
  (∀ i : nat, Z.of_nat i < di ∨ di + Z.of_nat n ≤ Z.of_nat i → dst' !! i = dst !! i).
Proof.
  induction n as [|n IH]; intros m si dst di w dst' d H Hd; simpl in H.
  - injection H as <-. repeat split; auto. intros k Hk. lia.
  - inv_bind H. apply map_load_Done in Ha as (Hi & Hoff & d0 & Hd0 & Hb).
    rewrite Hd in Hd0. injection Hd0 as <-.
    inv_bind H. apply buf_store_Done in Ha as (Hdi & ->).
    destruct (IH _ _ _ _ _ _ _ H Hd) as (Hlen & Hin & Hout).
    repeat split.
    + rewrite Hlen. apply length_insert.
    + intros [|k] Hk.
      * rewrite !Z.add_0_r, Hout by lia.
        rewrite list_lookup_insert_eq by lia. done.
      * replace (m_off m + si + Z.of_nat (S k)) with (m_off m + (si + 1) + Z.of_nat k) by lia.
        replace (di + Z.of_nat (S k)) with (di + 1 + Z.of_nat k) by lia.
        apply Hin. lia.
    + intros i Hi'. rewrite Hout by lia.
      apply list_lookup_insert_ne. lia.
Qed.

Lemma copy_in_defined n : ∀ m si dst di w d,
  fd_file w (m_des m) = Some d →
  0 ≤ si → si + Z.of_nat n ≤ m_len m → 0 ≤ m_off m →
  m_off m + si + Z.of_nat n ≤ Z.of_nat (length d) →
  0 ≤ di → di + Z.of_nat n ≤ Z.of_nat (length dst) →
  ∃ dst', copy_in n m si dst di w = Done dst'.
Proof.
  induction n as [|n IH]; intros m si dst di w d Hd H1 H2 H3 H4 H5 H6; simpl; [eauto|].
  unfold map_load. rewrite Hd.
  destruct (Z.leb_spec 0 si), (Z.ltb_spec si (m_len m)), (Z.leb_spec 0 (m_off m)); try lia.
  simpl. destruct (lookup_lt_is_Some_2 d (Z.to_nat (m_off m + si))) as [b ->]; [lia|].
  simpl. unfold buf_store.
  destruct (Z.ltb_spec di 0), (Z.ltb_spec di (Z.of_nat (length dst))); try lia.
  simpl. eapply IH; eauto; try lia. rewrite length_insert. lia.
Qed.

(** ** One turn of the loops *)

Lemma stale_false s :
  stale s = false → is_Some (s_buf s) ∧ s_off s ≤ s_cur s < s_brk s.
Proof.
  unfold stale. rewrite Z.geb_leb.
  destruct (Z.ltb_spec (s_cur s) (s_off s)), (Z.leb_spec (s_brk s) (s_cur s)),
    (s_buf s); simpl; try discriminate.
  intros _. split; [eauto|lia].
Qed.

(** The page-fault check of the writing loop. *)
Lemma write_check_spec s w e s' w' :
  stream_inv s w →
  (if stale s then write_fault s w else mret (None, s, w)) = Done (e, s', w') →
  stream_inv s' w' ∧ same_handle s s' ∧
  s_cur s' = s_cur s ∧ s_end s' = s_end s ∧ s_siz s ≤ s_siz s' ∧
  (quiet w → quiet w') ∧
  (∃ d d', fd_file w (s_des s) = Some d ∧ fd_file w' (s_des s) = Some d' ∧
           ∀ i : nat, (i < length d)%nat → d' !! i = d !! i) ∧
  match e with
  | None => is_Some (s_buf s') ∧ s_off s' ≤ s_cur s < s_brk s'
  | Some errn => errn = w_errno w'
  end ∧
  (quiet w → e = None).
Proof.
  intros Hinv H. destruct (stale s) eqn:Hs.
  - by apply write_fault_spec.
  - injection H as <- <- <-. apply stale_false in Hs.
    destruct (inv_file _ _ Hinv) as (d & Hd & Hlen).
    split; [done|]. repeat split; auto; try lia; try tauto.
    exists d, d. auto.
Qed.

(** The page-fault check of the reading loop. *)
Lemma read_check_spec s w e s' w' :
  stream_inv s w →
  (if stale s then read_fault s w else mret (None, s, w)) = Done (e, s', w') →
  stream_inv s' w' ∧ same_handle s s' ∧
  s_cur s' = s_cur s ∧ s_end s' = s_end s ∧ s_siz s' = s_siz s ∧
  w_fs w' = w_fs w ∧ w_fds w' = w_fds w ∧ (quiet w → quiet w') ∧
  match e with
  | None => is_Some (s_buf s') ∧ s_off s' ≤ s_cur s ∧
            (s_cur s < s_siz s → s_cur s < s_brk s')
  | Some errn => errn = w_errno w'
  end ∧
  (quiet w → s_cur s < s_siz s → e = None).
Proof.
  intros Hinv H. destruct (stale s) eqn:Hs.
  - by apply read_fault_spec.
  - injection H as <- <- <-. apply stale_false in Hs.
    split; [done|]. repeat split; auto; try lia; try tauto.
Qed.

(** One turn of the writing loop: the bytes between the old and the new
    cursor come from the caller's buffer, every other byte of the file
    is kept. *)
Lemma write_body_spec brk buf len s w e len' s' w' :
  stream_inv s w → s_cur s < brk →
  write_body brk buf len s w = Done (e, len', s', w') →
  stream_inv s' w' ∧ same_handle s s' ∧
  s_end s ≤ s_end s' ∧ s_siz s ≤ s_siz s' ∧ (quiet w → quiet w') ∧
  (∃ d d', fd_file w (s_des s) = Some d ∧ fd_file w' (s_des s) = Some d' ∧
     (∀ i : nat, (i < length d)%nat →
        Z.of_nat i < s_cur s ∨ s_cur s' ≤ Z.of_nat i → d' !! i = d !! i) ∧
     (∀ k : nat, Z.of_nat k < s_cur s' - s_cur s →
        d' !! Z.to_nat (s_cur s + Z.of_nat k) = buf !! Z.to_nat (len + Z.of_nat k))) ∧
  match e with
  | None => s_cur s < s_cur s' ≤ brk ∧ len' = len + (s_cur s' - s_cur s) ∧
            s_end s' = Z.max (s_end s) (s_cur s') ∧
            is_Some (s_buf s') ∧ s_off s' ≤ s_cur s ∧ s_cur s' ≤ s_brk s'
  | Some errn => s_cur s' = s_cur s ∧ s_end s' = s_end s ∧ len' = len ∧
                 errn = w_errno w'
  end ∧
  (quiet w → e = None).
Proof.
  intros Hinv Hlt H. unfold write_body in H.
  inv_bind H. destruct a as [[e1 s1] w1].
  apply write_check_spec in Ha
    as (Hinv1 & (Hblk & Hmod & Hdes) & Hc & He & Hsz & Hq & (d & d1 & Hd & Hd1 & Hpre) & Hm & Hok);
    [|done].
  destruct e1 as [errn|].
  { simpl in H. injection H as <- <- <- <-.
    split; [done|]. repeat split; auto; try lia.
    exists d, d1. repeat split; auto. intros k Hk. lia. }
  destruct Hm as ([m Hbuf] & Hoff & Hbrk). rewrite Hbuf in H.
  pose proof (inv_win _ _ Hinv1) as Hw. unfold window_ok in Hw. rewrite Hbuf in Hw.
  destruct Hw as (-> & Ho0 & Hrem & Hl & Hb & Hbs).
  destruct Hinv1 as [Hblk1 Hcur1 Hend1 (d1' & Hd1' & Hlen1) Hwin1].
  rewrite Hdes, Hd1 in Hd1'. injection Hd1' as <-.
  inv_bind H. apply long_Done in Ha as [-> _].
  set (wrl := (if brk <? s_brk s1 then brk else s_brk s1) - s_cur s1) in *.
  assert (Hwrl : 0 < wrl ∧ s_cur s1 + wrl ≤ brk ∧ s_cur s1 + wrl ≤ s_brk s1).
  { unfold wrl. destruct (Z.ltb_spec brk (s_brk s1)); lia. }
  inv_bind H. apply long_Done in Ha as [-> _].
  inv_bind H. eapply copy_out_spec in Ha; [|simpl; rewrite Hdes; exact Hd1].
  destruct Ha as (d2 & Hd2 & Hlen2 & Hfds & Hfl & Herr & Hin & Hout). simpl in *.
  inv_bind H. apply long_Done in Ha as [-> _].
  inv_bind H. apply long_Done in Ha as [-> _]. simpl in H.
  injection H as <- <- <- <-.
  remember (if s_cur s1 + wrl >? s_end s1
            then set_end (s_cur s1 + wrl) (set_cur (s_cur s1 + wrl) s1)
            else set_cur (s_cur s1 + wrl) s1) as s3 eqn:E3.
  assert (s_buf s3 = s_buf s1 ∧ s_off s3 = s_off s1 ∧ s_len s3 = s_len s1 ∧
    s_brk s3 = s_brk s1 ∧ s_blk s3 = s_blk s1 ∧ s_cur s3 = s_cur s1 + wrl ∧
    s_end s3 = Z.max (s_end s1) (s_cur s1 + wrl) ∧ s_siz s3 = s_siz s1 ∧
    s_mod s3 = s_mod s1 ∧ s_des s3 = s_des s1)
    as (Eb & Eo & El & Ek & Eblk & Ec & Ee & Es & Em & Ed).
  { rewrite Z.gtb_ltb in E3.
    destruct (Z.ltb_spec (s_end s1) (s_cur s1 + wrl)); subst s3; simpl;
      repeat split; lia. }
  clear E3.
  split.
  { split; try lia.
    - exists d2. rewrite Ed. split; [done|]. lia.
    - unfold window_ok. rewrite Eb, Hbuf, Eo, El, Ek, Eblk, Es, Em, Ed.
      repeat split; auto; lia. }
  unfold same_handle. rewrite Eblk, Em, Ed, Ec, Ee, Es, Eb, Eo, Ek, Hbuf.
  repeat split; eauto; try lia.
  - intros Q. unfold quiet. rewrite Hfl. by apply Hq.
  - exists d, d2. rewrite <- Hdes at 2. repeat split; auto.
    + intros i Hi Hr. rewrite Hout by lia. by apply Hpre.
    + intros k Hk.
      replace (s_cur s + Z.of_nat k) with (s_off s1 + (s_cur s1 - s_off s1) + Z.of_nat k) by lia.
      apply Hin. lia.
Qed.

Lemma write_body_not_Timeout brk buf len s w : write_body brk buf len s w ≠ Timeout.
Proof.
  unfold write_body. apply bind_not_Timeout.
  { destruct (stale s); [apply write_fault_not_Timeout|done]. }
  intros [[[errn|] s1] w1] _; [done|].
  destruct (s_buf s1) as [m|]; [|done].
  apply bind_not_Timeout; [apply long_not_Timeout|]. intros wrl _.
  apply bind_not_Timeout; [apply long_not_Timeout|]. intros d _.
  apply bind_not_Timeout; [apply copy_out_not_Timeout|]. intros w2 _.
  apply bind_not_Timeout; [apply long_not_Timeout|]. intros c _.
  apply bind_not_Timeout; [apply long_not_Timeout|]. done.
Qed.

Lemma copy_out_defined n : ∀ src si m di w d,
  fd_file w (m_des m) = Some d →
  Z.land (m_prot m) PROT_WRITE = PROT_WRITE →
  0 ≤ si → si + Z.of_nat n ≤ Z.of_nat (length src) →
  0 ≤ di → di + Z.of_nat n ≤ m_len m → 0 ≤ m_off m →
  m_off m + di + Z.of_nat n ≤ Z.of_nat (length d) →
  ∃ w', copy_out n src si m di w = Done w'.
Proof.
  induction n as [|n IH]; intros src si m di w d Hd Hp H1 H2 H3 H4 H5 H6; simpl; [eauto|].
  unfold buf_load. destruct (Z.ltb_spec si 0); [lia|].
  destruct (lookup_lt_is_Some_2 src (Z.to_nat si)) as [b ->]; [lia|]. simpl.
  unfold map_store. rewrite Hd, Hp, Z.eqb_refl.
  destruct (Z.leb_spec 0 di), (Z.ltb_spec di (m_len m)), (Z.leb_spec 0 (m_off m)); try lia.
  simpl. destruct (Z.ltb_spec (m_off m + di) (Z.of_nat (length d))); [|lia]. simpl.
  eapply IH; eauto; try lia.
  - apply fd_file_set. by rewrite Hd.
  - rewrite length_insert. lia.
Qed.

Lemma write_fault_defined s w :
  stream_inv s w →
  Z.quot (s_cur s) (s_blk s) * s_blk s + s_blk s ≤ LONG_MAX →
  ∃ r, write_fault s w = Done r.
Proof.
  intros [Hblk Hcur Hend (d & Hd & Hlen) Hwin] Ho.
  unfold write_fault. rewrite release_eq.
  rewrite align_in by (simpl; lia). unfold aligned. simpl.
  destruct (_ >? _); [|eauto].
  destruct (sys_ftruncate _ _ w) as [rc w1]. destruct (negb (rc =? 0)); eauto.
Qed.

(** With a representable window bound and enough bytes in the caller's
    buffer one turn of the writing loop has defined behaviour. *)
Lemma write_body_defined brk buf len s w :
  stream_inv s w → s_cur s < brk → brk ≤ LONG_MAX →
  Z.quot (s_cur s) (s_blk s) * s_blk s + s_blk s ≤ LONG_MAX →
  Z.land (s_mod s) PROT_WRITE = PROT_WRITE →
  0 ≤ len → len + (brk - s_cur s) ≤ Z.of_nat (length buf) →
  len + (brk - s_cur s) ≤ LONG_MAX →
  ∃ r, write_body brk buf len s w = Done r.
Proof.
  intros Hinv Hlt Hbrk Ho Hp Hlen Hbuf Hmax. unfold write_body.
  assert (∃ r, (if stale s then write_fault s w else mret (None, s, w)) = Done r)
    as [[[e1 s1] w1] Hr].
  { destruct (stale s); [by apply write_fault_defined|eauto]. }
  rewrite Hr. simpl.
  apply write_check_spec in Hr
    as (Hinv1 & (Hblk & Hmod & Hdes) & Hc & He & Hsz & Hq & (d & d1 & Hd & Hd1 & Hpre) & Hm & Hok);
    [|done].
  destruct e1 as [errn|]; [eauto|].
  destruct Hm as ([m Hm] & Hoff & Hb). rewrite Hm.
  pose proof (inv_win _ _ Hinv1) as Hw. unfold window_ok in Hw. rewrite Hm in Hw.
  destruct Hw as (-> & Ho0 & Hrem & Hl & Hb' & Hbs).
  destruct Hinv1 as [Hblk1 Hcur1 Hend1 (d1' & Hd1' & Hlen1) Hwin1].
  rewrite Hdes, Hd1 in Hd1'. injection Hd1' as <-.
  set (wrl := (if brk <? s_brk s1 then brk else s_brk s1) - s_cur s1) in *.
  assert (Hwrl : 0 < wrl ∧ s_cur s1 + wrl ≤ brk ∧ s_cur s1 + wrl ≤ s_brk s1).
  { unfold wrl. destruct (Z.ltb_spec brk (s_brk s1)); lia. }
  rewrite long_in by (unfold LONG_MIN; lia). simpl.
  rewrite long_in by (unfold LONG_MIN; lia). simpl.
  destruct (copy_out_defined (Z.to_nat wrl) buf len
              (Mapping (s_des s1) (s_off s1) (s_len s1) (s_mod s1))
              (s_cur s1 - s_off s1) w1 d1) as [w2 ->]; simpl; try lia.
  { by rewrite Hdes. }
  { by rewrite Hmod. }
  rewrite long_in by (unfold LONG_MIN; lia). simpl.
  rewrite long_in by (unfold LONG_MIN; lia). simpl. eauto.
Qed.

(** ** The loops *)

Lemma stream_inv_errno s w e : stream_inv s w → stream_inv s (set_errno e w).
Proof. intros [? ? ? ? ?]. by split. Qed.

Lemma write_loop_spec fuel : ∀ brk buf len s w r s' w',
  stream_inv s w →
  write_loop fuel brk buf len s w = Done (r, s', w') →
  stream_inv s' w' ∧ same_handle s s' ∧
  s_cur s ≤ s_cur s' ∧ s_end s ≤ s_end s' ∧ s_siz s ≤ s_siz s' ∧
  (quiet w → quiet w') ∧
  (brk ≤ s_cur s → r = len ∧ s' = s ∧ w' = w) ∧
  ∃ d d', fd_file w (s_des s) = Some d ∧ fd_file w' (s_des s) = Some d' ∧
    (∀ i : nat, (i < length d)%nat →
       Z.of_nat i < s_cur s ∨ s_cur s' ≤ Z.of_nat i → d' !! i = d !! i) ∧
    (r = -1 ∨ written brk buf len s r s' d') ∧
    (quiet w → written brk buf len s r s' d').
Proof.
  induction fuel as [|fuel IH]; intros brk buf len s w r s' w' Hinv H; [discriminate|].
  simpl in H. destruct (Z.ltb_spec (s_cur s) brk) as [Hlt|Hge].
  2:{ injection H as <- <- <-.
      destruct (inv_file _ _ Hinv) as (d & Hd & Hlen).
      pose proof (inv_cur _ _ Hinv).
      assert (written brk buf len s len s d).
      { unfold written. repeat split; try lia. }
      split; [done|]. unfold same_handle. split_and!; auto; try lia.
      exists d, d. split_and!; auto. }
  inv_bind H. destruct a as [[[e len1] s1] w1].
  apply write_body_spec in Ha
    as (Hinv1 & (Hblk & Hmod & Hdes) & He & Hsz & Hq & (d & d1 & Hd & Hd1 & Hfr & Hin) & Hm & Hok);
    [|done..].
  assert ((length d ≤ length d1)%nat ∧ Z.of_nat (length d1) = s_siz s1) as [Hl1 Hl2].
  { destruct (inv_file _ _ Hinv) as (x & Hx & Hlx).
    destruct (inv_file _ _ Hinv1) as (y & Hy & Hly).
    rewrite Hdes, Hd1 in Hy. rewrite Hd in Hx. injection Hx as <-. injection Hy as <-. lia. }
  pose proof (inv_cur _ _ Hinv1) as Hc1. pose proof (inv_end _ _ Hinv1) as He1.
  pose proof (inv_cur _ _ Hinv) as Hc0.
  destruct e as [errn|].
  { destruct Hm as (Hc & Hee & -> & ->). simpl in H. injection H as <- <- <-.
    split; [by apply stream_inv_errno|]. unfold same_handle.
    split_and!; auto; try lia.
    exists d, d1. split_and!; auto.
    intros Q. specialize (Hok Q). discriminate. }
  destruct Hm as (Hc & -> & Hee & Hb & Hoff & Hbrk).
  apply IH in H
    as (Hinv' & (Hblk' & Hmod' & Hdes') & Hc' & He' & Hsz' & Hq' & Hstop & (x & d' & Hx & Hd' & Hfr' & Hr & Hok'));
    [|done].
  rewrite Hdes, Hd1 in Hx. injection Hx as <-. rewrite Hdes in Hd'.
  assert (Hstep : written brk buf (len + (s_cur s1 - s_cur s)) s1 r s' d' →
                  written brk buf len s r s' d').
  { intros (-> & Hcs & Hes & Hwin & Hcont). unfold written. split_and!; try lia.
    - intros _. destruct (Z.ltb_spec (s_cur s1) brk) as [L|G]; [by apply Hwin|].
      destruct (Hstop G) as (_ & -> & _). split; [done|lia].
    - intros k Hk. destruct (Z.ltb_spec (Z.of_nat k) (s_cur s1 - s_cur s)) as [L|G].
      + rewrite Hfr' by lia. by apply Hin.
      + replace (s_cur s + Z.of_nat k)
          with (s_cur s1 + Z.of_nat (Z.to_nat (Z.of_nat k - (s_cur s1 - s_cur s)))) by lia.
        rewrite Hcont by lia. f_equal. lia. }
  split; [done|]. unfold same_handle. split_and!; auto; try lia.
  exists d, d'. split_and!; auto.
  - intros i Hi Hr'. rewrite Hfr' by lia. apply Hfr; [done|lia].
  - destruct Hr as [->|Hr]; [by left|right; by apply Hstep].
Qed.

(** Every turn moves the cursor forward: fuel beyond the length of the
    request is never used up, whatever the system does. *)
Lemma write_loop_not_Timeout fuel : ∀ brk buf len s w,
  stream_inv s w → (0 < fuel)%nat → brk - s_cur s < Z.of_nat fuel →
  write_loop fuel brk buf len s w ≠ Timeout.
Proof.
  induction fuel as [|fuel IH]; intros brk buf len s w Hinv Hpos Hf; [lia|].
  simpl. destruct (Z.ltb_spec (s_cur s) brk) as [Hlt|Hge]; [|done].
  apply bind_not_Timeout; [apply write_body_not_Timeout|].
  intros [[[e len1] s1] w1] Hb.
  apply write_body_spec in Hb as (Hinv1 & _ & _ & _ & _ & _ & Hm & _); [|done..].
  destruct e as [errn|]; [done|]. destruct Hm as (Hc & _).
  apply IH; [done|lia..].
Qed.

Lemma write_loop_defined fuel : ∀ brk buf len s w,
  stream_inv s w → (0 < fuel)%nat → brk - s_cur s < Z.of_nat fuel →
  brk + s_blk s ≤ LONG_MAX →
  Z.land (s_mod s) PROT_WRITE = PROT_WRITE →
  0 ≤ len → len + (brk - s_cur s) ≤ Z.of_nat (length buf) →
  len + (brk - s_cur s) ≤ LONG_MAX →
  ∃ r, write_loop fuel brk buf len s w = Done r.
Proof.
  induction fuel as [|fuel IH]; intros brk buf len s w Hinv Hpos Hf Ho Hp Hlen Hbuf Hmax; [lia|].
  simpl. destruct (Z.ltb_spec (s_cur s) brk) as [Hlt|Hge]; [|eauto].
  pose proof (inv_cur _ _ Hinv) as Hc0. pose proof (inv_blk _ _ Hinv) as Hb0.
  destruct (align_bracket (s_cur s) (s_blk s)) as (H1 & H2 & H3); [lia..|].
  destruct (write_body_defined brk buf len s w) as [[[[e len1] s1] w1] Hb]; auto; try lia.
  rewrite Hb. simpl.
  apply write_body_spec in Hb as (Hinv1 & (Hblk & Hmod & Hdes) & _ & _ & _ & _ & Hm & _);
    [|done..].
  destruct e as [errn|]; [eauto|]. destruct Hm as (Hc & -> & _).
  apply IH; auto; try lia.
  - by rewrite Hmod.
Qed.

(** One turn of the reading loop: the bytes between the old and the new
    cursor go to the caller's buffer, the files are not touched. *)
Lemma read_body_spec brk buf len s w e len' s' buf' w' :
  stream_inv s w → s_cur s < brk → brk ≤ s_end s →
  read_body brk buf len s w = Done (e, len', s', buf', w') →
  stream_inv s' w' ∧ same_handle s s' ∧
  s_end s' = s_end s ∧ s_siz s' = s_siz s ∧
  w_fs w' = w_fs w ∧ w_fds w' = w_fds w ∧ (quiet w → quiet w') ∧
  length buf' = length buf ∧
  (∀ i : nat, Z.of_nat i < len ∨ len' ≤ Z.of_nat i → buf' !! i = buf !! i) ∧
  (∃ d, fd_file w (s_des s) = Some d ∧
     ∀ k : nat, Z.of_nat k < s_cur s' - s_cur s →
       buf' !! Z.to_nat (len + Z.of_nat k) = d !! Z.to_nat (s_cur s + Z.of_nat k)) ∧
  match e with
  | None => s_cur s < s_cur s' ≤ brk ∧ len' = len + (s_cur s' - s_cur s) ∧
            is_Some (s_buf s') ∧ s_off s' ≤ s_cur s ∧ s_cur s' ≤ s_brk s'
  | Some errn => s_cur s' = s_cur s ∧ len' = len ∧ buf' = buf ∧ errn = w_errno w'
  end ∧
  (quiet w → e = None).
Proof.
  intros Hinv Hlt Hle H. unfold read_body in H.
  pose proof (inv_cur _ _ Hinv) as Hc0. pose proof (inv_end _ _ Hinv) as He0.
  destruct (inv_file _ _ Hinv) as (d & Hd & Hdl).
  inv_bind H. destruct a as [[e1 s1] w1].
  apply read_check_spec in Ha
    as (Hinv1 & (Hblk & Hmod & Hdes) & Hc & He & Hsz & Hfs & Hfds & Hq & Hm & Hok);
    [|done].
  assert (Hd1 : fd_file w1 (s_des s) = Some d) by (by rewrite (fd_file_ext w w1)).
  destruct e1 as [errn|].
  { simpl in H. injection H as <- <- <- <- <-.
    split; [done|]. unfold same_handle. split_and!; auto; try lia.
    - exists d. split; [done|]. intros k Hk. lia.
    - intros Q. apply Hok; [done|lia]. }
  destruct Hm as ([m Hbuf] & Hoff & Hbrk). rewrite Hbuf in H.
  specialize (Hbrk ltac:(lia)).
  pose proof (inv_win _ _ Hinv1) as Hw. unfold window_ok in Hw. rewrite Hbuf in Hw.
  destruct Hw as (-> & Ho0 & Hrem & Hl & Hb & Hbs).
  inv_bind H. apply long_Done in Ha as [-> _].
  set (rdl := (if brk <? s_brk s1 then brk else s_brk s1) - s_cur s1) in *.
  assert (Hrdl : 0 < rdl ∧ s_cur s1 + rdl ≤ brk ∧ s_cur s1 + rdl ≤ s_brk s1).
  { unfold rdl. destruct (Z.ltb_spec brk (s_brk s1)); lia. }
  inv_bind H. apply long_Done in Ha as [-> _].
  inv_bind H. eapply copy_in_spec in Ha; [|simpl; rewrite Hdes; exact Hd1].
  destruct Ha as (Hlen2 & Hin & Hout). simpl in *.
  inv_bind H. apply long_Done in Ha as [-> _].
  inv_bind H. apply long_Done in Ha as [-> _]. simpl in H.
  injection H as <- <- <- <- <-.
  destruct Hinv1 as [Hblk1 Hcur1 Hend1 Hfile1 Hwin1].
  split.
  { split; simpl; auto; lia. }
  unfold same_handle. simpl. rewrite Hbuf.
  split_and!; eauto; try lia.
  - intros i Hi. apply Hout. lia.
  - exists d. split; [done|]. intros k Hk.
    rewrite Hin by lia. f_equal. lia.
Qed.

Lemma read_body_defined brk buf len s w :
  stream_inv s w → s_cur s < brk → brk ≤ s_end s →
  Z.quot (s_cur s) (s_blk s) * s_blk s + s_blk s ≤ LONG_MAX →
  0 ≤ len → len + (brk - s_cur s) ≤ Z.of_nat (length buf) →
  len + (brk - s_cur s) ≤ LONG_MAX →
  ∃ r, read_body brk buf len s w = Done r.
Proof.
  intros Hinv Hlt Hle Ho Hlen Hbuf Hmax. unfold read_body.
  pose proof (inv_cur _ _ Hinv) as Hc0. pose proof (inv_end _ _ Hinv) as He0.
  destruct (inv_file _ _ Hinv) as (d & Hd & Hdl).
  assert (∃ r, (if stale s then read_fault s w else mret (None, s, w)) = Done r)
    as [[[e1 s1] w1] Hr].
  { destruct (stale s); [by apply read_fault_defined|eauto]. }
  rewrite Hr. simpl.
  apply read_check_spec in Hr
    as (Hinv1 & (Hblk & Hmod & Hdes) & Hc & He & Hsz & Hfs & Hfds & Hq & Hm & Hok);
    [|done].
  assert (Hd1 : fd_file w1 (s_des s) = Some d) by (by rewrite (fd_file_ext w w1)).
  destruct e1 as [errn|]; [eauto|].
  destruct Hm as ([m Hm] & Hoff & Hb). rewrite Hm.
  specialize (Hb ltac:(lia)).
  pose proof (inv_win _ _ Hinv1) as Hw. unfold window_ok in Hw. rewrite Hm in Hw.
  destruct Hw as (-> & Ho0 & Hrem & Hl & Hb' & Hbs).
  set (rdl := (if brk <? s_brk s1 then brk else s_brk s1) - s_cur s1) in *.
  assert (Hrdl : 0 < rdl ∧ s_cur s1 + rdl ≤ brk ∧ s_cur s1 + rdl ≤ s_brk s1).
  { unfold rdl. destruct (Z.ltb_spec brk (s_brk s1)); lia. }
  rewrite long_in by (unfold LONG_MIN; lia). simpl.
  rewrite long_in by (unfold LONG_MIN; lia). simpl.
  destruct (copy_in_defined (Z.to_nat rdl)
              (Mapping (s_des s1) (s_off s1) (s_len s1) (s_mod s1))
              (s_cur s1 - s_off s1) buf len w1 d) as [buf1 ->]; simpl; try lia.
  { by rewrite Hdes. }
  rewrite long_in by (unfold LONG_MIN; lia). simpl.
  rewrite long_in by (unfold LONG_MIN; lia). simpl. eauto.
Qed.

Lemma read_loop_spec fuel : ∀ brk buf len s w r s' buf' w',
  stream_inv s w → brk ≤ s_end s → 0 ≤ len →
  read_loop fuel brk buf len s w = Done (r, s', buf', w') →
  stream_inv s' w' ∧ same_handle s s' ∧
  s_cur s ≤ s_cur s' ∧ s_end s' = s_end s ∧ s_siz s' = s_siz s ∧
  w_fs w' = w_fs w ∧ w_fds w' = w_fds w ∧ (quiet w → quiet w') ∧
  length buf' = length buf ∧
  (brk ≤ s_cur s → r = len ∧ s' = s ∧ buf' = buf ∧ w' = w) ∧
  (∀ i : nat, Z.of_nat i < len ∨ len + (s_cur s' - s_cur s) ≤ Z.of_nat i →
     buf' !! i = buf !! i) ∧
  ∃ d, fd_file w (s_des s) = Some d ∧
       (r = -1 ∨ delivered brk len s d r s' buf') ∧
       (quiet w → delivered brk len s d r s' buf').
Proof.
  induction fuel as [|fuel IH]; intros brk buf len s w r s' buf' w' Hinv Hle Hlen H;
    [discriminate|].
  simpl in H. destruct (inv_file _ _ Hinv) as (d & Hd & Hdl).
  pose proof (inv_cur _ _ Hinv) as Hc0.
  destruct (Z.ltb_spec (s_cur s) brk) as [Hlt|Hge].
  2:{ injection H as <- <- <- <-.
      assert (delivered brk len s d len s buf).
      { unfold delivered. split_and!; try lia. }
      split; [done|]. unfold same_handle. split_and!; auto; try lia.
      exists d. split_and!; auto. }
  inv_bind H. destruct a as [[[[e len1] s1] buf1] w1].
  apply read_body_spec in Ha
    as (Hinv1 & (Hblk & Hmod & Hdes) & He & Hsz & Hfs & Hfds & Hq & Hbl & Hfr
        & (x & Hx & Hin) & Hm & Hok);
    [|done..].
  rewrite Hd in Hx. injection Hx as <-.
  assert (Hd1 : fd_file w1 (s_des s) = Some d) by (by rewrite (fd_file_ext w w1)).
  destruct e as [errn|].
  { destruct Hm as (Hc & -> & -> & ->). simpl in H. injection H as <- <- <- <-.
    split; [by apply stream_inv_errno|]. unfold same_handle.
    split_and!; auto; try lia.
    exists d. split_and!; auto.
    intros Q. specialize (Hok Q). discriminate. }
  destruct Hm as (Hc & -> & Hb & Hoff & Hbrk).
  apply IH in H
    as (Hinv' & (Hblk' & Hmod' & Hdes') & Hc' & He' & Hsz' & Hfs' & Hfds' & Hq' & Hbl'
        & Hstop & Hfr' & (x & Hx & Hr & Hok'));
    [|done|lia..].
  rewrite Hdes, Hd1 in Hx. injection Hx as <-.
  assert (Hstep : delivered brk (len + (s_cur s1 - s_cur s)) s1 d r s' buf' →
                  delivered brk len s d r s' buf').
  { intros (-> & Hcs & Hwin & Hcont). unfold delivered. split_and!; try lia.
    - intros _. destruct (Z.ltb_spec (s_cur s1) brk) as [L|G]; [by apply Hwin|].
      destruct (Hstop G) as (_ & -> & _). split; [done|lia].
    - intros k Hk. destruct (Z.ltb_spec (Z.of_nat k) (s_cur s1 - s_cur s)) as [L|G].
      + rewrite Hfr' by lia. by apply Hin.
      + replace (s_cur s + Z.of_nat k)
          with (s_cur s1 + Z.of_nat (Z.to_nat (Z.of_nat k - (s_cur s1 - s_cur s)))) by lia.
        rewrite <- Hcont by lia. f_equal. lia. }
  split; [done|]. unfold same_handle. split_and!; auto; try lia; try congruence.
  - intros i Hi. rewrite Hfr' by lia. apply Hfr. lia.
  - exists d. split_and!; auto.
    destruct Hr as [->|Hr]; [by left|right; by apply Hstep].
Qed.

Lemma read_loop_defined fuel : ∀ brk buf len s w,
  stream_inv s w → brk ≤ s_end s →
  (0 < fuel)%nat → brk - s_cur s < Z.of_nat fuel →
  brk + s_blk s ≤ LONG_MAX →
  0 ≤ len → len + (brk - s_cur s) ≤ Z.of_nat (length buf) →
  len + (brk - s_cur s) ≤ LONG_MAX →
  ∃ r, read_loop fuel brk buf len s w = Done r.
Proof.
  induction fuel as [|fuel IH]; intros brk buf len s w Hinv Hle Hpos Hf Ho Hlen Hbuf Hmax; [lia|].
  simpl. destruct (Z.ltb_spec (s_cur s) brk) as [Hlt|Hge]; [|eauto].
  pose proof (inv_cur _ _ Hinv) as Hc0. pose proof (inv_blk _ _ Hinv) as Hb0.
  destruct (align_bracket (s_cur s) (s_blk s)) as (H1 & H2 & H3); [lia..|].
  destruct (read_body_defined brk buf len s w) as [[[[[e len1] s1] buf1] w1] Hb]; auto; try lia.
  rewrite Hb. simpl.
  apply read_body_spec in Hb
    as (Hinv1 & (Hblk & Hmod & Hdes) & He & _ & _ & _ & _ & Hbl & _ & _ & Hm & _);
    [|done..].
  destruct e as [errn|]; [eauto|]. destruct Hm as (Hc & -> & _).
  apply IH; auto; try lia.
Qed.

(** ** stream_write *)

(** A well-typed, permitted request reaches the limit check. *)
Lemma stream_write_checks fuel s buf len w :
  0 ≤ len ≤ LONG_MAX → writable s →
  stream_write fuel (Some s) (Some buf) len w =
    if s_cur s >? LONG_MAX - len then Done (-1, Some s, set_errno EFBIG w)
    else brk ← long (s_cur s + len);
         '(r, s, w) ← write_loop fuel brk buf 0 s w;
         mret (r, Some s, w).
Proof.
  intros Hl Hw. unfold stream_write. destruct (Z.ltb_spec len 0); [lia|].
  unfold writable in Hw. rewrite Hw, Z.eqb_refl. simpl.
  rewrite (long_in (LONG_MAX - len)) by (unfold LONG_MIN, LONG_MAX in *; lia). reflexivity.
Qed.

Lemma stream_write_spec fuel s buf len w r s' w' :
  stream_inv s w →
  stream_write fuel (Some s) buf len w = Done (r, s', w') →
  ∃ s1, s' = Some s1 ∧ stream_inv s1 w' ∧ same_handle s s1 ∧
    s_cur s ≤ s_cur s1 ∧ s_end s ≤ s_end s1 ∧ s_siz s ≤ s_siz s1 ∧
    (quiet w → quiet w') ∧
    (r = -1 ∨
     ∃ b d', buf = Some b ∧ 0 ≤ len ∧ writable s ∧ s_cur s + len ≤ LONG_MAX ∧
             fd_file w' (s_des s) = Some d' ∧ written (s_cur s + len) b 0 s r s1 d').
Proof.
  intros Hinv H. pose proof (inv_cur _ _ Hinv) as Hc0.
  assert (Hfail : ∀ e, ∃ s1, Some s = Some s1 ∧ stream_inv s1 (set_errno e w) ∧
    same_handle s s1 ∧ s_cur s ≤ s_cur s1 ∧ s_end s ≤ s_end s1 ∧ s_siz s ≤ s_siz s1 ∧
    (quiet w → quiet (set_errno e w)) ∧
    (-1 = -1 ∨ ∃ b d', buf = Some b ∧ 0 ≤ len ∧ writable s ∧ s_cur s + len ≤ LONG_MAX ∧
       fd_file (set_errno e w) (s_des s) = Some d' ∧ written (s_cur s + len) b 0 s (-1) s1 d')).
  { intros e. exists s. unfold same_handle. split_and!; auto; try lia.
    by apply stream_inv_errno. }
  unfold stream_write in H.
  destruct buf as [b|]; [|injection H as <- <- <-; apply Hfail].
  destruct (Z.ltb_spec len 0); [injection H as <- <- <-; apply Hfail|].
  destruct (Z.eqb_spec (Z.land (s_mod s) PROT_WRITE) PROT_WRITE) as [Hp|];
    [|injection H as <- <- <-; apply Hfail]. simpl in H.
  inv_bind H. apply long_Done in Ha as [-> _].
  rewrite Z.gtb_ltb in H. destruct (Z.ltb_spec (LONG_MAX - len) (s_cur s));
    [injection H as <- <- <-; apply Hfail|].
  inv_bind H. apply long_Done in Ha as [-> _].
  inv_bind H. destruct a as [[r1 s1] w1]. injection H as <- <- <-.
  apply write_loop_spec in Ha
    as (Hinv1 & Hsame & Hc & He & Hs & Hq & _ & (d & d' & Hd & Hd' & _ & Hr & _)); [|done].
  exists s1. split_and!; auto.
  destruct Hr as [->|Hr]; [by left|right].
  exists b, d'. split_and!; auto. lia.
Qed.

(** Without failure of the system, and with a representable bound of the
    last window, the request is written in full. *)
Lemma stream_write_total fuel s b len w :
  stream_inv s w → writable s → quiet w →
  0 ≤ len → s_cur s + len + s_blk s ≤ LONG_MAX →
  len ≤ Z.of_nat (length b) → len < Z.of_nat fuel →
  ∃ s1 w1 d', stream_write fuel (Some s) (Some b) len w = Done (len, Some s1, w1) ∧
    stream_inv s1 w1 ∧ same_handle s s1 ∧ quiet w1 ∧
    s_cur s1 = s_cur s + len ∧ s_end s1 = Z.max (s_end s) (s_cur s + len) ∧
    fd_file w1 (s_des s) = Some d' ∧
    (∀ k : nat, Z.of_nat k < len →
       d' !! Z.to_nat (s_cur s + Z.of_nat k) = b !! k).
Proof.
  intros Hinv Hw Hq Hlen Ho Hb Hf.
  pose proof (inv_cur _ _ Hinv) as Hc0. pose proof (inv_blk _ _ Hinv) as Hb0.
  rewrite stream_write_checks by (done || lia).
  rewrite Z.gtb_ltb. destruct (Z.ltb_spec (LONG_MAX - len) (s_cur s)); [lia|].
  rewrite long_in by (unfold LONG_MIN; lia). simpl.
  destruct (write_loop_defined fuel (s_cur s + len) b 0 s w) as [[[r s1] w1] Hl];
    auto; try lia.
  rewrite Hl. simpl.
  apply write_loop_spec in Hl
    as (Hinv1 & Hsame & Hc & He & Hs & Hq1 & _ & (d & d' & Hd & Hd' & _ & _ & Hr)); [|done].
  destruct (Hr Hq) as (-> & Hcs & Hes & _ & Hcont).
  assert (s_cur s1 = s_cur s + len) as Hc1 by lia.
  exists s1, w1, d'. split_and!; auto.
  - do 3 f_equal. lia.
  - rewrite Hes, Hc1. done.
  - intros k Hk. rewrite Hcont by lia. f_equal. lia.
Qed.

(** ** stream_read *)

(** A well-typed, permitted request is clamped at the end of the stream. *)
Lemma stream_read_checks fuel s buf len w :
  stream_inv s w → 0 ≤ len ≤ LONG_MAX → readable s →
  stream_read fuel (Some s) (Some buf) len w =
    '(r, s, buf, w) ← read_loop fuel (s_cur s + Z.min len (s_end s - s_cur s)) buf 0 s w;
    mret (r, Some s, Some buf, w).
Proof.
  intros Hinv Hl Hr. unfold stream_read.
  pose proof (inv_cur _ _ Hinv) as Hc. pose proof (inv_end _ _ Hinv) as He.
  destruct (Z.ltb_spec len 0); [lia|].
  unfold readable in Hr. rewrite Hr, Z.eqb_refl. simpl.
  rewrite (long_in (s_end s - len)) by (unfold LONG_MIN, LONG_MAX in *; lia). simpl.
  rewrite Z.gtb_ltb. destruct (Z.ltb_spec (s_end s - len) (s_cur s)).
  - rewrite (long_in (s_end s - s_cur s)) by (unfold LONG_MIN, LONG_MAX in *; lia). simpl.
    rewrite (long_in (s_cur s + _)) by (unfold LONG_MIN, LONG_MAX in *; lia). simpl.
    by rewrite Z.min_r by lia.
  - simpl. rewrite (long_in (s_cur s + len)) by (unfold LONG_MIN, LONG_MAX in *; lia). simpl.
    by rewrite Z.min_l by lia.
Qed.

Lemma stream_read_spec fuel s buf len w r s' buf' w' :
  stream_inv s w →
  stream_read fuel (Some s) buf len w = Done (r, s', buf', w') →
  ∃ s1, s' = Some s1 ∧ stream_inv s1 w' ∧ same_handle s s1 ∧
    s_cur s ≤ s_cur s1 ∧ s_end s1 = s_end s ∧ s_siz s1 = s_siz s ∧
    w_fs w' = w_fs w ∧ w_fds w' = w_fds w ∧ (quiet w → quiet w') ∧
    (r = -1 ∨
     ∃ b b' d, buf = Some b ∧ buf' = Some b' ∧ fd_file w (s_des s) = Some d ∧
       0 ≤ len ∧ readable s ∧
       delivered (s_cur s + Z.min len (s_end s - s_cur s)) 0 s d r s1 b').
Proof.
  intros Hinv H. pose proof (inv_cur _ _ Hinv) as Hc0. pose proof (inv_end _ _ Hinv) as He0.
  assert (Hfail : ∀ e, ∃ s1, Some s = Some s1 ∧ stream_inv s1 (set_errno e w) ∧
    same_handle s s1 ∧ s_cur s ≤ s_cur s1 ∧ s_end s1 = s_end s ∧ s_siz s1 = s_siz s ∧
    w_fs (set_errno e w) = w_fs w ∧ w_fds (set_errno e w) = w_fds w ∧
    (quiet w → quiet (set_errno e w)) ∧
    (-1 = -1 ∨ ∃ b b' d, buf = Some b ∧ buf = Some b' ∧ fd_file w (s_des s) = Some d ∧
       0 ≤ len ∧ readable s ∧
       delivered (s_cur s + Z.min len (s_end s - s_cur s)) 0 s d (-1) s1 b')).
  { intros e. exists s. unfold same_handle. split_and!; auto; try lia.
    by apply stream_inv_errno. }
  unfold stream_read in H.
  destruct buf as [b|]; [|injection H as <- <- <- <-; apply Hfail].
  destruct (Z.ltb_spec len 0); [injection H as <- <- <- <-; apply Hfail|].
  destruct (Z.eqb_spec (Z.land (s_mod s) PROT_READ) PROT_READ) as [Hp|];
    [|injection H as <- <- <- <-; apply Hfail]. simpl in H.
  inv_bind H. apply long_Done in Ha as [-> _].
  inv_bind H.
  assert (a = Z.min len (s_end s - s_cur s)) as ->.
  { rewrite Z.gtb_ltb in Ha. destruct (Z.ltb_spec (s_end s - len) (s_cur s)).
    - apply long_Done in Ha as [-> _]. lia.
    - injection Ha as <-. lia. }
  inv_bind H. apply long_Done in Ha0 as [-> _].
  inv_bind H. destruct a as [[[r1 s1] b1] w1]. injection H as <- <- <- <-.
  apply read_loop_spec in Ha0
    as (Hinv1 & Hsame & Hc & He & Hs & Hfs & Hfds & Hq & Hbl & _ & _ & (d & Hd & Hr & _));
    [|done|lia..].
  exists s1. split_and!; auto.
  destruct Hr as [->|Hr]; [by left|right].
  exists b, b1, d. split_and!; auto.
Qed.

(** Without failure of the system, and with a representable bound of the
    last window, the read delivers the bytes of the file from the cursor
    to the end of the request or of the stream. *)
Lemma stream_read_total fuel s b len w :
  stream_inv s w → readable s → quiet w →
  0 ≤ len ≤ LONG_MAX →
  s_cur s + Z.min len (s_end s - s_cur s) + s_blk s ≤ LONG_MAX →
  Z.min len (s_end s - s_cur s) ≤ Z.of_nat (length b) →
  Z.min len (s_end s - s_cur s) < Z.of_nat fuel →
  ∃ s1 b' w1 d,
    stream_read fuel (Some s) (Some b) len w =
      Done (Z.min len (s_end s - s_cur s), Some s1, Some b', w1) ∧
    stream_inv s1 w1 ∧ same_handle s s1 ∧ quiet w1 ∧
    s_cur s1 = s_cur s + Z.min len (s_end s - s_cur s) ∧
    s_end s1 = s_end s ∧ s_siz s1 = s_siz s ∧
    w_fs w1 = w_fs w ∧ w_fds w1 = w_fds w ∧
    fd_file w (s_des s) = Some d ∧ length b' = length b ∧
    (∀ k : nat, Z.of_nat k < Z.min len (s_end s - s_cur s) →
       b' !! k = d !! Z.to_nat (s_cur s + Z.of_nat k)) ∧
    (∀ i : nat, Z.min len (s_end s - s_cur s) ≤ Z.of_nat i → b' !! i = b !! i).
Proof.
  intros Hinv Hr Hq Hlen Ho Hb Hf.
  pose proof (inv_cur _ _ Hinv) as Hc0. pose proof (inv_end _ _ Hinv) as He0.
  pose proof (inv_blk _ _ Hinv) as Hb0.
  rewrite stream_read_checks by done.
  set (n := Z.min len (s_end s - s_cur s)) in *.
  destruct (read_loop_defined fuel (s_cur s + n) b 0 s w) as [[[[r s1] b1] w1] Hl];
    auto; try lia.
  rewrite Hl. simpl.
  apply read_loop_spec in Hl
    as (Hinv1 & Hsame & Hc & He & Hs & Hfs & Hfds & Hq1 & Hbl & _ & Hfr & (d & Hd & _ & Hok));
    [|done|lia..].
  destruct (Hok Hq) as (-> & Hcs & _ & Hcont).
  assert (s_cur s1 = s_cur s + n) as Hc1 by lia.
  exists s1, b1, w1, d. split_and!; auto.
  - do 4 f_equal. lia.
  - intros k Hk. rewrite <- Hcont by lia. f_equal. lia.
  - intros i Hi. apply Hfr. lia.
Qed.

(** ** stream_seek *)

Lemma set_cur_same s : set_cur (s_cur s) s = s.
Proof. by destruct s. Qed.

Lemma stream_seek_spec s p w :
  stream_inv s w → LONG_MIN ≤ p ≤ LONG_MAX →
  stream_seek (Some s) p w =
    let q := if p <? 0 then p + s_end s else p in
    if (0 <=? q) && (q <=? s_end s) then Done (q, Some (set_cur q s), w)
    else Done (-1, Some s, set_errno ERANGE w).
Proof.
  intros Hinv Hp. pose proof (inv_cur _ _ Hinv) as Hc. pose proof (inv_end _ _ Hinv) as He.
  unfold stream_seek. destruct (Z.eqb_spec (s_cur s) p) as [<-|Hne]; simpl.
  - destruct (Z.ltb_spec (s_cur s) 0); [lia|].
    destruct (Z.leb_spec 0 (s_cur s)), (Z.leb_spec (s_cur s) (s_end s)); try lia.
    simpl. by rewrite set_cur_same.
  - destruct (Z.ltb_spec p 0).
    + rewrite long_in by (unfold LONG_MIN, LONG_MAX in *; lia). simpl.
      rewrite Z.gtb_ltb.
      destruct (Z.ltb_spec (p + s_end s) 0), (Z.ltb_spec (s_end s) (p + s_end s)),
        (Z.leb_spec 0 (p + s_end s)), (Z.leb_spec (p + s_end s) (s_end s)); simpl; try lia; done.
    + simpl. rewrite Z.gtb_ltb.
      destruct (Z.ltb_spec p 0), (Z.ltb_spec (s_end s) p),
        (Z.leb_spec 0 p), (Z.leb_spec p (s_end s)); simpl; try lia; done.
Qed.

Lemma stream_inv_set_cur s w q :
  stream_inv s w → 0 ≤ q ≤ s_end s → stream_inv (set_cur q s) w.
Proof. intros [? ? ? ? ?] Hq. split; simpl; auto. Qed.

Lemma stream_seek_inv s p w r s' w' :
  stream_inv s w → LONG_MIN ≤ p ≤ LONG_MAX →
  stream_seek (Some s) p w = Done (r, s', w') →
  ∃ s1, s' = Some s1 ∧ stream_inv s1 w' ∧ same_handle s s1 ∧
        s_buf s1 = s_buf s ∧ s_off s1 = s_off s ∧ s_len s1 = s_len s ∧
        s_brk s1 = s_brk s ∧ s_end s1 = s_end s ∧ s_siz s1 = s_siz s.
Proof.
  intros Hinv Hp H. rewrite stream_seek_spec in H by done. simpl in H.
  set (q := if p <? 0 then p + s_end s else p) in *.
  destruct (Z.leb_spec 0 q), (Z.leb_spec q (s_end s)); simpl in H;
    injection H as <- <- <-; eexists; (split; [reflexivity|]);
    unfold same_handle; split_and!; auto;
    (by apply stream_inv_set_cur) || (by apply stream_inv_errno).
Qed.

(** ** stream_sync *)

Lemma stream_sync_spec s w :
  ∃ r w', stream_sync (Some s) w = (r, Some s, w') ∧
          w_fs w' = w_fs w ∧ w_fds w' = w_fds w ∧ (quiet w → quiet w' ∧ r = 0) ∧
          (s_buf s = None → r = 0 ∧ w' = w) ∧
          (r = 0 ∨ (r = -1 ∧ ¬ quiet w)).
Proof.
  unfold stream_sync, sys_msync. destruct (s_buf s) as [m|].
  - destruct (fault w) as [o w1] eqn:Hf.
    apply fault_inv in Hf as (Hfs & Hfds & _ & Hq).
    destruct o as [e|]; simpl.
    + do 2 eexists. split_and!; eauto; try done.
      * intros Q. by destruct (Hq Q).
      * right. split; [done|]. intros Q. by destruct (Hq Q).
    + do 2 eexists. split_and!; eauto; try done.
      intros Q. by destruct (Hq Q).
  - do 2 eexists. split_and!; eauto.
Qed.

Lemma stream_sync_inv s w r s' w' :
  stream_inv s w → stream_sync (Some s) w = (r, s', w') →
  s' = Some s ∧ stream_inv s w'.
Proof.
  intros [? ? ? (d & Hd & Hl) ?] H.
  destruct (stream_sync_spec s w) as (r1 & w1 & E & Hfs & Hfds & _).
  rewrite E in H. injection H as <- <- <-. split; [done|].
  split; auto. exists d. by rewrite (fd_file_ext w w1).
Qed.

(** ** stream_open *)

Lemma fault_params w o w1 :
  fault w = (o, w1) →
  w_pagesize w1 = w_pagesize w ∧ w_blksize w1 = w_blksize w.
Proof.
  unfold fault. destruct (w_faults w); intros [= <- <-]; by split.
Qed.

Lemma sys_open_spec path oflg w fd w' :
  sys_open path oflg w = (fd, w') →
  w_pagesize w' = w_pagesize w ∧ w_blksize w' = w_blksize w ∧
  (fd = -1 ∨ (w_fds w' !! fd = Some path ∧ is_Some (w_fs w' !! path))).
Proof.
  unfold sys_open. destruct (fault w) as [o w1] eqn:Hf.
  apply fault_params in Hf as [Hp Hb].
  destruct o as [e|]; [intros [= <- <-]; by split_and!; auto|].
  destruct (w_fs w1 !! path) as [data|].
  - intros [= <- <-]. simpl. split_and!; auto. right.
    rewrite !lookup_insert_eq. eauto.
  - destruct (negb _).
    + intros [= <- <-]. simpl. split_and!; auto. right.
      rewrite !lookup_insert_eq. eauto.
    + intros [= <- <-]. by split_and!; auto.
Qed.

Lemma sys_fstat_spec fd w rc inf w' :
  sys_fstat fd w = (rc, inf, w') →
  w_fs w' = w_fs w ∧ w_fds w' = w_fds w ∧
  (rc = 0 → ∃ data, fd_file w fd = Some data ∧
                    st_size inf = Z.of_nat (length data) ∧
                    st_blksize inf = w_blksize w).
Proof.
  unfold sys_fstat. destruct (fault w) as [o w1] eqn:Hf.
  pose proof (fault_params _ _ _ Hf) as [Hp Hb].
  apply fault_inv in Hf as (Hfs & Hfds & _ & _).
  rewrite (fd_file_ext w w1) by done.
  destruct o as [e|]; [intros [= <- <- <-]; by split_and!; auto|].
  destruct (fd_file w fd) as [data|]; intros [= <- <- <-]; simpl; split_and!; auto.
  - intros _. by exists data.
  - discriminate.
Qed.

Lemma sys_malloc_spec w ok w' :
  sys_malloc w = (ok, w') → w_fs w' = w_fs w ∧ w_fds w' = w_fds w.
Proof.
  unfold sys_malloc. destruct (fault w) as [o w1] eqn:Hf.
  apply fault_inv in Hf as (Hfs & Hfds & _ & _).
  destruct o; intros [= <- <-]; by split.
Qed.

Lemma choose_blk_spec page pref :
  1 ≤ page →
  (choose_blk page pref = pref ∧ pref < LONG_MAX ∧ clean_multiple page pref) ∨
  (choose_blk page pref = page ∧ (pref < LONG_MAX → ¬ clean_multiple page pref)).
Proof.
  intros Hp. unfold choose_blk, clean_multiple.
  destruct (Z.ltb_spec pref LONG_MAX) as [Hl|Hl]; [|right; split; [done|lia]].
  rewrite !Z.gtb_ltb.
  destruct (Z.ltb_spec page pref) as [Hg|Hg].
  2:{ right. split; [done|]. intros _ (k & Hk & ->). nia. }
  rewrite Z.quot_div_nonneg, Z.rem_mod_nonneg by lia.
  destruct (Z.eqb_spec (pref mod page) 0) as [Hr|Hr]; simpl.
  - apply Z.div_exact in Hr; [|lia].
    destruct (Z.ltb_spec 1 (pref / page)) as [Hq|Hq].
    + left. split_and!; auto. exists (pref / page). split; [done|lia].
    + right. split; [done|]. intros _ (k & Hk & E). nia.
  - right. split; [done|]. intros _ (k & Hk & ->).
    apply Hr. apply Z.mod_mul. lia.
Qed.

Lemma choose_blk_ge page pref : 1 ≤ page → page ≤ choose_blk page pref.
Proof.
  intros Hp. destruct (choose_blk_spec page pref Hp) as [(-> & _ & k & Hk & ->)|[-> _]]; nia.
Qed.

Lemma stream_open_spec path mode w s w' :
  stream_open path mode w = (Some s, w') →
  stream_inv s w' ∧ s_buf s = None ∧ s_cur s = 0 ∧ s_end s = s_siz s ∧
  1 ≤ w_pagesize w ∧ s_blk s = choose_blk (w_pagesize w) (w_blksize w).
Proof.
  unfold stream_open, open_failure. destruct path as [path|]; [|discriminate].
  destruct (_ && _); [discriminate|]. unfold sys_pagesize. simpl.
  destruct (Z.ltb_spec (w_pagesize w) 1) as [|Hpage]; [discriminate|].
  set (oflg := if is_char (mode_char mode 1) "+" then _ else _). clearbody oflg.
  destruct (sys_open path oflg w) as [fd w1] eqn:Ho. simpl.
  apply sys_open_spec in Ho as (Hp1 & Hb1 & Hfd).
  destruct (Z.ltb_spec fd 0) as [|Hfd0]; [discriminate|].
  destruct Hfd as [->|[Hfds [data Hfs]]]; [lia|].
  match goal with |- context [sys_fstat (s_des ?x) _] => set (strm := x) end.
  assert (Hs : s_des strm = fd ∧ s_blk strm = w_pagesize w ∧ s_buf strm = None ∧
               s_cur strm = 0).
  { unfold strm. destruct (_ =? _); [done|]. by destruct (_ =? _). }
  clearbody strm. destruct Hs as (Hdes & Hblk & Hbuf & Hcur).
  destruct (sys_fstat (s_des strm) w1) as [[rc inf] w2] eqn:Hst.
  apply sys_fstat_spec in Hst as (Hfs2 & Hfds2 & Hinf).
  destruct (Z.eqb_spec rc 0) as [->|]; [|discriminate]. simpl.
  destruct (Hinf eq_refl) as (data' & Hd & Hsize & Hbsz).
  rewrite Z.gtb_ltb. destruct (Z.ltb_spec LONG_MAX (st_size inf)); [discriminate|].
  destruct (sys_malloc w2) as [ok w3] eqn:Hm.
  apply sys_malloc_spec in Hm as (Hfs3 & Hfds3).
  destruct ok; [|discriminate]. simpl. intros [= <- <-]. simpl.
  rewrite Hblk, Hbsz, Hb1. split_and!; auto.
  split; simpl; auto; try lia.
  - pose proof (choose_blk_ge (w_pagesize w) (w_blksize w) Hpage). lia.
  - exists data'. split; [|lia].
    rewrite (fd_file_ext w2 w3), (fd_file_ext w1 w2) by done. done.
  - unfold window_ok. simpl. by rewrite Hbuf.
Qed.

(** ** Where an error code comes from *)

Lemma later_refl w : later w w.
Proof. by intros e. Qed.

Lemma later_trans w1 w2 w3 : later w1 w2 → later w2 w3 → later w1 w3.
Proof. intros H1 H2 e H. by apply H1, H2. Qed.

Lemma later_errno e w w' : later w w' → later w (set_errno e w').
Proof. done. Qed.

Lemma fault_later w o w1 :
  fault w = (o, w1) → later w w1 ∧ (∀ e, o = Some e → reports e w).
Proof.
  unfold fault, later, reports. destruct (w_faults w) as [|o' l] eqn:E.
  - intros [= <- <-]. rewrite E. split; [done|]. discriminate.
  - intros [= <- <-]. simpl. split.
    + intros e He. by apply list_elem_of_further.
    + intros e ->. apply list_elem_of_here.
Qed.

Lemma sys_ftruncate_later fd n w rc w' :
  sys_ftruncate fd n w = (rc, w') →
  later w w' ∧ (rc ≠ 0 → reports (w_errno w') w ∨ os_code (w_errno w')).
Proof.
  unfold sys_ftruncate, os_code. destruct (fault w) as [o w1] eqn:Hf.
  apply fault_later in Hf as [Hl Ho].
  destruct o as [e|]; [intros [= <- <-]; split; [done|]; left; by apply Ho|].
  destruct (fd_file w1 fd); [|intros [= <- <-]; split; [done|]; right; by left].
  destruct (n <? 0); intros [= <- <-].
  - split; [done|]. right. right. by left.
  - split; [|done]. intros e. unfold reports. rewrite fd_set_file_faults. apply Hl.
Qed.

Lemma map_window_later s w e s' w' :
  map_window s w = (e, s', w') →
  later w w' ∧ (∀ errn, e = Some errn → reports errn w ∨ os_code errn).
Proof.
  unfold map_window, sys_mmap, os_code. destruct (fault w) as [o w1] eqn:Hf.
  apply fault_later in Hf as [Hl Ho].
  destruct o as [c|].
  { intros [= <- <- <-]. split; [done|]. intros errn [= <-]. left. by apply Ho. }
  destruct (fd_file w1 (s_des s)).
  2:{ intros [= <- <- <-]. split; [done|]. intros errn [= <-]. right. by left. }
  destruct (s_len s =? 0).
  { intros [= <- <- <-]. split; [done|]. intros errn [= <-]. right. right. by left. }
  destruct (s_len s <? 0).
  { intros [= <- <- <-]. split; [done|]. intros errn [= <-]. right. right. by right. }
  intros [= <- <- <-]. split; [done|]. discriminate.
Qed.

Lemma write_fault_later s w e s' w' :
  write_fault s w = Done (e, s', w') →
  later w w' ∧ (∀ errn, e = Some errn → reports errn w ∨ os_code errn).
Proof.
  unfold write_fault. rewrite release_eq. intros H.
  inv_bind H. destruct (_ >? _).
  - destruct (sys_ftruncate _ _ w) as [rc w1] eqn:Ht.
    apply sys_ftruncate_later in Ht as [Hl Hrc].
    destruct (Z.eqb_spec rc 0) as [->|Hne]; simpl in H.
    + destruct (map_window _ w1) as [[e1 s1] w2] eqn:Hm. injection H as <- <- <-.
      apply map_window_later in Hm as [Hl2 He].
      split; [by eapply later_trans|].
      intros errn E. destruct (He errn E); [left; by apply Hl|by right].
    + injection H as <- <- <-. split; [done|]. intros errn [= <-]. by apply Hrc.
  - simpl in H. destruct (map_window _ w) as [[e1 s1] w2] eqn:Hm. injection H as <- <- <-.
    by apply map_window_later in Hm.
Qed.

Lemma copy_out_faults n : ∀ src si m di w w',
  copy_out n src si m di w = Done w' → w_faults w' = w_faults w.
Proof.
  induction n as [|n IH]; intros src si m di w w' H; simpl in H; [by injection H as <-|].
  inv_bind H. inv_bind H. apply IH in H. rewrite H.
  unfold map_store in Ha0. destruct (_ && _); [|discriminate].
  destruct (fd_file w (m_des m)); [|discriminate].
  destruct (_ <? _); [|discriminate]. injection Ha0 as <-. apply fd_set_file_faults.
Qed.

Lemma write_body_later brk buf len s w e len' s' w' :
  write_body brk buf len s w = Done (e, len', s', w') →
  later w w' ∧ (∀ errn, e = Some errn → reports errn w ∨ os_code errn).
Proof.
  unfold write_body. intros H. inv_bind H. destruct a as [[e1 s1] w1].
  assert (later w w1 ∧ (∀ errn, e1 = Some errn → reports errn w ∨ os_code errn)) as [Hl He].
  { destruct (stale s); [by eapply write_fault_later|].
    injection Ha as <- <- <-. split; [apply later_refl|discriminate]. }
  destruct e1 as [errn|]; [injection H as <- <- <- <-; by split|].
  destruct (s_buf s1) as [m|]; [|discriminate].
  inv_bind H. inv_bind H. inv_bind H. apply copy_out_faults in Ha2.
  inv_bind H. inv_bind H. injection H as <- <- <- <-.
  split; [|discriminate]. intros e. unfold reports. rewrite Ha2. apply Hl.
Qed.

(** A failing write reports a code of the system. *)
Lemma write_loop_later fuel : ∀ brk buf len s w r s' w',
  stream_inv s w → 0 ≤ len →
  write_loop fuel brk buf len s w = Done (r, s', w') →
  later w w' ∧ (r = -1 → reports (w_errno w') w ∨ os_code (w_errno w')).
Proof.
  induction fuel as [|fuel IH]; intros brk buf len s w r s' w' Hinv Hlen H; [discriminate|].
  simpl in H. destruct (Z.ltb_spec (s_cur s) brk) as [Hlt|Hge].
  2:{ injection H as <- <- <-. split; [apply later_refl|lia]. }
  inv_bind H. destruct a as [[[e len1] s1] w1].
  pose proof (write_body_later _ _ _ _ _ _ _ _ _ Ha) as [Hl He].
  apply write_body_spec in Ha as (Hinv1 & _ & _ & _ & _ & _ & Hm & _); [|done..].
  destruct e as [errn|].
  { injection H as <- <- <-. split; [done|]. intros _. simpl. by apply He. }
  destruct Hm as (Hc & -> & _).
  apply IH in H as [Hl' Hr]; [|done|lia].
  split; [by eapply later_trans|].
  intros E. destruct (Hr E); [left; by apply Hl|by right].
Qed.

(** ** Descriptors *)

Lemma lowest_free_ge fds n : ∀ fd, fd ≤ lowest_free fds n fd.
Proof.
  induction n as [|n IH]; intros fd; simpl; [lia|].
  destruct (fds !! fd); [|lia]. specialize (IH (fd + 1)). lia.
Qed.

(** Among [n + 1] consecutive numbers one is not a key of a table that
    has at most [n] keys from [fd] on. *)
Lemma lowest_free_fresh_in (fds : gmap Z string) n : ∀ fd (X : gset Z),
  (∀ k, fd ≤ k → is_Some (fds !! k) → k ∈ X) → (size X ≤ n)%nat →
  fds !! lowest_free fds n fd = None.
Proof.
  induction n as [|n IH]; intros fd X HX Hn; simpl.
  - destruct (fds !! fd) eqn:E; [|done].
    assert (fd ∈ X) as Hin by (apply HX; [lia|eauto]).
    assert (X ≡ ∅) as HE by (apply size_empty_inv; lia). set_solver.
  - destruct (fds !! fd) eqn:E; [|done].
    apply (IH (fd + 1) (X ∖ {[fd]})).
    + intros k Hk Hs. apply elem_of_difference. split; [apply HX; [lia|done]|].
      rewrite elem_of_singleton. lia.
    + assert (fd ∈ X) as Hin by (apply HX; [lia|eauto]).
      assert (0 < size X)%nat.
      { apply Nat.neq_0_lt_0. intros H0. apply size_empty_inv in H0. set_solver. }
      rewrite size_difference by set_solver. rewrite size_singleton. lia.
Qed.

Lemma lowest_free_fresh (fds : gmap Z string) :
  fds !! lowest_free fds (size fds) 0 = None.
Proof.
  apply (lowest_free_fresh_in fds (size fds) 0 (dom fds)).
  - intros k _ Hk. by apply elem_of_dom.
  - by rewrite size_dom.
Qed.

(** ** The system calls of [stream_open], in full *)

Lemma sys_open_effect path oflg w fd w' :
  sys_open path oflg w = (fd, w') →
  (quiet w → quiet w') ∧
  ((fd = -1 ∧ w_fs w' = w_fs w ∧ w_fds w' = w_fds w ∧
    (quiet w → w_fs w !! path = None ∧ Z.land oflg O_CREAT = 0 ∧ w_errno w' = ENOENT)) ∨
   (0 ≤ fd ∧ w_fds w !! fd = None ∧ w_fds w' = <[fd := path]> (w_fds w) ∧
    w_fs w' = <[path := match w_fs w !! path with
                        | Some data => if negb (Z.land oflg O_TRUNC =? 0) then [] else data
                        | None => []
                        end]> (w_fs w) ∧
    (w_fs w !! path = None → Z.land oflg O_CREAT ≠ 0))).
Proof.
  unfold sys_open. destruct (fault w) as [o w1] eqn:Hf.
  apply fault_inv in Hf as (Hfs & Hfds & _ & Hq).
  destruct o as [e|].
  { intros [= <- <-]. split; [intros Q; by destruct (Hq Q)|]. left. simpl.
    split_and!; auto. intros Q. by destruct (Hq Q). }
  rewrite Hfs, Hfds.
  pose proof (lowest_free_fresh (w_fds w)) as Hfresh.
  pose proof (lowest_free_ge (w_fds w) (size (w_fds w)) 0) as Hge.
  destruct (w_fs w !! path) as [data|] eqn:Hp.
  - intros [= <- <-]. simpl. split; [intros Q; by destruct (Hq Q)|]. right.
    rewrite ?Hfs, ?Hfds. split_and!; auto.
  - destruct (Z.eqb_spec (Z.land oflg O_CREAT) 0) as [E|E]; simpl.
    + intros [= <- <-]. split; [intros Q; by destruct (Hq Q)|]. left. simpl.
      split_and!; auto.
    + intros [= <- <-]. simpl. split; [intros Q; by destruct (Hq Q)|]. right.
      rewrite ?Hfs, ?Hfds. split_and!; auto.
Qed.

Lemma sys_fstat_quiet fd w rc inf w' :
  sys_fstat fd w = (rc, inf, w') →
  (quiet w → quiet w' ∧ (is_Some (fd_file w fd) → rc = 0)).
Proof.
  unfold sys_fstat. destruct (fault w) as [o w1] eqn:Hf.
  apply fault_inv in Hf as (Hfs & Hfds & _ & Hq).
  rewrite (fd_file_ext w w1) by done.
  intros H Q. destruct (Hq Q) as [-> Q1].
  destruct (fd_file w fd); injection H as <- <- <-; split; auto.
  by intros [? ?].
Qed.

Lemma sys_malloc_quiet w ok w' :
  sys_malloc w = (ok, w') → quiet w → quiet w' ∧ ok = true.
Proof.
  unfold sys_malloc. destruct (fault w) as [o w1] eqn:Hf.
  apply fault_inv in Hf as (_ & _ & _ & Hq).
  intros H Q. destruct (Hq Q) as [-> Q1]. by injection H as <- <-.
Qed.

(** The flags [stream_open] passes to [open]. *)
Lemma open_flags (plus wr : bool) :
  let oflg := if plus
              then (if wr then Z.lor (Z.lor O_RDWR O_CREAT) O_TRUNC else O_RDWR)
              else (if wr then Z.lor (Z.lor O_WRONLY O_CREAT) O_TRUNC else O_RDONLY) in
  (Z.land oflg O_CREAT =? 0) = negb wr ∧ (Z.land oflg O_TRUNC =? 0) = negb wr ∧
  (if Z.land oflg O_ACCMODE =? O_RDONLY then PROT_READ
   else if Z.land oflg O_ACCMODE =? O_WRONLY then PROT_WRITE
   else Z.lor PROT_READ PROT_WRITE)
  = (if plus then Z.lor PROT_READ PROT_WRITE else if wr then PROT_WRITE else PROT_READ).
Proof. by destruct plus, wr. Qed.

(** Closing the descriptor just opened restores the table. *)
Lemma delete_fresh (fds : gmap Z string) fd path :
  fds !! fd = None → delete fd (<[fd := path]> fds) = fds.
Proof. intros H. by rewrite delete_insert_eq, delete_id. Qed.

(** ** [stream_open], every way out *)

Lemma is_char_true c d : is_char c d = true → c = d.
Proof. unfold is_char. by intros ?%bool_decide_eq_true. Qed.

(** What a successful [open] with the flags of [stream_open] has done to
    the files: a mode in [w] leaves an empty file, a mode in [r] leaves
    the file that was there. *)
Lemma open_files path (plus wr : bool) w fd w1 :
  sys_open path
    (if plus then (if wr then Z.lor (Z.lor O_RDWR O_CREAT) O_TRUNC else O_RDWR)
     else (if wr then Z.lor (Z.lor O_WRONLY O_CREAT) O_TRUNC else O_RDONLY)) w
    = (fd, w1) →
  0 ≤ fd →
  w_fds w !! fd = None ∧ w_fds w1 = <[fd := path]> (w_fds w) ∧
  if wr then w_fs w1 = <[path := []]> (w_fs w)
  else w_fs w1 = w_fs w ∧ is_Some (w_fs w !! path).
Proof.
  intros H Hfd. apply sys_open_effect in H as (_ & [(-> & _)|(_ & Hfresh & Hfds & Hfs & Hc)]);
    [lia|].
  split; [done|]. split; [done|].
  destruct (w_fs w !! path) as [data|] eqn:Hp.
  - destruct wr.
    + rewrite Hfs. by destruct plus.
    + split; [|eauto]. rewrite Hfs.
      replace (negb _) with false by (by destruct plus). simpl. by apply insert_id.
  - destruct wr; [done|]. exfalso. apply Hc; [done|]. by destruct plus.
Qed.

Lemma stream_open_effect path mode w r w' :
  stream_open (Some path) mode w = (r, w') →
  (quiet w → quiet w') ∧
  match r with
  | None =>
    w_fds w' = w_fds w ∧
    (w_fs w' = w_fs w ∨
     (mode_char mode 0 = "w"%char ∧ w_fs w' = <[path := []]> (w_fs w))) ∧
    (quiet w →
     (mode_char mode 0 ≠ "r"%char ∧ mode_char mode 0 ≠ "w"%char ∧ w' = set_errno EINVAL w) ∨
     (w_pagesize w < 1 ∧ w' = set_errno ENOTSUP w) ∨
     (mode_char mode 0 = "r"%char ∧ w_fs w !! path = None ∧ w_errno w' = ENOENT) ∨
     (mode_char mode 0 = "r"%char ∧ w_errno w' = EFBIG ∧
      ∃ data, w_fs w !! path = Some data ∧ LONG_MAX < Z.of_nat (length data)))
  | Some s =>
    0 ≤ s_des s ∧ w_fds w !! s_des s = None ∧
    w_fds w' = <[s_des s := path]> (w_fds w) ∧
    s_mod s = mode_prot mode ∧
    s_off s = 0 ∧ s_len s = 0 ∧ s_brk s = 0 ∧
    ((mode_char mode 0 = "w"%char ∧ w_fs w' = <[path := []]> (w_fs w) ∧ s_end s = 0) ∨
     (mode_char mode 0 = "r"%char ∧ w_fs w' = w_fs w ∧
      ∃ data, w_fs w !! path = Some data ∧ s_end s = Z.of_nat (length data)))
  end.
Proof.
  unfold stream_open, open_failure, mode_prot.
  set (br := is_char (mode_char mode 0) "r").
  set (wr := is_char (mode_char mode 0) "w").
  set (plus := is_char (mode_char mode 1) "+").
  destruct (negb br && negb wr) eqn:Hbad.
  { intros [= <- <-]. split_and!; auto. intros _. left.
    apply andb_true_iff in Hbad as [H1 H2]. unfold br, wr, is_char in *.
    split_and!; [| |done]; intros E; rewrite E in *; done. }
  assert (Hmode : if wr then mode_char mode 0 = "w"%char else mode_char mode 0 = "r"%char).
  { destruct wr eqn:Hw; [by apply is_char_true|].
    destruct br eqn:Hr; [by apply is_char_true|done]. }
  unfold sys_pagesize. simpl.
  destruct (Z.ltb_spec (w_pagesize w) 1) as [|Hpage];
    [intros [= <- <-]; by split_and!; auto|].
  match goal with
  | |- context [sys_open path ?f w] => destruct (sys_open path f w) as [fd w1] eqn:Ho
  end; simpl.
  pose proof (sys_open_effect _ _ _ _ _ Ho) as [Hq1 Hcase].
  destruct (Z.ltb_spec fd 0) as [Hneg|Hfd0].
  { destruct Hcase as [(-> & Hfs & Hfds & Hno)|(? & _)]; [|lia].
    simpl. intros [= <- <-]. simpl. split_and!; auto.
    intros Q. destruct (Hno Q) as (Hnone & Hc & He). right. right. left.
    split_and!; auto. destruct wr; [|done]. by destruct plus. }
  clear Hcase. apply (open_files path plus wr) in Ho as (Hfresh & Hfds1 & Hfs1); [|done].
  match goal with |- context [sys_fstat (s_des ?x) _] => set (strm := x) end.
  assert (Hs : s_des strm = fd ∧ s_off strm = 0 ∧ s_len strm = 0 ∧ s_brk strm = 0 ∧
               s_mod strm = if plus then Z.lor PROT_READ PROT_WRITE
                            else if wr then PROT_WRITE else PROT_READ).
  { unfold strm. by destruct plus, wr. }
  clearbody strm. destruct Hs as (Hdes & Hoff & Hlen & Hbrk & Hmod).
  assert (Hfile : ∃ data, fd_file w1 fd = Some data ∧
                    if wr then data = [] else w_fs w !! path = Some data).
  { unfold fd_file. rewrite Hfds1, lookup_insert_eq. simpl. destruct wr.
    - rewrite Hfs1, lookup_insert_eq. eauto.
    - destruct Hfs1 as [-> [data Hdata]]. eauto. }
  destruct Hfile as (data0 & Hd0 & Hdata0).
  destruct (sys_fstat (s_des strm) w1) as [[rc inf] w2] eqn:Hst.
  pose proof (sys_fstat_quiet _ _ _ _ _ Hst) as Hq2.
  apply sys_fstat_spec in Hst as (Hfs2 & Hfds2 & Hinf).
  rewrite Hdes in Hq2, Hinf.
  assert (Hfail : ∀ e w3, w_fs w3 = w_fs w2 → w_fds w3 = w_fds w2 → (quiet w → quiet w3) →
    let w4 := set_errno e (if s_des strm >=? 0 then sys_close (s_des strm) w3 else w3) in
    (quiet w → quiet w4) ∧ w_fds w4 = w_fds w ∧
    (w_fs w4 = w_fs w ∨ (mode_char mode 0 = "w"%char ∧ w_fs w4 = <[path := []]> (w_fs w)))).
  { intros e w3 E1 E2 Q. rewrite Hdes, Z.geb_leb.
    destruct (Z.leb_spec 0 fd); [|lia]. simpl.
    rewrite E1, E2, Hfs2, Hfds2, Hfds1. split_and!; [done|by apply delete_fresh|].
    destruct wr; [by right|left; tauto]. }
  destruct (Z.eqb_spec rc 0) as [->|Hrc]; simpl.
  2:{ intros [= <- <-].
      destruct (Hfail (w_errno w2) w2) as (? & ? & ?); auto; [intros Q; by apply Hq2, Hq1|].
      split_and!; auto. intros Q. destruct (Hq2 (Hq1 Q)) as [_ Hz]. destruct Hrc. apply Hz.
      by rewrite Hd0. }
  destruct (Hinf eq_refl) as (data & Hd & Hsize & _).
  rewrite Hd0 in Hd. injection Hd as <-.
  rewrite Z.gtb_ltb. destruct (Z.ltb_spec LONG_MAX (st_size inf)).
  { intros [= <- <-].
    destruct (Hfail EFBIG w2) as (? & ? & ?); auto; [intros Q; by apply Hq2, Hq1|].
    split_and!; auto. intros _. right. right. right. destruct wr.
    - subst data0. simpl in Hsize. unfold LONG_MAX in *. lia.
    - split_and!; auto. exists data0. split; [done|lia]. }
  destruct (sys_malloc w2) as [ok w3] eqn:Hm.
  pose proof (sys_malloc_quiet _ _ _ Hm) as Hq3.
  apply sys_malloc_spec in Hm as (Hfs3 & Hfds3).
  destruct ok; simpl.
  2:{ intros [= <- <-].
      destruct (Hfail (w_errno w3) w3) as (? & ? & ?); auto;
        [intros Q; by apply Hq3, Hq2, Hq1|].
      split_and!; auto. intros Q. by destruct (Hq3 (proj1 (Hq2 (Hq1 Q)))). }
  intros [= <- <-]. simpl.
  rewrite Hdes, Hoff, Hlen, Hbrk, Hmod, Hfs3, Hfds3, Hfs2, Hfds2, Hfds1.
  split; [intros Q; by apply Hq3, Hq2, Hq1|]. split_and!; auto.
  destruct wr.
  - left. split_and!; auto. subst data0. by rewrite Hsize.
  - right. destruct Hfs1 as [Hfs1 _]. split_and!; auto.
    exists data0. by rewrite Hsize.
Qed.

(** ** What a write leaves alone *)

Lemma only_file_refl fd w : only_file fd w w.
Proof. by split. Qed.

Lemma only_file_trans fd w1 w2 w3 :
  only_file fd w1 w2 → only_file fd w2 w3 → only_file fd w1 w3.
Proof.
  intros [H1 H2] [H3 H4]. split; [congruence|].
  intros p Hp. rewrite H4 by (by rewrite H1). by apply H2.
Qed.

Lemma only_file_same fd w w' :
  w_fs w' = w_fs w → w_fds w' = w_fds w → only_file fd w w'.
Proof. intros H1 H2. split; [done|]. intros p _. by rewrite H1. Qed.

Lemma fd_set_file_only fd d w : only_file fd w (fd_set_file fd d w).
Proof.
  split; [apply fd_set_file_fds|]. intros p Hp. unfold fd_set_file.
  destruct (w_fds w !! fd) as [q|]; [|done]. simpl.
  apply lookup_insert_ne. congruence.
Qed.

Lemma sys_ftruncate_only fd n w rc w' :
  sys_ftruncate fd n w = (rc, w') → only_file fd w w'.
Proof.
  unfold sys_ftruncate. destruct (fault w) as [o w1] eqn:Hf.
  apply fault_inv in Hf as (Hfs & Hfds & _ & _).
  assert (only_file fd w w1) as H1 by (by apply only_file_same).
  destruct o as [e|]; [by intros [= <- <-]|].
  destruct (fd_file w1 fd); [|by intros [= <- <-]].
  destruct (n <? 0); intros [= <- <-]; [done|].
  eapply only_file_trans; [exact H1|apply fd_set_file_only].
Qed.

Lemma copy_out_only n : ∀ src si m di w w',
  copy_out n src si m di w = Done w' → only_file (m_des m) w w'.
Proof.
  induction n as [|n IH]; intros src si m di w w' H; simpl in H.
  { injection H as <-. apply only_file_refl. }
  inv_bind H. inv_bind H. apply IH in H.
  eapply only_file_trans; [|exact H].
  unfold map_store in Ha0. destruct (_ && _); [|discriminate].
  destruct (fd_file w (m_des m)); [|discriminate].
  destruct (_ <? _); [|discriminate]. injection Ha0 as <-. apply fd_set_file_only.
Qed.

(** The write path grows the file by whole blocks, and by less than a
    block beyond the cursor. *)
Lemma write_fault_grows s w e s' w' :
  stream_inv s w →
  write_fault s w = Done (e, s', w') →
  only_file (s_des s) w w' ∧
  (s_siz s' = s_siz s ∨
   (Z.rem (s_siz s') (s_blk s) = 0 ∧ s_siz s' ≤ s_cur s + s_blk s)).
Proof.
  intros [Hblk Hcur Hend _ _] H.
  unfold write_fault in H. rewrite release_eq in H.
  inv_bind H. apply align_Done in Ha as (-> & _ & _).
  unfold aligned in *. simpl in *.
  destruct (align_bracket (s_cur s) (s_blk s)) as (H1 & H2 & H3); [lia..|].
  set (off := Z.quot (s_cur s) (s_blk s) * s_blk s) in *.
  assert (Hrem : Z.rem (off + s_blk s) (s_blk s) = 0).
  { rewrite Z.rem_mod_nonneg in * by lia.
    rewrite <- (Z.mul_1_l (s_blk s)) at 1. rewrite Z.mod_add by lia. done. }
  destruct (_ >? _).
  - destruct (sys_ftruncate _ _ w) as [rc w1] eqn:Ht.
    apply sys_ftruncate_only in Ht.
    destruct (negb (rc =? 0)); simpl in H.
    + injection H as <- <- <-. simpl. auto.
    + destruct (map_window _ w1) as [[e1 s1] w2] eqn:Hm. injection H as <- <- <-.
      apply map_window_spec in Hm as (Hfs & Hfds & _ & (m & -> & _) & _). simpl.
      split; [|right; split; [done|lia]].
      eapply only_file_trans; [exact Ht|by apply only_file_same].
  - simpl in H. destruct (map_window _ w) as [[e1 s1] w2] eqn:Hm. injection H as <- <- <-.
    apply map_window_spec in Hm as (Hfs & Hfds & _ & (m & -> & _) & _). simpl.
    split; [by apply only_file_same|by left].
Qed.

Lemma write_body_grows brk buf len s w e len' s' w' :
  stream_inv s w → s_cur s < brk →
  write_body brk buf len s w = Done (e, len', s', w') →
  only_file (s_des s) w w' ∧
  (s_siz s' = s_siz s ∨
   (Z.rem (s_siz s') (s_blk s) = 0 ∧ s_siz s' ≤ s_cur s + s_blk s)).
Proof.
  intros Hinv Hlt H. unfold write_body in H.
  inv_bind H. destruct a as [[e1 s1] w1].
  assert (only_file (s_des s) w w1 ∧
          (s_siz s1 = s_siz s ∨
           (Z.rem (s_siz s1) (s_blk s) = 0 ∧ s_siz s1 ≤ s_cur s + s_blk s))) as [Ho Hs].
  { destruct (stale s); [by eapply write_fault_grows|].
    injection Ha as <- <- <-. split; [apply only_file_refl|by left]. }
  apply write_check_spec in Ha as (Hinv1 & (_ & _ & Hdes) & _); [|done].
  destruct e1 as [errn|]; [injection H as <- <- <- <-; by split|].
  destruct (s_buf s1) as [m|] eqn:Hbuf; [|discriminate].
  pose proof (inv_win _ _ Hinv1) as Hw. unfold window_ok in Hw. rewrite Hbuf in Hw.
  destruct Hw as (-> & _).
  inv_bind H. inv_bind H. inv_bind H. apply copy_out_only in Ha1. simpl in Ha1.
  inv_bind H. inv_bind H. injection H as <- <- <- <-.
  split.
  - eapply only_file_trans; [exact Ho|]. by rewrite <- Hdes.
  - by destruct (_ >? _).
Qed.

Lemma write_loop_grows fuel : ∀ brk buf len s w r s' w',
  stream_inv s w →
  write_loop fuel brk buf len s w = Done (r, s', w') →
  only_file (s_des s) w w' ∧
  (s_siz s' = s_siz s ∨
   (Z.rem (s_siz s') (s_blk s) = 0 ∧ s_siz s' ≤ s_cur s' + s_blk s)).
Proof.
  induction fuel as [|fuel IH]; intros brk buf len s w r s' w' Hinv H; [discriminate|].
  simpl in H. destruct (Z.ltb_spec (s_cur s) brk) as [Hlt|Hge].
  2:{ injection H as <- <- <-. split; [apply only_file_refl|by left]. }
  inv_bind H. destruct a as [[[e len1] s1] w1].
  pose proof (write_body_grows _ _ _ _ _ _ _ _ _ Hinv Hlt Ha) as [Ho Hs].
  apply write_body_spec in Ha as (Hinv1 & (Hblk & _ & Hdes) & _ & _ & _ & _ & Hm & _);
    [|done..].
  destruct e as [errn|].
  { destruct Hm as (Hc & _). injection H as <- <- <-.
    split; [done|]. rewrite Hc. done. }
  destruct Hm as (Hc & _).
  pose proof (write_loop_spec _ _ _ _ _ _ _ _ _ Hinv1 H) as (_ & _ & Hc' & _).
  apply IH in H as [Ho' Hs']; [|done]. rewrite Hdes, Hblk in *.
  split; [by eapply only_file_trans|].
  destruct Hs' as [->|Hs']; [|by right].
  destruct Hs as [->|[? ?]]; [by left|right]. split; [done|lia].
Qed.

(** ** [stream_write] and [stream_read], whatever their outcome *)

Lemma stream_write_effect fuel s buf len w r s' w' :
  stream_inv s w →
  stream_write fuel (Some s) buf len w = Done (r, Some s', w') →
  only_file (s_des s) w w' ∧
  (s_siz s' = s_siz s ∨
   (Z.rem (s_siz s') (s_blk s) = 0 ∧ s_siz s' ≤ s_cur s' + s_blk s)) ∧
  ∃ d d', fd_file w (s_des s) = Some d ∧ fd_file w' (s_des s) = Some d' ∧
    (length d ≤ length d')%nat ∧
    ∀ i : nat, (i < length d)%nat →
      Z.of_nat i < s_cur s ∨ s_cur s' ≤ Z.of_nat i → d' !! i = d !! i.
Proof.
  intros Hinv H. destruct (inv_file _ _ Hinv) as (d & Hd & Hlen).
  assert (Hfail : ∀ e, only_file (s_des s) w (set_errno e w) ∧
    (s_siz s = s_siz s ∨ (Z.rem (s_siz s) (s_blk s) = 0 ∧ s_siz s ≤ s_cur s + s_blk s)) ∧
    ∃ d0 d', fd_file w (s_des s) = Some d0 ∧ fd_file (set_errno e w) (s_des s) = Some d' ∧
      (length d0 ≤ length d')%nat ∧
      ∀ i : nat, (i < length d0)%nat →
        Z.of_nat i < s_cur s ∨ s_cur s ≤ Z.of_nat i → d' !! i = d0 !! i).
  { intros e. split_and!; [by apply only_file_same|by left|]. exists d, d. by split_and!. }
  unfold stream_write in H.
  destruct buf as [b|]; [|injection H as <- <- <-; apply Hfail].
  destruct (len <? 0); [injection H as <- <- <-; apply Hfail|].
  destruct (negb _); [injection H as <- <- <-; apply Hfail|].
  inv_bind H. destruct (_ >? _); [injection H as <- <- <-; apply Hfail|].
  inv_bind H. inv_bind H. destruct a1 as [[r1 s1] w1]. injection H as <- <- <-.
  pose proof (write_loop_grows _ _ _ _ _ _ _ _ _ Hinv Ha1) as [Ho Hs].
  apply write_loop_spec in Ha1
    as (Hinv1 & (_ & _ & Hdes) & _ & _ & Hsz & _ & _ & (d0 & d' & Hd0 & Hd' & Hfr & _));
    [|done].
  split_and!; auto. exists d0, d'. split_and!; auto.
  destruct (inv_file _ _ Hinv1) as (d1 & Hd1 & Hlen1).
  rewrite Hdes, Hd' in Hd1. injection Hd1 as <-.
  rewrite Hd in Hd0. injection Hd0 as <-. lia.
Qed.

Lemma stream_read_buffer fuel s b len w r s' b' w' :
  stream_inv s w →
  stream_read fuel (Some s) (Some b) len w = Done (r, Some s', Some b', w') →
  length b' = length b ∧
  (∀ i : nat, s_cur s' - s_cur s ≤ Z.of_nat i → b' !! i = b !! i) ∧
  s_cur s' ≤ s_end s.
Proof.
  intros Hinv H. pose proof (inv_cur _ _ Hinv) as Hc0. pose proof (inv_end _ _ Hinv) as He0.
  unfold stream_read in H.
  destruct (len <? 0) eqn:Hl; [injection H as <- <- <- <-; split_and!; [done|done|lia]|].
  destruct (negb _); [injection H as <- <- <- <-; split_and!; [done|done|lia]|].
  apply Z.ltb_ge in Hl.
  inv_bind H. apply long_Done in Ha as [-> _].
  inv_bind H.
  assert (a = Z.min len (s_end s - s_cur s)) as ->.
  { rewrite Z.gtb_ltb in Ha. destruct (Z.ltb_spec (s_end s - len) (s_cur s)).
    - apply long_Done in Ha as [-> _]. lia.
    - injection Ha as <-. lia. }
  inv_bind H. apply long_Done in Ha0 as [-> _].
  inv_bind H. destruct a as [[[r1 s1] b1] w1]. injection H as <- <- <- <-.
  pose proof Ha0 as Hl0.
  apply read_loop_spec in Ha0
    as (Hinv1 & _ & Hc & He & _ & _ & _ & _ & Hbl & _ & Hfr & _); [|done|lia..].
  split_and!; [done| |].
  - intros i Hi. apply Hfr. lia.
  - pose proof (inv_cur _ _ Hinv1). lia.
Qed.

(** ** [stream_close] *)

Lemma resize_take n (d : list Byte.byte) : (n ≤ length d)%nat → resize n d = take n d.
Proof.
  intros H. unfold resize. replace (n - length d)%nat with 0%nat by lia.
  apply app_nil_r.
Qed.

Lemma sys_ftruncate_params fd n w rc w' :
  sys_ftruncate fd n w = (rc, w') →
  w_pagesize w' = w_pagesize w ∧ w_blksize w' = w_blksize w.
Proof.
  unfold sys_ftruncate. destruct (fault w) as [o w1] eqn:Hf.
  apply fault_params in Hf as [Hp Hb].
  destruct o as [e|]; [by intros [= <- <-]|].
  destruct (fd_file w1 fd); [|by intros [= <- <-]].
  destruct (n <? 0); intros [= <- <-]; [done|].
  unfold fd_set_file. by destruct (w_fds w1 !! fd).
Qed.

Lemma stream_close_effect s w path d :
  stream_inv s w →
  w_fds w !! s_des s = Some path → w_fs w !! path = Some d →
  w_fds (stream_close (Some s) w) = delete (s_des s) (w_fds w) ∧
  (∀ p, p ≠ path → w_fs (stream_close (Some s) w) !! p = w_fs w !! p) ∧
  (s_end s = s_siz s → w_fs (stream_close (Some s) w) = w_fs w) ∧
  (w_fs (stream_close (Some s) w) !! path = Some (take (Z.to_nat (s_end s)) d) ∨
   (¬ quiet w ∧ w_fs (stream_close (Some s) w) !! path = Some d)) ∧
  (quiet w → quiet (stream_close (Some s) w)) ∧
  w_pagesize (stream_close (Some s) w) = w_pagesize w ∧
  w_blksize (stream_close (Some s) w) = w_blksize w.
Proof.
  intros Hinv Hfd Hp.
  pose proof (inv_cur _ _ Hinv) as Hc0. pose proof (inv_end _ _ Hinv) as He0.
  destruct (inv_file _ _ Hinv) as (d0 & Hd & Hlen).
  assert (d0 = d) as ->.
  { unfold fd_file in Hd. rewrite Hfd in Hd. simpl in Hd. congruence. }
  unfold stream_close.
  replace (match s_buf s with Some m => sys_munmap m (s_len s) w | None => w end) with w
    by (by destruct (s_buf s)).
  destruct (Z.ltb_spec (s_end s) (s_siz s)) as [Hlt|Hge].
  - destruct (sys_ftruncate (s_des s) (s_end s) w) as [rc w1] eqn:Ht. simpl.
    pose proof (sys_ftruncate_params _ _ _ _ _ Ht) as [Hps Hbs].
    pose proof (sys_ftruncate_only _ _ _ _ _ Ht) as [Hfds Hoth].
    eapply sys_ftruncate_spec in Ht as (_ & Hq & Hcase & Hok); [|exact Hd].
    rewrite Hfds. split_and!; auto; [|lia|].
    + intros p Hne. apply Hoth. congruence.
    + destruct Hcase as [(-> & _ & Hd1)|(-> & Hfs)].
      * left. unfold fd_file in Hd1. rewrite Hfds, Hfd in Hd1. simpl in Hd1.
        rewrite Hd1. f_equal. apply resize_take. lia.
      * right. split; [|by rewrite Hfs]. intros Q. specialize (Hok Q). lia.
  - simpl. split_and!; auto. left. rewrite Hp. f_equal.
    symmetry. apply take_ge. lia.
Qed.

(** ** Programs that only read *)

Lemma browsed_inv s0 w0 s w :
  stream_inv s0 w0 → browsed s0 w0 s w →
  stream_inv s w ∧ same_handle s0 s ∧ s_end s = s_end s0 ∧ s_siz s = s_siz s0 ∧
  w_fs w = w_fs w0 ∧ w_fds w = w_fds w0 ∧ (quiet w0 → quiet w).
Proof.
  intros Hinv0. induction 1 as [|fuel s w buf len r s' buf' w' _ IH H
                                |s w p r s' w' _ IH Hp H|s w r s' w' _ IH H].
  - unfold same_handle. by split_and!.
  - destruct IH as (Hinv & (Hb & Hm & Hd) & He & Hs & Hfs & Hfds & Hq).
    apply stream_read_spec in H
      as (s1 & [= <-] & Hinv1 & (Hb1 & Hm1 & Hd1) & _ & He1 & Hs1 & Hfs1 & Hfds1 & Hq1 & _);
      [|done].
    unfold same_handle. split_and!; auto; congruence.
  - destruct IH as (Hinv & (Hb & Hm & Hd) & He & Hs & Hfs & Hfds & Hq).
    pose proof (stream_seek_inv _ _ _ _ _ _ Hinv Hp H)
      as (s1 & [= <-] & Hinv1 & (Hb1 & Hm1 & Hd1) & _ & _ & _ & _ & He1 & Hs1).
    rewrite stream_seek_spec in H by done. simpl in H.
    assert (w_fs w' = w_fs w ∧ w_fds w' = w_fds w ∧ w_faults w' = w_faults w)
      as (Hfs1 & Hfds1 & Hfl1).
    { destruct (_ && _); injection H as <- <- <-; by split_and!. }
    unfold same_handle, quiet. rewrite Hfl1. split_and!; auto; congruence.
  - destruct IH as (Hinv & (Hb & Hm & Hd) & He & Hs & Hfs & Hfds & Hq).
    destruct (stream_sync_spec s w) as (r1 & w1 & E & Hfs1 & Hfds1 & Hq1 & _).
    pose proof (stream_sync_inv _ _ _ _ _ Hinv H) as [[= <-] Hinv1].
    rewrite E in H. injection H as <- <-.
    unfold same_handle. split_and!; auto; try congruence.
    intros Q. by apply Hq1, Hq.
Qed.

(** ** The bytes of the stream *)

Lemma contents_length s w c :
  stream_inv s w → contents s w = Some c → Z.of_nat (length c) = s_end s.
Proof.
  intros Hinv H. pose proof (inv_cur _ _ Hinv). pose proof (inv_end _ _ Hinv).
  destruct (inv_file _ _ Hinv) as (d & Hd & Hlen).
  unfold contents in H. rewrite Hd in H. simpl in H. injection H as <-.
  rewrite length_take. lia.
Qed.

(** A write that goes through splices its bytes into the stream at the
    cursor. *)
Lemma stream_write_contents fuel s b len w c :
  stream_inv s w → writable s → quiet w →
  0 ≤ len → s_cur s + len + s_blk s ≤ LONG_MAX →
  len ≤ Z.of_nat (length b) → len < Z.of_nat fuel →
  contents s w = Some c →
  ∃ s1 w1, stream_write fuel (Some s) (Some b) len w = Done (len, Some s1, w1) ∧
    stream_inv s1 w1 ∧ same_handle s s1 ∧ quiet w1 ∧
    s_cur s1 = s_cur s + len ∧ s_end s1 = Z.max (s_end s) (s_cur s + len) ∧
    contents s1 w1 =
      Some (take (Z.to_nat (s_cur s)) c ++ take (Z.to_nat len) b
            ++ drop (Z.to_nat (s_cur s + len)) c).
Proof.
  intros Hinv Hw Hq Hlen Ho Hb Hf Hc.
  pose proof (inv_cur _ _ Hinv) as Hc0. pose proof (inv_end _ _ Hinv) as He0.
  pose proof (contents_length _ _ _ Hinv Hc) as Hcl.
  destruct (stream_write_total fuel s b len w) as (s1 & w1 & d' & E & Hinv1 & Hsame & Hq1
    & Hc1 & He1 & Hd' & Hcont); auto.
  exists s1, w1. split_and!; auto.
  pose proof (stream_write_effect _ _ _ _ _ _ _ _ Hinv E)
    as (_ & _ & d & d'' & Hd & Hd'' & Hll & Hfr).
  rewrite Hd' in Hd''. injection Hd'' as <-.
  destruct (inv_file _ _ Hinv) as (d0 & Hd0 & Hdl).
  rewrite Hd in Hd0. injection Hd0 as <-.
  unfold contents in Hc. rewrite Hd in Hc. simpl in Hc. injection Hc as <-.
  destruct Hsame as (_ & _ & Hdes).
  unfold contents. rewrite Hdes, Hd'. simpl. f_equal.
  set (e := s_end s) in *. set (p := s_cur s) in *.
  assert (Hlp : length (take (Z.to_nat p) (take (Z.to_nat e) d)) = Z.to_nat p)
    by (rewrite !length_take; lia).
  assert (Hlb : length (take (Z.to_nat len) b) = Z.to_nat len)
    by (rewrite length_take; lia).
  apply list_eq. intros i.
  destruct (Nat.lt_ge_cases i (Z.to_nat p)) as [H1|H1].
  { rewrite lookup_app_l by lia. rewrite !lookup_take_lt by lia.
    apply Hfr; lia. }
  rewrite lookup_app_r by lia. rewrite Hlp.
  destruct (Nat.lt_ge_cases i (Z.to_nat (p + len))) as [H2|H2].
  { rewrite lookup_app_l by lia. rewrite !lookup_take_lt by lia.
    replace i with (Z.to_nat (p + Z.of_nat (i - Z.to_nat p))) at 1 by lia.
    apply Hcont. lia. }
  rewrite lookup_app_r by lia. rewrite Hlb, lookup_drop.
  replace (Z.to_nat (p + len) + (i - Z.to_nat p - Z.to_nat len))%nat with i by lia.
  destruct (Nat.lt_ge_cases i (Z.to_nat e)) as [H3|H3].
  - rewrite !lookup_take_lt by lia. apply Hfr; lia.
  - rewrite !lookup_take_ge by lia. done.
Qed.

(** ** How far a transfer got *)

(** Whatever stops the writing loop, the bytes between the old and the
    new cursor are in the file and the end has followed the cursor. *)
Lemma write_loop_progress fuel : ∀ brk buf len s w r s' w',
  stream_inv s w →
  write_loop fuel brk buf len s w = Done (r, s', w') →
  s_end s' = Z.max (s_end s) (s_cur s') ∧
  ∃ d', fd_file w' (s_des s) = Some d' ∧
    ∀ k : nat, Z.of_nat k < s_cur s' - s_cur s →
      d' !! Z.to_nat (s_cur s + Z.of_nat k) = buf !! Z.to_nat (len + Z.of_nat k).
Proof.
  induction fuel as [|fuel IH]; intros brk buf len s w r s' w' Hinv H; [discriminate|].
  pose proof (inv_cur _ _ Hinv) as Hc0.
  simpl in H. destruct (Z.ltb_spec (s_cur s) brk) as [Hlt|Hge].
  2:{ injection H as <- <- <-. destruct (inv_file _ _ Hinv) as (d & Hd & _).
      split; [lia|]. exists d. split; [done|]. intros k Hk. lia. }
  inv_bind H. destruct a as [[[e len1] s1] w1].
  apply write_body_spec in Ha
    as (Hinv1 & (Hblk & Hmod & Hdes) & He & Hsz & Hq & (d & d1 & Hd & Hd1 & Hfr & Hin) & Hm & Hok);
    [|done..].
  destruct e as [errn|].
  { destruct Hm as (Hc & Hee & -> & ->). injection H as <- <- <-.
    split; [lia|]. exists d1. split; [done|]. intros k Hk. lia. }
  destruct Hm as (Hc & -> & Hee & _).
  pose proof (write_loop_spec _ _ _ _ _ _ _ _ _ Hinv1 H)
    as (_ & _ & Hc' & _ & _ & _ & _ & (x & d' & Hx & Hd' & Hfr' & _)).
  rewrite Hdes, Hd1 in Hx. injection Hx as <-.
  apply IH in H as (He' & y & Hy & Hcont); [|done].
  rewrite Hd' in Hy. injection Hy as <-. rewrite Hdes in Hd'.
  assert (Z.of_nat (length d1) = s_siz s1) as Hl1.
  { destruct (inv_file _ _ Hinv1) as (z & Hz & Hlz).
    rewrite Hdes, Hd1 in Hz. by injection Hz as <-. }
  pose proof (inv_cur _ _ Hinv1) as Hc1. pose proof (inv_end _ _ Hinv1) as He1.
  split; [lia|]. exists d'. split; [done|].
  intros k Hk. destruct (Z.ltb_spec (Z.of_nat k) (s_cur s1 - s_cur s)) as [L|G].
  - rewrite Hfr' by lia. by apply Hin.
  - replace (s_cur s + Z.of_nat k)
      with (s_cur s1 + Z.of_nat (Z.to_nat (Z.of_nat k - (s_cur s1 - s_cur s)))) by lia.
    rewrite Hcont by lia. f_equal. lia.
Qed.

(** Whatever stops the reading loop, the bytes between the old and the
    new cursor are in the caller's buffer. *)
Lemma read_loop_progress fuel : ∀ brk buf len s w r s' buf' w',
  stream_inv s w → brk ≤ s_end s → 0 ≤ len →
  read_loop fuel brk buf len s w = Done (r, s', buf', w') →
  ∃ d, fd_file w (s_des s) = Some d ∧
    ∀ k : nat, Z.of_nat k < s_cur s' - s_cur s →
      buf' !! Z.to_nat (len + Z.of_nat k) = d !! Z.to_nat (s_cur s + Z.of_nat k).
Proof.
  induction fuel as [|fuel IH]; intros brk buf len s w r s' buf' w' Hinv Hle Hlen H;
    [discriminate|].
  simpl in H. destruct (inv_file _ _ Hinv) as (d & Hd & Hdl).
  pose proof (inv_cur _ _ Hinv) as Hc0.
  exists d. split; [done|].
  destruct (Z.ltb_spec (s_cur s) brk) as [Hlt|Hge].
  2:{ injection H as <- <- <- <-. intros k Hk. lia. }
  inv_bind H. destruct a as [[[[e len1] s1] buf1] w1].
  apply read_body_spec in Ha
    as (Hinv1 & (Hblk & Hmod & Hdes) & He & Hsz & Hfs & Hfds & Hq & Hbl & Hfr
        & (x & Hx & Hin) & Hm & Hok);
    [|done..].
  rewrite Hd in Hx. injection Hx as <-.
  assert (Hd1 : fd_file w1 (s_des s) = Some d) by (by rewrite (fd_file_ext w w1)).
  destruct e as [errn|].
  { destruct Hm as (Hc & -> & -> & ->). injection H as <- <- <- <-.
    intros k Hk. lia. }
  destruct Hm as (Hc & -> & _).
  pose proof H as H'.
  apply read_loop_spec in H'
    as (_ & _ & Hc' & _ & _ & _ & _ & _ & _ & _ & Hfr' & _); [|done|lia..].
  apply IH in H as (y & Hy & Hcont); [|done|lia..].
  rewrite Hdes, Hd1 in Hy. injection Hy as <-.
  intros k Hk. destruct (Z.ltb_spec (Z.of_nat k) (s_cur s1 - s_cur s)) as [L|G].
  - rewrite Hfr' by lia. by apply Hin.
  - replace (s_cur s + Z.of_nat k)
      with (s_cur s1 + Z.of_nat (Z.to_nat (Z.of_nat k - (s_cur s1 - s_cur s)))) by lia.
    rewrite <- Hcont by lia. f_equal. lia.
Qed.

(** ** Transfers inside the window held *)

Lemma stale_within s :
  is_Some (s_buf s) → s_off s ≤ s_cur s < s_brk s → stale s = false.
Proof.
  intros [m Hm] Hc. unfold stale. rewrite Hm, Z.geb_leb.
  destruct (Z.ltb_spec (s_cur s) (s_off s)), (Z.leb_spec (s_brk s) (s_cur s)); simpl; lia.
Qed.

(** A turn of the reading loop that finds the cursor inside the window
    asks the system for nothing. *)
Lemma read_body_within brk buf len s w :
  stream_inv s w → is_Some (s_buf s) → s_off s ≤ s_cur s →
  s_cur s < brk → brk ≤ s_brk s → brk ≤ s_end s →
  0 ≤ len → len + (brk - s_cur s) ≤ Z.of_nat (length buf) →
  len + (brk - s_cur s) ≤ LONG_MAX →
  ∃ buf', read_body brk buf len s w
          = Done (None, len + (brk - s_cur s), set_cur brk s, buf', w).
Proof.
  intros Hinv [m Hm] Hoff Hlt Hle Hend Hlen Hbuf Hmax. unfold read_body.
  pose proof (inv_cur _ _ Hinv) as Hc0. pose proof (inv_end _ _ Hinv) as He0.
  destruct (inv_file _ _ Hinv) as (d & Hd & Hdl).
  rewrite stale_within by (eauto || lia). simpl. rewrite Hm.
  pose proof (inv_win _ _ Hinv) as Hw. unfold window_ok in Hw. rewrite Hm in Hw.
  destruct Hw as (-> & Ho0 & Hrem & Hl & Hb' & Hbs).
  assert ((if brk <? s_brk s then brk else s_brk s) - s_cur s = brk - s_cur s) as ->
    by (destruct (Z.ltb_spec brk (s_brk s)); lia).
  rewrite long_in by (unfold LONG_MIN; lia). simpl.
  rewrite long_in by (unfold LONG_MIN; lia). simpl.
  destruct (copy_in_defined (Z.to_nat (brk - s_cur s))
              (Mapping (s_des s) (s_off s) (s_len s) (s_mod s))
              (s_cur s - s_off s) buf len w d) as [buf1 ->]; simpl; try lia; [done|].
  rewrite long_in by (unfold LONG_MIN; lia). simpl.
  rewrite long_in by (unfold LONG_MIN; lia). simpl.
  exists buf1. do 5 f_equal. lia.
Qed.

(** The same for the writing loop: the bytes go to the window, nothing
    else happens. *)
Lemma write_body_within brk buf len s w :
  stream_inv s w → is_Some (s_buf s) → s_off s ≤ s_cur s →
  s_cur s < brk → brk ≤ s_brk s → writable s →
  0 ≤ len → len + (brk - s_cur s) ≤ Z.of_nat (length buf) →
  len + (brk - s_cur s) ≤ LONG_MAX →
  ∃ w', write_body brk buf len s w
          = Done (None, len + (brk - s_cur s),
                  (if brk >? s_end s then set_end brk (set_cur brk s) else set_cur brk s), w') ∧
        w_faults w' = w_faults w ∧ w_errno w' = w_errno w.
Proof.
  intros Hinv [m Hm] Hoff Hlt Hle Hwr Hlen Hbuf Hmax. unfold write_body.
  pose proof (inv_cur _ _ Hinv) as Hc0. pose proof (inv_end _ _ Hinv) as He0.
  destruct (inv_file _ _ Hinv) as (d & Hd & Hdl).
  rewrite stale_within by (eauto || lia). simpl. rewrite Hm.
  pose proof (inv_win _ _ Hinv) as Hw. unfold window_ok in Hw. rewrite Hm in Hw.
  destruct Hw as (-> & Ho0 & Hrem & Hl & Hb' & Hbs).
  assert ((if brk <? s_brk s then brk else s_brk s) - s_cur s = brk - s_cur s) as ->
    by (destruct (Z.ltb_spec brk (s_brk s)); lia).
  rewrite long_in by (unfold LONG_MIN; lia). simpl.
  rewrite long_in by (unfold LONG_MIN; lia). simpl.
  destruct (copy_out_defined (Z.to_nat (brk - s_cur s)) buf len
              (Mapping (s_des s) (s_off s) (s_len s) (s_mod s))
              (s_cur s - s_off s) w d) as [w1 Hco]; simpl; try lia; [done..|].
  rewrite Hco. simpl.
  eapply copy_out_spec in Hco as (_ & _ & _ & _ & Hfl & Herr & _); [|exact Hd].
  rewrite long_in by (unfold LONG_MIN; lia). simpl.
  rewrite long_in by (unfold LONG_MIN; lia). simpl.
  exists w1. split; [|done].
  replace (s_cur s + (brk - s_cur s)) with brk by lia. done.
Qed.

(** ** The life of a stream *)

Lemma used_inv s0 w0 s w :
  stream_inv s0 w0 → used s0 w0 s w →
  stream_inv s w ∧ same_handle s0 s ∧
  s_end s0 ≤ s_end s ∧ s_siz s0 ≤ s_siz s ∧ only_file (s_des s0) w0 w.
Proof.
  intros Hinv0. induction 1 as [|fuel s w buf len r s' w' _ IH H
                                |fuel s w buf len r s' buf' w' _ IH H
                                |s w p r s' w' _ IH Hp H|s w r s' w' _ IH H].
  - unfold same_handle. split_and!; auto; try lia. apply only_file_refl.
  - destruct IH as (Hinv & (Hb & Hm & Hd) & He & Hs & Ho).
    pose proof (stream_write_effect _ _ _ _ _ _ _ _ Hinv H) as (Ho1 & _).
    apply stream_write_spec in H
      as (s1 & [= <-] & Hinv1 & (Hb1 & Hm1 & Hd1) & _ & He1 & Hs1 & _); [|done].
    unfold same_handle. split_and!; auto; try lia; try congruence.
    eapply only_file_trans; [exact Ho|]. by rewrite <- Hd.
  - destruct IH as (Hinv & (Hb & Hm & Hd) & He & Hs & Ho).
    apply stream_read_spec in H
      as (s1 & [= <-] & Hinv1 & (Hb1 & Hm1 & Hd1) & _ & He1 & Hs1 & Hfs1 & Hfds1 & _);
      [|done].
    unfold same_handle. split_and!; auto; try lia; try congruence.
    eapply only_file_trans; [exact Ho|]. by apply only_file_same.
  - destruct IH as (Hinv & (Hb & Hm & Hd) & He & Hs & Ho).
    pose proof (stream_seek_inv _ _ _ _ _ _ Hinv Hp H)
      as (s1 & [= <-] & Hinv1 & (Hb1 & Hm1 & Hd1) & _ & _ & _ & _ & He1 & Hs1).
    rewrite stream_seek_spec in H by done. simpl in H.
    assert (w_fs w' = w_fs w ∧ w_fds w' = w_fds w) as (Hfs1 & Hfds1).
    { destruct (_ && _); injection H as <- <- <-; by split. }
    unfold same_handle. split_and!; auto; try lia; try congruence.
    eapply only_file_trans; [exact Ho|]. by apply only_file_same.
  - destruct IH as (Hinv & (Hb & Hm & Hd) & He & Hs & Ho).
    destruct (stream_sync_spec s w) as (r1 & w1 & E & Hfs1 & Hfds1 & _).
    pose proof (stream_sync_inv _ _ _ _ _ Hinv H) as [[= <-] Hinv1].
    rewrite E in H. injection H as <- <-.
    unfold same_handle. split_and!; auto.
    eapply only_file_trans; [exact Ho|]. by apply only_file_same.
Qed.

(** ** The last block below [LONG_MAX] *)

Lemma top_stream_inv cur :
  0 ≤ cur ≤ LONG_MAX → stream_inv (top_stream cur) top_world.
Proof.
  intros Hc. split.
  - unfold top_stream, demo_stream. cbn [s_blk]. lia.
  - unfold top_stream, demo_stream. cbn [s_cur s_end]. lia.
  - unfold top_stream, demo_stream. cbn [s_end s_siz]. lia.
  - exists (replicate (Z.to_nat LONG_MAX) Byte.x00). split.
    + unfold fd_file, top_world, demo_world, top_stream, demo_stream.
      cbn [w_fds w_fs s_des]. rewrite lookup_singleton_eq.
      cbn [mbind option_bind]. apply lookup_singleton_eq.
    + rewrite length_replicate. unfold top_stream, demo_stream. cbn [s_siz].
      apply Z2Nat.id. unfold LONG_MAX. lia.
  - exact I.
Qed.

Lemma top_world_quiet : quiet top_world.
Proof. apply Forall_nil_2. Qed.

(** A seek to a position inside the stream. *)
Lemma stream_seek_to s w p :
  stream_inv s w → 0 ≤ p ≤ s_end s →
  stream_seek (Some s) p w = Done (p, Some (set_cur p s), w).
Proof.
  intros Hinv Hp. pose proof (inv_end _ _ Hinv) as He.
  rewrite stream_seek_spec by (done || unfold LONG_MIN; lia). cbv zeta.
  destruct (Z.ltb_spec p 0); [lia|].
  by destruct (Z.leb_spec 0 p), (Z.leb_spec p (s_end s)); try lia.
Qed.

(** With the cursor in the last block below [LONG_MAX] and no window
    held, both loops compute a window bound that is not representable. *)
Lemma top_block_overflows fuel s w (b : list Byte.byte) len :
  0 ≤ s_cur s ≤ LONG_MAX → 1 ≤ s_blk s → s_buf s = None →
  LONG_MAX < Z.quot (s_cur s) (s_blk s) * s_blk s + s_blk s →
  0 < len ≤ LONG_MAX → (0 < fuel)%nat →
  (writable s → s_cur s + len ≤ LONG_MAX →
   stream_write fuel (Some s) (Some b) len w = Undef) ∧
  (readable s → s_cur s < s_end s ≤ LONG_MAX →
   stream_read fuel (Some s) (Some b) len w = Undef).
Proof.
  intros Hc Hb Hbuf Ho Hl Hf. destruct fuel as [|fuel]; [lia|].
  assert (Hstale : stale s = true).
  { unfold stale. rewrite Hbuf. apply orb_true_r. }
  assert (Hal : align (set_buf None s) = Undef).
  { apply align_overflow; simpl; lia. }
  split.
  - intros Hw Hmax. rewrite stream_write_checks by (done || lia).
    rewrite Z.gtb_ltb. destruct (Z.ltb_spec (LONG_MAX - len) (s_cur s)); [lia|].
    rewrite long_in by (unfold LONG_MIN; lia). simpl.
    destruct (Z.ltb_spec (s_cur s) (s_cur s + len)); [|lia].
    unfold write_body. rewrite Hstale. unfold write_fault.
    rewrite release_eq, Hal. reflexivity.
  - intros Hr He. unfold stream_read, readable in *.
    destruct (Z.ltb_spec len 0); [lia|]. rewrite Hr, Z.eqb_refl. simpl.
    rewrite (long_in (s_end s - len)) by (unfold LONG_MIN, LONG_MAX in *; lia). simpl.
    assert (∃ n, (if s_cur s >? s_end s - len then long (s_end s - s_cur s) else mret len)
                 = Done n ∧ 0 < n ∧ s_cur s + n ≤ LONG_MAX) as (n & -> & Hn & Hn').
    { rewrite Z.gtb_ltb. destruct (Z.ltb_spec (s_end s - len) (s_cur s)).
      - rewrite long_in by (unfold LONG_MIN, LONG_MAX in *; lia). eexists. split; [done|lia].
      - eexists. split; [done|lia]. }
    simpl. rewrite long_in by (unfold LONG_MIN; lia). simpl.
    destruct (Z.ltb_spec (s_cur s) (s_cur s + n)); [|lia].
    unfold read_body. rewrite Hstale. unfold read_fault.
    rewrite release_eq, Hal. reflexivity.
Qed.

(** ** The streams a program can hold *)

Lemma reachable_inv s w : reachable s w → stream_inv s w.
Proof.
  induction 1 as [path mode w s w' H|fuel s w buf len r s' w' _ IH H
                  |fuel s w buf len r s' buf' w' _ IH H|s w p r s' w' _ IH Hp H
                  |s w r s' w' _ IH H].
  - by apply stream_open_spec in H as (? & _).
  - apply stream_write_spec in H as (s1 & [= <-] & ? & _); done.
  - apply stream_read_spec in H as (s1 & [= <-] & ? & _); done.
  - apply stream_seek_inv in H as (s1 & [= <-] & ? & _); done.
  - apply stream_sync_inv in H as ([= <-] & ?); done.
Qed.

(** * The claims of the specification *)

(** C1: at the top of the address range the round trip breaks. On a
    file of [LONG_MAX] bytes, open for reading and writing on a system
    that does not fail, the seek to the position ten bytes below the end
    succeeds, and the write of five bytes there - which passes the
    [EFBIG] check, 5 bytes from that position do not overflow - has
    undefined behaviour: the bound [s->off + s->len] of the window to map
    is 2^63. *)
Theorem roundtrip_top_block :
  stream_inv (top_stream 0) top_world ∧
  readable (top_stream 0) ∧ writable (top_stream 0) ∧ quiet top_world ∧
  0 ≤ LONG_MAX - 10 ≤ s_end (top_stream 0) ∧
  LONG_MAX - 10 + 5 ≤ LONG_MAX ∧
  stream_seek (Some (top_stream 0)) (LONG_MAX - 10) top_world
    = Done (LONG_MAX - 10, Some (set_cur (LONG_MAX - 10) (top_stream 0)), top_world) ∧
  stream_write 6 (Some (set_cur (LONG_MAX - 10) (top_stream 0))) (Some ten_bytes) 5 top_world
    = Undef.
Proof.
  assert (Hinv : stream_inv (top_stream 0) top_world)
    by (apply top_stream_inv; unfold LONG_MAX; lia).
  split_and!.
  - exact Hinv.
  - reflexivity.
  - reflexivity.
  - apply top_world_quiet.
  - unfold LONG_MAX. lia.
  - unfold top_stream, demo_stream, LONG_MAX. cbn [s_end]. lia.
  - unfold LONG_MAX. lia.
  - apply stream_seek_to; [exact Hinv|].
    unfold top_stream, demo_stream, LONG_MAX. cbn [s_end]. lia.
  - apply (top_block_overflows 6 (set_cur (LONG_MAX - 10) (top_stream 0)) top_world
             ten_bytes 5).
    + unfold top_stream, demo_stream, LONG_MAX. cbn [s_cur set_cur]. lia.
    + unfold top_stream, demo_stream. cbn [s_blk set_cur]. lia.
    + reflexivity.
    + by vm_compute.
    + unfold LONG_MAX. lia.
    + lia.
    + reflexivity.
    + unfold top_stream, demo_stream, LONG_MAX. cbn [s_cur set_cur]. lia.
Qed.

(** Below the top of the address range the round trip holds: on a stream
    open for reading and writing, seek to [p], write the bytes [data],
    seek back to [p] and read as many bytes: when the system does not fail
    and the bound of the last window is representable every call succeeds,
    the write returns the length of [data], the read returns it too and
    delivers [data], wherever the block boundaries fall in between. *)
Theorem write_read_roundtrip fuel s w data ubuf p :
  stream_inv s w → readable s → writable s → quiet w →
  0 ≤ p ≤ s_end s →
  p + Z.of_nat (length data) + s_blk s ≤ LONG_MAX →
  (length data ≤ length ubuf)%nat →
  (length data < fuel)%nat →
  ∃ s1 w1 s2 w2 s3 w3 s4 w4 out,
    stream_seek (Some s) p w = Done (p, Some s1, w1) ∧
    stream_write fuel (Some s1) (Some data) (Z.of_nat (length data)) w1
      = Done (Z.of_nat (length data), Some s2, w2) ∧
    stream_seek (Some s2) p w2 = Done (p, Some s3, w3) ∧
    stream_read fuel (Some s3) (Some ubuf) (Z.of_nat (length data)) w3
      = Done (Z.of_nat (length data), Some s4, Some out, w4) ∧
    take (length data) out = data.
Proof.
  intros Hinv Hr Hw Hq Hp Ho Hu Hf. set (n := Z.of_nat (length data)) in *.
  pose proof (inv_blk _ _ Hinv) as Hblk. pose proof (inv_end _ _ Hinv) as Hend.
  (* seek *)
  assert (E1 : stream_seek (Some s) p w = Done (p, Some (set_cur p s), w)).
  { rewrite stream_seek_spec by (done || unfold LONG_MIN; lia).
    destruct (Z.ltb_spec p 0); [lia|]. simpl.
    destruct (Z.leb_spec 0 p), (Z.leb_spec p (s_end s)); try lia. done. }
  pose proof (stream_inv_set_cur s w p Hinv Hp) as Hinv1.
  (* write *)
  destruct (stream_write_total fuel (set_cur p s) data n w)
    as (s2 & w2 & d' & E2 & Hinv2 & (Hb2 & Hm2 & Hd2) & Hq2 & Hc2 & He2 & Hd' & Hin);
    auto; try (simpl; lia).
  simpl in *.
  (* seek back *)
  assert (Hp2 : 0 ≤ p ≤ s_end s2) by lia.
  assert (E3 : stream_seek (Some s2) p w2 = Done (p, Some (set_cur p s2), w2)).
  { rewrite stream_seek_spec by (done || unfold LONG_MIN; lia).
    destruct (Z.ltb_spec p 0); [lia|]. simpl.
    destruct (Z.leb_spec 0 p), (Z.leb_spec p (s_end s2)); try lia. done. }
  pose proof (stream_inv_set_cur s2 w2 p Hinv2 Hp2) as Hinv3.
  (* read *)
  assert (Hmin : Z.min n (s_end (set_cur p s2) - s_cur (set_cur p s2)) = n) by (simpl; lia).
  destruct (stream_read_total fuel (set_cur p s2) ubuf n w2)
    as (s4 & out & w4 & d & E4 & _ & _ & _ & _ & _ & _ & _ & _ & Hd4 & Hl & Hout & _);
    auto; try (rewrite Hmin; simpl; lia); try (simpl; lia).
  { unfold readable in *. simpl. by rewrite Hm2. }
  rewrite Hmin in *. simpl in Hd4, Hout. rewrite Hd2, Hd' in Hd4. injection Hd4 as <-.
  exists (set_cur p s), w, s2, w2, (set_cur p s2), w2, s4, w4, out.
  split_and!; auto.
  apply list_eq. intros i. destruct (decide (i < length data)%nat) as [Hi|Hi].
  - rewrite lookup_take_lt by done. rewrite Hout by lia. apply Hin. lia.
  - rewrite lookup_take_ge by lia. symmetry. apply lookup_ge_None. lia.
Qed.

(** C2: at the top of the address range a read within the stream does
    not return. On the same file, with the cursor ten bytes below the
    end, the read of five bytes - min(5, end - cursor) is 5, and the
    buffer has room for them - has undefined behaviour, for the same
    window bound. *)
Theorem read_top_block :
  stream_inv (top_stream (LONG_MAX - 10)) top_world ∧
  readable (top_stream (LONG_MAX - 10)) ∧ quiet top_world ∧
  s_cur (top_stream (LONG_MAX - 10)) ≤ s_end (top_stream (LONG_MAX - 10)) ∧
  Z.min 5 (s_end (top_stream (LONG_MAX - 10)) - s_cur (top_stream (LONG_MAX - 10))) = 5 ∧
  stream_read 6 (Some (top_stream (LONG_MAX - 10))) (Some ten_bytes) 5 top_world = Undef.
Proof.
  split_and!.
  - apply top_stream_inv. unfold LONG_MAX. lia.
  - reflexivity.
  - apply top_world_quiet.
  - unfold top_stream, demo_stream, LONG_MAX. cbn [s_cur s_end]. lia.
  - reflexivity.
  - apply (top_block_overflows 6 (top_stream (LONG_MAX - 10)) top_world ten_bytes 5).
    + unfold top_stream, demo_stream, LONG_MAX. cbn [s_cur]. lia.
    + unfold top_stream, demo_stream. cbn [s_blk]. lia.
    + reflexivity.
    + by vm_compute.
    + unfold LONG_MAX. lia.
    + lia.
    + reflexivity.
    + unfold top_stream, demo_stream, LONG_MAX. cbn [s_cur s_end]. lia.
Qed.

(** Below the top of the address range a read of [len] bytes returns
    min(len, end - cursor): with the cursor at the end it returns 0 at
    once, and otherwise, when the system does not fail and the bound of
    the last window is representable, it delivers that many bytes of the
    file, from the cursor on, at the front of the caller's buffer and
    leaves the rest of the buffer and the files as they were. Whatever the
    system does, the only other way for the call to return is -1, on a
    failure of the system. *)
Theorem read_returns_available fuel s w ubuf len :
  stream_inv s w → readable s → 0 ≤ len ≤ LONG_MAX →
  let n := Z.min len (s_end s - s_cur s) in
  n ≤ Z.of_nat (length ubuf) →
  (s_cur s = s_end s → (0 < fuel)%nat →
     n = 0 ∧ stream_read fuel (Some s) (Some ubuf) len w = Done (0, Some s, Some ubuf, w)) ∧
  (quiet w → s_cur s + n + s_blk s ≤ LONG_MAX → n < Z.of_nat fuel →
     ∃ s' out w' d,
       stream_read fuel (Some s) (Some ubuf) len w = Done (n, Some s', Some out, w') ∧
       s_cur s' = s_cur s + n ∧ s_end s' = s_end s ∧
       w_fs w' = w_fs w ∧ fd_file w (s_des s) = Some d ∧
       take (Z.to_nat n) out = take (Z.to_nat n) (drop (Z.to_nat (s_cur s)) d) ∧
       drop (Z.to_nat n) out = drop (Z.to_nat n) ubuf) ∧
  (∀ r s' out w',
     stream_read fuel (Some s) (Some ubuf) len w = Done (r, s', out, w') →
     (r = n ∧ ∃ s1, s' = Some s1 ∧ s_cur s1 = s_cur s + n) ∨ (r = -1 ∧ ¬ quiet w)).
Proof.
  intros Hinv Hr Hlen n Hb. pose proof (inv_cur _ _ Hinv) as Hc.
  pose proof (inv_end _ _ Hinv) as He0.
  split_and!.
  - intros He Hf. assert (n = 0) as Hn by lia. split; [done|].
    rewrite stream_read_checks by done. fold n. rewrite Hn.
    destruct fuel as [|fuel]; [lia|]. simpl.
    destruct (Z.ltb_spec (s_cur s) (s_cur s + 0)); [lia|]. done.
  - intros Hq Ho Hf.
    destruct (stream_read_total fuel s ubuf len w)
      as (s1 & b' & w1 & d & E & _ & _ & _ & Hc1 & He1 & _ & Hfs & _ & Hd & Hl & Hin & Hout);
      auto.
    fold n in E, Hc1, Hin, Hout.
    exists s1, b', w1, d. split_and!; auto.
    + apply list_eq. intros i. destruct (decide (i < Z.to_nat n)%nat) as [Hi|Hi].
      * rewrite !lookup_take_lt, lookup_drop by done. rewrite Hin by lia. f_equal. lia.
      * by rewrite !lookup_take_ge by lia.
    + apply list_eq. intros i. rewrite !lookup_drop. apply Hout. lia.
  - intros r s' out w' H. rewrite stream_read_checks in H by done. fold n in H.
    inv_bind H. destruct a as [[[r1 s1] b1] w1]. injection H as <- <- <- <-.
    apply read_loop_spec in Ha
      as (_ & _ & _ & _ & _ & _ & _ & _ & _ & _ & _ & (d & _ & Hcase & Hok));
      [|done|lia..].
    assert (Hn : delivered (s_cur s + n) 0 s d r1 s1 b1 → r1 = n ∧ s_cur s1 = s_cur s + n).
    { intros (-> & Hcs & _). lia. }
    destruct Hcase as [->|Hd].
    + right. split; [done|]. intros Q. destruct (Hn (Hok Q)) as [E _]. lia.
    + left. destruct (Hn Hd) as [-> E]. split; [done|]. by exists s1.
Qed.

(** C3: seek to [p] succeeds exactly when the position it resolves to,
    [p + end] for a negative [p] and [p] otherwise, lies in [0, end]; it
    then returns that position, and tell returns it afterwards. Otherwise
    seek returns -1 with [errno = ERANGE] and the cursor stays. *)
Theorem seek_bounds s w p :
  stream_inv s w → LONG_MIN ≤ p ≤ LONG_MAX →
  let q := if p <? 0 then p + s_end s else p in
  (0 ≤ q ≤ s_end s →
     ∃ s', stream_seek (Some s) p w = Done (q, Some s', w) ∧ q ≠ -1 ∧
           stream_tell (Some s') w = (q, w)) ∧
  (¬ (0 ≤ q ≤ s_end s) →
     ∃ w', stream_seek (Some s) p w = Done (-1, Some s, w') ∧
           w_errno w' = ERANGE ∧ stream_tell (Some s) w' = (s_cur s, w')).
Proof.
  intros Hinv Hp q. rewrite stream_seek_spec by done. fold q. simpl.
  destruct (Z.leb_spec 0 q), (Z.leb_spec q (s_end s)); simpl; split; intros Hq; try lia.
  - exists (set_cur q s). split_and!; [done|lia|done].
  - by eexists.
  - by eexists.
  - by eexists.
Qed.

(** C4: a write that returns without error has written the whole
    request: it returns [len] and the cursor has moved by [len]. The call
    never uses up its turns, whatever the system does; and on a stream
    open for reading and writing (a descriptor open for writing only
    cannot be mapped) it does succeed when the system does not fail and
    the bound of the last window is representable. *)
Theorem write_never_short fuel s w data len :
  stream_inv s w → writable s → 0 ≤ len → s_cur s + len ≤ LONG_MAX →
  len < Z.of_nat fuel →
  stream_write fuel (Some s) (Some data) len w ≠ Timeout ∧
  (∀ r s' w', stream_write fuel (Some s) (Some data) len w = Done (r, s', w') →
     r ≠ -1 → r = len ∧ ∃ s1, s' = Some s1 ∧ s_cur s1 = s_cur s + len) ∧
  (quiet w → readable s → s_cur s + len + s_blk s ≤ LONG_MAX →
   len ≤ Z.of_nat (length data) →
     ∃ s1 w1, stream_write fuel (Some s) (Some data) len w = Done (len, Some s1, w1)).
Proof.
  intros Hinv Hw Hlen Hmax Hf. pose proof (inv_cur _ _ Hinv) as Hc.
  split_and!.
  - rewrite stream_write_checks by (done || lia).
    destruct (_ >? _); [done|].
    rewrite long_in by (unfold LONG_MIN; lia). simpl.
    apply bind_not_Timeout; [|by intros [[? ?] ?]].
    apply write_loop_not_Timeout; [done|lia..].
  - intros r s' w' H Hr.
    apply stream_write_spec in H; [|done].
    destruct H as (s1 & -> & _ & _ & Hc1 & _ & _ & _ & [->|Hok]); [done|].
    destruct Hok as (b & d' & _ & _ & _ & _ & _ & (-> & Hcs & _)).
    split; [lia|]. exists s1. split; [done|lia].
  - intros Hq Hr Ho Hb.
    destruct (stream_write_total fuel s data len w) as (s1 & w1 & d' & E & _); auto.
    by exists s1, w1.
Qed.

(** C5: at every stream a program can hold, after open and after every
    read, write, seek and sync, 0 <= cursor <= end <= tracked file size,
    and the tracked size is the size of the file. *)
Theorem cursor_end_size s w :
  reachable s w →
  0 ≤ s_cur s ∧ s_cur s ≤ s_end s ∧ s_end s ≤ s_siz s ∧
  ∃ data, fd_file w (s_des s) = Some data ∧ Z.of_nat (length data) = s_siz s.
Proof.
  intros H. apply reachable_inv in H as [? [? ?] [? ?] ? ?]. by split_and!.
Qed.

(** C6: the block size of an opened stream is the page size, or the
    preferred block size of the file system; it is the preferred size only
    when that is a whole multiple, more than once, of the page size, and
    the page size whenever it is not. *)
Theorem open_block_size path mode w s w' :
  stream_open path mode w = (Some s, w') →
  1 ≤ w_pagesize w ∧
  (s_blk s = w_pagesize w ∨ s_blk s = w_blksize w) ∧
  (s_blk s ≠ w_pagesize w → clean_multiple (w_pagesize w) (w_blksize w)) ∧
  (¬ clean_multiple (w_pagesize w) (w_blksize w) → s_blk s = w_pagesize w) ∧
  (clean_multiple (w_pagesize w) (w_blksize w) → w_blksize w < LONG_MAX →
     s_blk s = w_blksize w).
Proof.
  intros H. apply stream_open_spec in H as (_ & _ & _ & _ & Hp & ->).
  destruct (choose_blk_spec (w_pagesize w) (w_blksize w) Hp) as [(-> & Hl & Hc)|(-> & Hn)].
  - split_and!; auto. intros Hn. by destruct Hn.
  - split_and!; auto; try done.
    intros Hc Hl. by destruct (Hn Hl).
Qed.

(** C7, amended: when cursor + len would overflow, write fails with
    [EFBIG] before any call of the system, leaving the control block and
    the files as they were; when it would not, a write that fails with
    [EFBIG] passes on a failure the system reported with that code. *)
Theorem write_too_large fuel s w data len :
  stream_inv s w → writable s → 0 ≤ len ≤ LONG_MAX →
  (LONG_MAX < s_cur s + len →
     stream_write fuel (Some s) (Some data) len w = Done (-1, Some s, set_errno EFBIG w)) ∧
  (s_cur s + len ≤ LONG_MAX →
     ∀ s' w', stream_write fuel (Some s) (Some data) len w = Done (-1, s', w') →
              w_errno w' = EFBIG → reports EFBIG w).
Proof.
  intros Hinv Hw Hlen. rewrite stream_write_checks by done. rewrite Z.gtb_ltb.
  split; intros Ho.
  - destruct (Z.ltb_spec (LONG_MAX - len) (s_cur s)); [done|lia].
  - destruct (Z.ltb_spec (LONG_MAX - len) (s_cur s)); [lia|].
    intros s' w' Hsw He. inv_bind Hsw. inv_bind Hsw. destruct a0 as [[r s1] w1].
    injection Hsw as -> <- <-.
    apply write_loop_later in Ha0 as [_ Hr]; [|done|lia].
    rewrite He in Hr. destruct (Hr eq_refl) as [?|[E|[E|E]]]; [done|discriminate..].
Qed.

(** C8: sync hands back the control block as it was (cursor, end and
    window included) and leaves files and descriptors alone, whether it
    returns 0 or, on a failure of the system, -1; without a window it
    returns 0 and does nothing at all; and when the system does not fail,
    two syncs in a row return 0, the second one finding and leaving the
    files as the first one left them. *)
Theorem sync_frame s w :
  ∃ r w1, stream_sync (Some s) w = (r, Some s, w1) ∧
    w_fs w1 = w_fs w ∧ w_fds w1 = w_fds w ∧
    (r = 0 ∨ (r = -1 ∧ ¬ quiet w)) ∧
    (s_buf s = None → r = 0 ∧ w1 = w) ∧
    (quiet w → r = 0 ∧
       ∃ w2, stream_sync (Some s) w1 = (0, Some s, w2) ∧
             w_fs w2 = w_fs w1 ∧ w_fds w2 = w_fds w1).
Proof.
  destruct (stream_sync_spec s w) as (r & w1 & E & Hfs & Hfds & Hq & Hn & Hr).
  exists r, w1. split_and!; auto.
  intros Q. destruct (Hq Q) as [Q1 ->]. split; [done|].
  destruct (stream_sync_spec s w1) as (r2 & w2 & E2 & Hfs2 & Hfds2 & Hq2 & _).
  destruct (Hq2 Q1) as [_ ->]. by exists w2.
Qed.

(** C9, amended: between calls a window held is a non-empty region that
    starts on a block boundary, is at most one block long and lies inside
    the file; the cursor need not be inside it. Right after a read or a
    write that moved at least one byte a window is held with
    offset < cursor <= bound, the cursor possibly on the bound; and seek
    moves the cursor without touching the window. *)
Theorem window_between_calls s w :
  reachable s w →
  match s_buf s with
  | None => True
  | Some _ => 0 ≤ s_off s ∧ Z.rem (s_off s) (s_blk s) = 0 ∧ 0 < s_len s ≤ s_blk s ∧
              s_brk s = s_off s + s_len s ∧ s_brk s ≤ s_siz s
  end ∧
  (∀ fuel buf len r s' w',
     stream_write fuel (Some s) buf len w = Done (r, Some s', w') → 0 < r →
     is_Some (s_buf s') ∧ s_off s' < s_cur s' ≤ s_brk s') ∧
  (∀ fuel buf len r s' buf' w',
     stream_read fuel (Some s) buf len w = Done (r, Some s', buf', w') → 0 < r →
     is_Some (s_buf s') ∧ s_off s' < s_cur s' ≤ s_brk s') ∧
  (∀ p r s' w',
     LONG_MIN ≤ p ≤ LONG_MAX →
     stream_seek (Some s) p w = Done (r, Some s', w') →
     s_buf s' = s_buf s ∧ s_off s' = s_off s ∧ s_len s' = s_len s ∧ s_brk s' = s_brk s).
Proof.
  intros H. apply reachable_inv in H. split_and!.
  - pose proof (inv_win _ _ H) as Hw. unfold window_ok in Hw.
    destruct (s_buf s); [|done]. tauto.
  - intros fuel buf len r s' w' E Hr.
    apply stream_write_spec in E; [|done].
    destruct E as (s1 & [= <-] & _ & _ & _ & _ & _ & _ & [->|Hok]); [lia|].
    destruct Hok as (b & d' & _ & _ & _ & _ & _ & (-> & Hcs & _ & Hwin & _)).
    apply Hwin. lia.
  - intros fuel buf len r s' buf' w' E Hr.
    apply stream_read_spec in E; [|done].
    destruct E as (s1 & [= <-] & _ & _ & _ & _ & _ & _ & _ & _ & [->|Hok]); [lia|].
    destruct Hok as (b & b' & d & _ & _ & _ & _ & _ & (-> & Hcs & Hwin & _)).
    apply Hwin. lia.
  - intros p r s' w' Hp E.
    apply stream_seek_inv in E; [|done..].
    destruct E as (s1 & [= <-] & _ & _ & ? & ? & ? & ? & _). done.
Qed.

(** C10: on a NULL handle write, read, seek, tell, end and sync return -1
    with [errno] set to [EINVAL] and touch nothing else; close on a NULL
    handle does nothing. *)
Theorem null_handle fuel (buf : option (list Byte.byte)) (len pos : Z) (w : world) :
  stream_write fuel None buf len w = Done (-1, None, set_errno EINVAL w) ∧
  stream_read fuel None buf len w = Done (-1, None, buf, set_errno EINVAL w) ∧
  stream_seek None pos w = Done (-1, None, set_errno EINVAL w) ∧
  stream_tell None w = (-1, set_errno EINVAL w) ∧
  stream_end None w = (-1, set_errno EINVAL w) ∧
  stream_sync None w = (-1, None, set_errno EINVAL w) ∧
  stream_close None w = w ∧
  w_fs (set_errno EINVAL w) = w_fs w ∧ w_fds (set_errno EINVAL w) = w_fds w ∧
  w_faults (set_errno EINVAL w) = w_faults w.
Proof. by split_and!. Qed.

(** ** Concrete streams *)

(** The write returns 10 and moves the end to 10 while the file has
    grown to one block; the read returns the ten bytes; after close the
    file is ten bytes long. *)
Example first_scenario_runs :
  first_scenario = Done (10, 10, 10, Some ten_bytes, Some 4096, Some 10).
Proof. vm_compute. reflexivity. Qed.

(** Evaluate the call on the left of an equation. *)
Ltac run_call :=
  match goal with
  | |- ?t = _ =>
    let x := fresh "x" in
    let E := fresh "E" in
    remember t as x eqn:E; vm_compute in E; subst x; reflexivity
  end.

(** C9, as stated, fails. Open the ten-byte file and read its ten
    bytes: the window [0, 10) is held and the cursor sits on its bound.
    Create a file, write 4097 bytes and seek to 0 ([seek_back]): the
    window [4096, 8192) is held and the cursor is below its offset. *)
Lemma held_window_counterexample :
  (∃ s0 w0 s out w,
     stream_open (Some "data"%string) "r" (closed_world []) = (Some s0, w0) ∧
     stream_read 2 (Some s0) (Some (replicate 10 Byte.x00)) 10 w0
       = Done (10, Some s, out, w) ∧
     reachable s w ∧
     is_Some (s_buf s) ∧ s_off s = 0 ∧ s_brk s = 10 ∧ s_cur s = 10 ∧
     ¬ (s_off s ≤ s_cur s < s_brk s)) ∧
  (∃ s w,
     seek_back = Done (0, Some s, w) ∧
     reachable s w ∧
     is_Some (s_buf s) ∧ s_off s = 4096 ∧ s_brk s = 8192 ∧ s_cur s = 0 ∧
     ¬ (s_off s ≤ s_cur s < s_brk s)).
Proof.
  split.
  - do 5 eexists. split; [run_call|]. split; [run_call|]. split.
    { eapply (reach_read 2%nat _ _ (Some (replicate 10 Byte.x00)) 10);
        [apply (reach_open (Some "data"%string) "r" (closed_world [])); run_call|].
      run_call. }
    simpl. split_and!; eauto. lia.
  - assert (F : match seek_back with
                | Done (r, Some s, _) =>
                  r = 0 ∧ s_buf s = Some (Mapping 0 4096 4096 3) ∧
                  s_off s = 4096 ∧ s_brk s = 8192 ∧ s_cur s = 0
                | _ => False
                end) by (vm_compute; by split_and!).
    destruct seek_back as [[[r [s|]] w]| |] eqn:E; try contradiction.
    destruct F as (-> & Hb & Ho & Hk & Hc).
    exists s, w. split; [reflexivity|]. split.
    { unfold seek_back in E. inv_bind E. destruct a as [[n s1] w1].
      destruct (stream_open _ _ _) as [[s0|] w0] eqn:Eo; cbn [fst snd] in Ha.
      2:{ injection Ha as <- <- <-. discriminate. }
      destruct s1 as [s1|].
      2:{ apply stream_write_spec in Ha as (? & [=] & _).
          by apply stream_open_spec in Eo as (? & _). }
      eapply (reach_seek s1 w1 0); [|unfold LONG_MIN, LONG_MAX; lia|exact E].
      eapply reach_write; [|exact Ha]. eapply reach_open. exact Eo. }
    rewrite Hb, Ho, Hk, Hc. split_and!; eauto. lia.
Qed.

(** C7, as stated, fails: on a new file, with a system whose
    [ftruncate] refuses to grow it and reports [EFBIG] (as it does beyond
    the file size limit), the write of one byte at cursor 0 fails with
    [EFBIG] and cursor, end and size stay, though 0 + 1 does not overflow.
    The first three entries of the schedule let [open], [fstat] and
    [malloc] of [stream_open] through. *)
Lemma write_too_large_counterexample :
  ∃ s0 w0 s w,
    stream_open (Some "new"%string) "w+" (closed_world [None; None; None; Some EFBIG])
      = (Some s0, w0) ∧
    writable s0 ∧ s_cur s0 + 1 ≤ LONG_MAX ∧
    stream_write 2 (Some s0) (Some [Byte.x41]) 1 w0 = Done (-1, Some s, w) ∧
    w_errno w = EFBIG ∧
    s_cur s = s_cur s0 ∧ s_end s = s_end s0 ∧ s_siz s = s_siz s0 ∧
    fd_file w (s_des s) = fd_file w0 (s_des s0).
Proof.
  do 4 eexists. split; [run_call|]. split; [reflexivity|].
  split; [simpl; unfold LONG_MAX; lia|].
  split; [run_call|]. by split_and!.
Qed.

(** ** The claims at concrete streams *)

Ltac demo_inv :=
  split;
  [ simpl; lia
  | simpl; lia
  | simpl; unfold LONG_MAX; lia
  | eexists; split; [run_call|vm_compute; reflexivity]
  | exact I ].

(** The round trip across a block boundary: ten bytes written at offset 4095 of a
    4100-byte file come back from a read at 4095. *)
Lemma write_read_roundtrip_witness :
  ∃ s1 w1 s2 w2 s3 w3 s4 w4 out,
    stream_seek (Some (demo_stream 0 4100)) 4095 (demo_world 4100 [])
      = Done (4095, Some s1, w1) ∧
    stream_write 11 (Some s1) (Some ten_bytes) 10 w1 = Done (10, Some s2, w2) ∧
    stream_seek (Some s2) 4095 w2 = Done (4095, Some s3, w3) ∧
    stream_read 11 (Some s3) (Some (replicate 10 Byte.x00)) 10 w3
      = Done (10, Some s4, Some out, w4) ∧
    take 10 out = ten_bytes.
Proof.
  apply (write_read_roundtrip 11 (demo_stream 0 4100) (demo_world 4100 [])
           ten_bytes (replicate 10 Byte.x00) 4095).
  - demo_inv.
  - reflexivity.
  - reflexivity.
  - apply Forall_nil_2.
  - simpl. lia.
  - simpl. unfold LONG_MAX. lia.
  - simpl. lia.
  - simpl. lia.
Defined.

(** The read at the end of the stream: twenty bytes asked ten before the
    end. *)
Lemma read_returns_available_witness :
  ∃ s' out w' d,
    stream_read 11 (Some (demo_stream 4090 4100)) (Some (replicate 20 Byte.x00)) 20
      (demo_world 4100 []) = Done (10, Some s', Some out, w') ∧
    s_cur s' = 4090 + 10 ∧ s_end s' = 4100 ∧
    w_fs w' = w_fs (demo_world 4100 []) ∧
    fd_file (demo_world 4100 []) 3 = Some d ∧
    take 10 out = take 10 (drop 4090 d) ∧
    drop 10 out = drop 10 (replicate 20 Byte.x00).
Proof.
  refine (proj1 (proj2 (read_returns_available 11 (demo_stream 4090 4100)
                          (demo_world 4100 []) (replicate 20 Byte.x00) 20 _ _ _ _)) _ _ _).
  - demo_inv.
  - reflexivity.
  - unfold LONG_MAX. lia.
  - simpl. lia.
  - apply Forall_nil_2.
  - simpl. unfold LONG_MAX. lia.
  - simpl. lia.
Defined.

(** C3 on a stream with end = 100: seek(-1) resolves to 99, seek(-200)
    fails with [ERANGE]. *)
Lemma seek_bounds_witness :
  (∃ s', stream_seek (Some (demo_stream 0 100)) (-1) (demo_world 100 [])
           = Done (99, Some s', demo_world 100 []) ∧ 99 ≠ -1 ∧
         stream_tell (Some s') (demo_world 100 []) = (99, demo_world 100 [])) ∧
  (∃ w', stream_seek (Some (demo_stream 0 100)) (-200) (demo_world 100 [])
           = Done (-1, Some (demo_stream 0 100), w') ∧ w_errno w' = ERANGE ∧
         stream_tell (Some (demo_stream 0 100)) w' = (0, w')).
Proof.
  split.
  - refine (proj1 (seek_bounds (demo_stream 0 100) (demo_world 100 []) (-1) _ _) _).
    + demo_inv.
    + unfold LONG_MIN, LONG_MAX. lia.
    + simpl. lia.
  - refine (proj2 (seek_bounds (demo_stream 0 100) (demo_world 100 []) (-200) _ _) _).
    + demo_inv.
    + unfold LONG_MIN, LONG_MAX. lia.
    + simpl. lia.
Defined.

(** C4 on an empty file: ten bytes written at cursor 0. *)
Lemma write_never_short_witness :
  stream_write 11 (Some (demo_stream 0 0)) (Some ten_bytes) 10 (demo_world 0 []) ≠ Timeout ∧
  (∀ r s' w',
     stream_write 11 (Some (demo_stream 0 0)) (Some ten_bytes) 10 (demo_world 0 [])
       = Done (r, s', w') →
     r ≠ -1 → r = 10 ∧ ∃ s1, s' = Some s1 ∧ s_cur s1 = 0 + 10) ∧
  (quiet (demo_world 0 []) → readable (demo_stream 0 0) →
   0 + 10 + 4096 ≤ LONG_MAX → 10 ≤ Z.of_nat 10 →
     ∃ s1 w1,
       stream_write 11 (Some (demo_stream 0 0)) (Some ten_bytes) 10 (demo_world 0 [])
         = Done (10, Some s1, w1)).
Proof.
  apply (write_never_short 11 (demo_stream 0 0) (demo_world 0 []) ten_bytes 10).
  - demo_inv.
  - reflexivity.
  - lia.
  - simpl. unfold LONG_MAX. lia.
  - simpl. lia.
Defined.

(** C5 right after open and after a read of the whole ten-byte file. *)
Lemma cursor_end_size_witness :
  ∃ s0 w0 s out w,
    stream_open (Some "data"%string) "r" (closed_world []) = (Some s0, w0) ∧
    stream_read 2 (Some s0) (Some (replicate 10 Byte.x00)) 10 w0
      = Done (10, Some s, out, w) ∧
    (0 ≤ s_cur s0 ∧ s_cur s0 ≤ s_end s0 ∧ s_end s0 ≤ s_siz s0 ∧
     ∃ data, fd_file w0 (s_des s0) = Some data ∧ Z.of_nat (length data) = s_siz s0) ∧
    (0 ≤ s_cur s ∧ s_cur s ≤ s_end s ∧ s_end s ≤ s_siz s ∧
     ∃ data, fd_file w (s_des s) = Some data ∧ Z.of_nat (length data) = s_siz s).
Proof.
  do 5 eexists. split; [run_call|]. split; [run_call|]. split.
  - apply cursor_end_size.
    apply (reach_open (Some "data"%string) "r" (closed_world [])). run_call.
  - apply cursor_end_size.
    eapply (reach_read 2%nat _ _ (Some (replicate 10 Byte.x00)) 10);
      [apply (reach_open (Some "data"%string) "r" (closed_world [])); run_call|].
    run_call.
Defined.

(** C6 with 4096-byte pages and a preferred block size of 4096: the page
    size is kept. *)
Lemma open_block_size_witness :
  ∃ s w',
    stream_open (Some "data"%string) "r" (closed_world []) = (Some s, w') ∧
    1 ≤ 4096 ∧ (s_blk s = 4096 ∨ s_blk s = 4096) ∧
    (s_blk s ≠ 4096 → clean_multiple 4096 4096) ∧
    (¬ clean_multiple 4096 4096 → s_blk s = 4096) ∧
    (clean_multiple 4096 4096 → 4096 < LONG_MAX → s_blk s = 4096).
Proof.
  do 2 eexists. split; [run_call|].
  eapply (open_block_size (Some "data"%string) "r" (closed_world [])).
  run_call.
Defined.

(** C7, amended, at a request that overflows: cursor 10, LONG_MAX bytes. *)
Lemma write_too_large_witness :
  stream_write 1 (Some (demo_stream 10 10)) (Some ten_bytes) LONG_MAX (demo_world 10 [])
    = Done (-1, Some (demo_stream 10 10), set_errno EFBIG (demo_world 10 [])).
Proof.
  refine (proj1 (write_too_large 1 (demo_stream 10 10) (demo_world 10 []) ten_bytes
                   LONG_MAX _ _ _) _).
  - demo_inv.
  - reflexivity.
  - unfold LONG_MAX. lia.
  - simpl. unfold LONG_MAX. lia.
Defined.

(** C8 with the window [0, 4096) held: two syncs in a row. *)
Lemma sync_frame_witness :
  ∃ r w1,
    stream_sync (Some (set_buf (Some (Mapping 3 0 4096 3)) (demo_stream 0 4096)))
      (demo_world 4096 []) = (r, Some (set_buf (Some (Mapping 3 0 4096 3)) (demo_stream 0 4096)), w1) ∧
    r = 0 ∧ w_fs w1 = w_fs (demo_world 4096 []) ∧
    ∃ w2, stream_sync (Some (set_buf (Some (Mapping 3 0 4096 3)) (demo_stream 0 4096))) w1
            = (0, Some (set_buf (Some (Mapping 3 0 4096 3)) (demo_stream 0 4096)), w2) ∧
          w_fs w2 = w_fs w1.
Proof.
  destruct (sync_frame (set_buf (Some (Mapping 3 0 4096 3)) (demo_stream 0 4096))
              (demo_world 4096 [])) as (r & w1 & E & Hfs & _ & _ & _ & Hq).
  destruct (Hq (Forall_nil_2 _)) as (-> & w2 & E2 & Hfs2 & _).
  exists 0, w1. split_and!; auto. by exists w2.
Defined.

(** C9, amended, after the read of the whole ten-byte file. *)
Lemma window_between_calls_witness :
  ∃ s0 w0 s out w,
    stream_open (Some "data"%string) "r" (closed_world []) = (Some s0, w0) ∧
    stream_read 2 (Some s0) (Some (replicate 10 Byte.x00)) 10 w0
      = Done (10, Some s, out, w) ∧
    s_buf s0 = None ∧
    (is_Some (s_buf s) ∧ s_off s < s_cur s ≤ s_brk s) ∧
    (0 ≤ s_off s ∧ Z.rem (s_off s) (s_blk s) = 0 ∧ 0 < s_len s ≤ s_blk s ∧
     s_brk s = s_off s + s_len s ∧ s_brk s ≤ s_siz s).
Proof.
  do 5 eexists. split; [run_call|]. split; [run_call|]. split; [reflexivity|].
  split.
  - refine (proj1 (proj2 (proj2 (window_between_calls _ _ _)))
              2%nat (Some (replicate 10 Byte.x00)) 10 10 _ _ _ _ _).
    + apply (reach_open (Some "data"%string) "r" (closed_world [])). run_call.
    + run_call.
    + lia.
  - match goal with
    | |- 0 ≤ s_off ?s ∧ _ => refine (proj1 (window_between_calls s _ _))
    end.
    eapply (reach_read 2%nat _ _ (Some (replicate 10 Byte.x00)) 10);
      [apply (reach_open (Some "data"%string) "r" (closed_world [])); run_call|].
    run_call.
Defined.

(** * Further properties of the code *)

(** ** Opening *)

(** X1: [stream_open] looks at its arguments, then at the page size,
    before it asks the system for a descriptor: a NULL path or a mode that
    starts with neither [r] nor [w] (the empty mode included) gives NULL
    with [EINVAL], a page size below 1 gives NULL with [ENOTSUP], and in
    both cases only [errno] has changed. *)
Theorem open_checks_first path mode w :
  (path = None ∨ (mode_char mode 0 ≠ "r"%char ∧ mode_char mode 0 ≠ "w"%char) →
   stream_open path mode w = (None, set_errno EINVAL w)) ∧
  (is_Some path → mode_char mode 0 = "r"%char ∨ mode_char mode 0 = "w"%char →
   w_pagesize w < 1 → stream_open path mode w = (None, set_errno ENOTSUP w)).
Proof.
  split.
  - intros [->|[Hr Hw]]; [done|]. destruct path as [p|]; [|done].
    unfold stream_open, is_char. rewrite !bool_decide_false by done. reflexivity.
  - intros [p ->] Hm Hp. unfold stream_open, is_char, sys_pagesize.
    replace (negb (bool_decide _) && negb (bool_decide _)) with false.
    + simpl. by destruct (Z.ltb_spec (w_pagesize w) 1); [|lia].
    + destruct Hm as [-> | ->]; by vm_compute.
Qed.

(** X2: when [stream_open] returns NULL the descriptor table is what it
    was before the call - a descriptor obtained is closed again on the
    way out - and the files are what they were, except that a mode in [w]
    may already have created or emptied the file named. *)
Theorem open_failure_releases path mode w w' :
  stream_open path mode w = (None, w') →
  w_fds w' = w_fds w ∧
  (w_fs w' = w_fs w ∨
   ∃ p, path = Some p ∧ mode_char mode 0 = "w"%char ∧ w_fs w' = <[p := []]> (w_fs w)).
Proof.
  destruct path as [p|]; [|intros [= <-]; by split; [|left]].
  intros H. apply stream_open_effect in H as (_ & Hfds & Hfs & _).
  split; [done|]. destruct Hfs as [?|[? ?]]; [by left|right; by exists p].
Qed.

(** X3: the capabilities of a stream follow from the first two characters
    of the mode alone: it can be read when the mode starts with [r] or
    has [+] in second place, written when it starts with [w] or has [+]
    in second place. *)
Theorem open_mode_capabilities path mode w s w' :
  stream_open path mode w = (Some s, w') →
  s_mod s = mode_prot mode ∧
  (readable s ↔ mode_char mode 0 = "r"%char ∨ mode_char mode 1 = "+"%char) ∧
  (writable s ↔ mode_char mode 0 = "w"%char ∨ mode_char mode 1 = "+"%char).
Proof.
  destruct path as [p|]; [|discriminate].
  intros H. apply stream_open_effect in H as (_ & _ & _ & _ & Hmod & _ & _ & _ & Hm).
  split; [done|]. unfold readable, writable. rewrite Hmod. unfold mode_prot, is_char.
  assert (Hc : mode_char mode 0 = "w"%char ∨ mode_char mode 0 = "r"%char)
    by (destruct Hm as [[? _]|[? _]]; auto).
  clear Hm.
  destruct (decide (mode_char mode 1 = "+"%char)) as [Hp|Hp];
    destruct (decide (mode_char mode 0 = "w"%char)) as [Hw|Hw].
  all: rewrite ?(bool_decide_true (mode_char mode 1 = "+"%char)) by done.
  all: rewrite ?(bool_decide_false (mode_char mode 1 = "+"%char)) by done.
  all: rewrite ?(bool_decide_true (mode_char mode 0 = "w"%char)) by done.
  all: rewrite ?(bool_decide_false (mode_char mode 0 = "w"%char)) by done.
  all: split; split; intros H; try (by vm_compute); try (vm_compute in H; discriminate); auto.
  all: try (destruct H; congruence).
  all: destruct Hc; [congruence|auto].
Qed.

(** X4: a stream just opened has no window, its cursor at 0 and its end
    at the size of the file; its descriptor is one that was free and now
    names the path. A mode in [w] leaves the file empty (end 0), created
    if need be; a mode in [r] needs the file to exist and leaves every
    file as it was. *)
Theorem open_initial_state path mode w s w' :
  stream_open (Some path) mode w = (Some s, w') →
  s_buf s = None ∧ s_cur s = 0 ∧ s_end s = s_siz s ∧
  0 ≤ s_des s ∧ w_fds w !! s_des s = None ∧
  w_fds w' = <[s_des s := path]> (w_fds w) ∧
  ((mode_char mode 0 = "w"%char ∧ s_end s = 0 ∧ w_fs w' = <[path := []]> (w_fs w)) ∨
   (mode_char mode 0 = "r"%char ∧ w_fs w' = w_fs w ∧
    ∃ data, w_fs w !! path = Some data ∧ s_end s = Z.of_nat (length data))).
Proof.
  intros H. pose proof (stream_open_spec _ _ _ _ _ H) as (_ & Hb & Hc & He & _).
  apply stream_open_effect in H as (_ & Hd & Hfr & Hfds & _ & _ & _ & _ & Hm).
  split_and!; auto. destruct Hm as [(? & ? & ?)|(? & ? & ?)]; [left|right]; auto.
Qed.


(** ** Transfers *)

(** X6: [stream_write] and [stream_read] refuse a NULL buffer and a
    negative length with [EINVAL], and then a stream without the
    capability with [EPERM]; a refused call returns -1 and changes
    [errno] only. *)
Theorem transfer_refused fuel s (b : list Byte.byte) len w :
  (len < 0 →
   stream_write fuel (Some s) (Some b) len w = Done (-1, Some s, set_errno EINVAL w) ∧
   stream_read fuel (Some s) (Some b) len w = Done (-1, Some s, Some b, set_errno EINVAL w)) ∧
  stream_write fuel (Some s) None len w = Done (-1, Some s, set_errno EINVAL w) ∧
  stream_read fuel (Some s) None len w = Done (-1, Some s, None, set_errno EINVAL w) ∧
  (0 ≤ len → ¬ writable s →
   stream_write fuel (Some s) (Some b) len w = Done (-1, Some s, set_errno EPERM w)) ∧
  (0 ≤ len → ¬ readable s →
   stream_read fuel (Some s) (Some b) len w = Done (-1, Some s, Some b, set_errno EPERM w)).
Proof.
  unfold stream_write, stream_read, writable, readable. split_and!; try done.
  - intros Hl. by destruct (Z.ltb_spec len 0); [|lia].
  - intros Hl Hw. destruct (Z.ltb_spec len 0); [lia|].
    by destruct (Z.eqb_spec (Z.land (s_mod s) PROT_WRITE) PROT_WRITE).
  - intros Hl Hr. destruct (Z.ltb_spec len 0); [lia|].
    by destruct (Z.eqb_spec (Z.land (s_mod s) PROT_READ) PROT_READ).
Qed.

(** X7: a transfer of zero bytes returns 0 and does nothing at all: no
    window is mapped, the file is not grown, [errno] is not touched. This
    holds for an empty buffer too. *)
Theorem zero_length_transfer fuel s w (b : list Byte.byte) :
  stream_inv s w → (0 < fuel)%nat →
  (writable s → stream_write fuel (Some s) (Some b) 0 w = Done (0, Some s, w)) ∧
  (readable s → stream_read fuel (Some s) (Some b) 0 w = Done (0, Some s, Some b, w)).
Proof.
  intros Hinv Hf. pose proof (inv_cur _ _ Hinv) as Hc. pose proof (inv_end _ _ Hinv) as He.
  destruct fuel as [|fuel]; [lia|]. split.
  - intros Hw. rewrite stream_write_checks by (done || unfold LONG_MAX; lia).
    rewrite Z.gtb_ltb. destruct (Z.ltb_spec (LONG_MAX - 0) (s_cur s)); [lia|].
    rewrite long_in by (unfold LONG_MIN; lia). simpl.
    by destruct (Z.ltb_spec (s_cur s) (s_cur s + 0)); [lia|].
  - intros Hr. rewrite stream_read_checks by (done || unfold LONG_MAX; lia).
    rewrite Z.min_l by lia. simpl.
    by destruct (Z.ltb_spec (s_cur s) (s_cur s + 0)); [lia|].
Qed.

(** X8: whatever its outcome, a write changes no byte of the file before
    the old cursor and none from the new cursor on, never shortens the
    file, touches no other file and leaves the descriptor table alone. *)
Theorem write_frame fuel s w buf len r s' w' d :
  stream_inv s w → fd_file w (s_des s) = Some d →
  stream_write fuel (Some s) buf len w = Done (r, Some s', w') →
  only_file (s_des s) w w' ∧
  ∃ d', fd_file w' (s_des s) = Some d' ∧ (length d ≤ length d')%nat ∧
    ∀ i : nat, (i < length d)%nat →
      Z.of_nat i < s_cur s ∨ s_cur s' ≤ Z.of_nat i → d' !! i = d !! i.
Proof.
  intros Hinv Hd H.
  apply stream_write_effect in H as (Ho & _ & d0 & d' & Hd0 & Hd' & Hl & Hfr); [|done].
  rewrite Hd in Hd0. injection Hd0 as <-. split; [done|]. by exists d'.
Qed.

(** X9: whatever its outcome, a write keeps block size, mode and
    descriptor, moves neither cursor nor end backwards, and grows the file
    by whole blocks only: the size is the old one or a multiple of the
    block size less than a block beyond the cursor. When it succeeds the
    end is the larger of the old end and the new cursor. *)
Theorem write_grows_by_blocks fuel s w buf len r s' w' :
  stream_inv s w →
  stream_write fuel (Some s) buf len w = Done (r, Some s', w') →
  same_handle s s' ∧ s_cur s ≤ s_cur s' ∧ s_end s ≤ s_end s' ∧ s_siz s ≤ s_siz s' ∧
  (s_siz s' = s_siz s ∨
   (Z.rem (s_siz s') (s_blk s) = 0 ∧ s_siz s' ≤ s_cur s' + s_blk s)) ∧
  (r ≠ -1 → s_cur s' = s_cur s + len ∧ s_end s' = Z.max (s_end s) (s_cur s')).
Proof.
  intros Hinv H.
  pose proof (stream_write_effect _ _ _ _ _ _ _ _ Hinv H) as (_ & Hs & _).
  apply stream_write_spec in H as (s1 & [= <-] & _ & Hsame & Hc & He & Hsz & _ & Hr); [|done].
  split_and!; auto. intros Hne.
  destruct Hr as [->|(b & d' & _ & Hl & _ & _ & _ & Hwr)]; [done|].
  destruct Hwr as (_ & Hcs & Hes & _). split; [lia|done].
Qed.

(** X10: on a stream open for reading and writing, when the system does
    not fail and the bound of the last window is representable, a write
    splices its bytes into the stream: the bytes of the stream afterwards
    are those before the cursor, then the [len] bytes written, then what
    the stream held beyond them, if anything. *)
Theorem write_splices fuel s w b len c :
  stream_inv s w → readable s → writable s → quiet w →
  0 ≤ len ≤ Z.of_nat (length b) → s_cur s + len + s_blk s ≤ LONG_MAX →
  len < Z.of_nat fuel →
  contents s w = Some c →
  ∃ s1 w1, stream_write fuel (Some s) (Some b) len w = Done (len, Some s1, w1) ∧
    contents s1 w1 =
      Some (take (Z.to_nat (s_cur s)) c ++ take (Z.to_nat len) b
            ++ drop (Z.to_nat (s_cur s + len)) c).
Proof.
  intros Hinv Hr Hw Hq [Hl Hb] Ho Hf Hc.
  destruct (stream_write_contents fuel s b len w c) as (s1 & w1 & E & _ & _ & _ & _ & _ & Hc1);
    auto.
  by exists s1, w1.
Qed.

(** X11: on a stream open for reading and writing, when the system does
    not fail and the bound of the last window is representable, two
    writes in a row have the effect of one write of the two buffers
    joined: same cursor, same end, same bytes in the stream. *)
Theorem writes_concatenate fuel s w (a b : list Byte.byte) :
  stream_inv s w → readable s → writable s → quiet w →
  s_cur s + Z.of_nat (length a + length b) + s_blk s ≤ LONG_MAX →
  (length a + length b < fuel)%nat →
  ∃ s1 w1 s2 w2 s3 w3,
    stream_write fuel (Some s) (Some a) (Z.of_nat (length a)) w
      = Done (Z.of_nat (length a), Some s1, w1) ∧
    stream_write fuel (Some s1) (Some b) (Z.of_nat (length b)) w1
      = Done (Z.of_nat (length b), Some s2, w2) ∧
    stream_write fuel (Some s) (Some (a ++ b)) (Z.of_nat (length (a ++ b))) w
      = Done (Z.of_nat (length (a ++ b)), Some s3, w3) ∧
    s_cur s2 = s_cur s3 ∧ s_end s2 = s_end s3 ∧
    contents s2 w2 = contents s3 w3 ∧ is_Some (contents s3 w3).
Proof.
  intros Hinv Hr Hw Hq Ho Hf.
  pose proof (inv_cur _ _ Hinv) as Hc0.
  destruct (inv_file _ _ Hinv) as (d & Hd & Hdl).
  assert (Hc : contents s w = Some (take (Z.to_nat (s_end s)) d))
    by (unfold contents; by rewrite Hd).
  pose proof (contents_length _ _ _ Hinv Hc) as Hcl.
  set (c := take (Z.to_nat (s_end s)) d) in *. clearbody c.
  destruct (stream_write_contents fuel s a (Z.of_nat (length a)) w c)
    as (s1 & w1 & E1 & Hinv1 & (Hblk1 & Hmod1 & Hdes1) & Hq1 & Hc1 & He1 & Hk1); auto; try lia.
  match type of Hk1 with _ = Some ?x => set (c1 := x) in * end.
  destruct (stream_write_contents fuel s1 b (Z.of_nat (length b)) w1 c1)
    as (s2 & w2 & E2 & Hinv2 & _ & Hq2 & Hc2 & He2 & Hk2); auto; try lia.
  { unfold writable in *. by rewrite Hmod1. }
  destruct (stream_write_contents fuel s (a ++ b) (Z.of_nat (length (a ++ b))) w c)
    as (s3 & w3 & E3 & Hinv3 & _ & Hq3 & Hc3 & He3 & Hk3); auto;
    try (rewrite ?length_app; lia).
  exists s1, w1, s2, w2, s3, w3. rewrite length_app in *.
  split_and!; auto; try lia.
  rewrite Hk2, Hk3. f_equal. unfold c1.
  rewrite !Nat2Z.id, Hc1.
  rewrite (take_ge a), (take_ge b), (take_ge (a ++ b)) by (rewrite ?length_app; lia).
  set (p := Z.to_nat (s_cur s)) in *.
  assert (Hp : length (take p c) = p) by (rewrite length_take; lia).
  replace (Z.to_nat (s_cur s + Z.of_nat (length a))) with (p + length a)%nat by lia.
  replace (Z.to_nat (s_cur s + Z.of_nat (length a) + Z.of_nat (length b)))
    with (p + length a + length b)%nat by lia.
  replace (Z.to_nat (s_cur s + Z.of_nat (length a + length b)))
    with (p + length a + length b)%nat by lia.
  rewrite (app_assoc (take p c) a).
  rewrite take_app_length' by (rewrite length_app; lia).
  rewrite drop_app_ge by (rewrite length_app; lia).
  rewrite length_app, Hp, drop_drop.
  replace (p + length a + (p + length a + length b - (p + length a)))%nat
    with (p + length a + length b)%nat by lia.
  by rewrite <- !app_assoc.
Qed.

(** X12: whatever its outcome, a read leaves the files and the descriptor
    table as they are, and block size, mode, descriptor, end and size of
    the stream; the cursor moves forward, never beyond the end; the
    caller's buffer keeps its length and, from the number of bytes the
    cursor has moved on, its bytes. *)
Theorem read_leaves_files fuel s w b len r s' b' w' :
  stream_inv s w →
  stream_read fuel (Some s) (Some b) len w = Done (r, Some s', Some b', w') →
  w_fs w' = w_fs w ∧ w_fds w' = w_fds w ∧ same_handle s s' ∧
  s_end s' = s_end s ∧ s_siz s' = s_siz s ∧ s_cur s ≤ s_cur s' ≤ s_end s ∧
  length b' = length b ∧
  (∀ i : nat, s_cur s' - s_cur s ≤ Z.of_nat i → b' !! i = b !! i).
Proof.
  intros Hinv H.
  pose proof (stream_read_buffer _ _ _ _ _ _ _ _ _ Hinv H) as (Hl & Hfr & Hce).
  apply stream_read_spec in H as (s1 & [= <-] & _ & Hsame & Hc & He & Hs & Hfs & Hfds & _);
    [|done].
  by split_and!.
Qed.

(** ** Synchronising and closing *)

(** X13: [stream_sync] fails only with a window held and a system that
    reports a failure of [msync]; it then returns -1 with the code the
    system gave in [errno], and stream, files and descriptors are as
    before. *)
Theorem sync_failure s w r s' w' :
  stream_sync (Some s) w = (r, s', w') → r ≠ 0 →
  r = -1 ∧ s' = Some s ∧ is_Some (s_buf s) ∧ reports (w_errno w') w ∧
  w_fs w' = w_fs w ∧ w_fds w' = w_fds w.
Proof.
  unfold stream_sync, sys_msync. destruct (s_buf s) as [m|]; [|by intros [= <- <- <-]].
  destruct (fault w) as [o w1] eqn:Hf.
  pose proof (fault_later _ _ _ Hf) as [_ Ho].
  apply fault_inv in Hf as (Hfs & Hfds & _).
  destruct o as [e|]; simpl; intros [= <- <- <-]; [|done]. intros _.
  split_and!; eauto.
Qed.

(** X14: [stream_close] gives the descriptor back and cuts the file down
    to the end of the stream, dropping the padding of the last block; no
    other file is touched. The file keeps its padding only if the system
    fails the truncation, which close cannot report. *)
Theorem close_trims_file s w path d :
  stream_inv s w →
  w_fds w !! s_des s = Some path → w_fs w !! path = Some d →
  w_fds (stream_close (Some s) w) = delete (s_des s) (w_fds w) ∧
  (∀ p, p ≠ path → w_fs (stream_close (Some s) w) !! p = w_fs w !! p) ∧
  (w_fs (stream_close (Some s) w) !! path = Some (take (Z.to_nat (s_end s)) d) ∨
   (¬ quiet w ∧ w_fs (stream_close (Some s) w) !! path = Some d)).
Proof.
  intros Hinv Hfd Hp.
  destruct (stream_close_effect s w path d) as (H1 & H2 & _ & H3 & _); auto.
Qed.

(** X15: open a file in the mode [w+], write a buffer and close: when
    the system does not fail and the bound of the first block is
    representable, the file holds exactly the bytes of the buffer - not
    the block the write had mapped -, every other file is as it was, and
    so is the descriptor table. *)
Theorem write_close_persists fuel path mode w s w1 (data : list Byte.byte) :
  stream_open (Some path) mode w = (Some s, w1) →
  mode_char mode 0 = "w"%char → mode_char mode 1 = "+"%char → quiet w →
  Z.of_nat (length data) + s_blk s ≤ LONG_MAX → (length data < fuel)%nat →
  ∃ s2 w2,
    stream_write fuel (Some s) (Some data) (Z.of_nat (length data)) w1
      = Done (Z.of_nat (length data), Some s2, w2) ∧
    w_fs (stream_close (Some s2) w2) = <[path := data]> (w_fs w) ∧
    w_fds (stream_close (Some s2) w2) = w_fds w.
Proof.
  intros H Hmode Hplus Hq Ho Hf.
  pose proof (stream_open_spec _ _ _ _ _ H) as (Hinv & _ & Hcur & Hes & _).
  apply stream_open_effect in H
    as (Hq1 & Hdes0 & Hfresh & Hfds1 & Hmod & _ & _ & _ & Hm).
  destruct Hm as [(_ & Hfs1 & Hend)|(Hr & _)]; [|congruence].
  assert (Hw : writable s).
  { unfold writable. rewrite Hmod. unfold mode_prot, is_char.
    rewrite (bool_decide_true (mode_char mode 0 = "w"%char)) by done.
    by destruct (bool_decide _). }
  assert (Hc : contents s w1 = Some []).
  { unfold contents, fd_file. rewrite Hfds1, lookup_insert_eq. simpl.
    rewrite Hfs1, lookup_insert_eq. simpl. by rewrite take_nil. }
  destruct (stream_write_contents fuel s data (Z.of_nat (length data)) w1 [])
    as (s2 & w2 & E & Hinv2 & (_ & _ & Hdes) & Hq2 & Hc2 & He2 & Hk); auto; try lia.
  exists s2, w2. split; [done|].
  pose proof (stream_write_effect _ _ _ _ _ _ _ _ Hinv E) as ([Hfds2 Hoth] & _).
  rewrite take_nil, drop_nil, app_nil_l, app_nil_r, Nat2Z.id, firstn_all in Hk.
  unfold contents in Hk.
  destruct (fd_file w2 (s_des s2)) as [d2|] eqn:Hd2; [|discriminate].
  simpl in Hk. injection Hk as Hk.
  assert (Hpath : w_fds w2 !! s_des s2 = Some path)
    by (by rewrite Hdes, Hfds2, Hfds1, lookup_insert_eq).
  assert (Hfile : w_fs w2 !! path = Some d2).
  { unfold fd_file in Hd2. rewrite Hpath in Hd2. done. }
  destruct (stream_close_effect s2 w2 path d2) as (H1 & H2 & _ & H3 & _); auto.
  split.
  - apply map_eq. intros p. destruct (decide (p = path)) as [->|Hne].
    + rewrite lookup_insert_eq. destruct H3 as [H3|[Q _]]; [|by destruct Q].
      by rewrite H3, Hk.
    + rewrite lookup_insert_ne by done. rewrite H2 by done.
      rewrite Hoth by (rewrite Hfds1, lookup_insert_eq; congruence).
      rewrite Hfs1. by apply lookup_insert_ne.
  - rewrite H1, Hdes, Hfds2, Hfds1. by apply delete_fresh.
Qed.

(** X16: close a stream and open its file again in an [r] mode: when the
    system does not fail, the new stream starts at cursor 0 with the end
    and the bytes the old stream had - the end of the stream, not the
    block-padded size, is what the file keeps. *)
Theorem close_reopen s w path mode :
  stream_inv s w → quiet w → 1 ≤ w_pagesize w →
  w_fds w !! s_des s = Some path → mode_char mode 0 = "r"%char →
  ∃ s' w', stream_open (Some path) mode (stream_close (Some s) w) = (Some s', w') ∧
    s_cur s' = 0 ∧ s_end s' = s_end s ∧ s_siz s' = s_end s ∧
    contents s' w' = contents s w.
Proof.
  intros Hinv Hq Hpage Hfd Hmode.
  pose proof (inv_cur _ _ Hinv) as Hc0. pose proof (inv_end _ _ Hinv) as He0.
  destruct (inv_file _ _ Hinv) as (d & Hd & Hdl).
  assert (Hp : w_fs w !! path = Some d).
  { unfold fd_file in Hd. by rewrite Hfd in Hd. }
  destruct (stream_close_effect s w path d) as (_ & _ & _ & H3 & Hq' & Hps & _); auto.
  destruct H3 as [H3|[Q _]]; [|by destruct Q].
  set (wc := stream_close (Some s) w) in *.
  destruct (stream_open (Some path) mode wc) as [[s'|] w'] eqn:E.
  - pose proof (stream_open_spec _ _ _ _ _ E) as (_ & _ & Hcur & Hes & _).
    pose proof (stream_open_effect _ _ _ _ _ E) as (_ & _ & _ & Hfds' & _ & _ & _ & _ & Hm).
    destruct Hm as [(Hw & _)|(_ & Hfs' & data & Hdata & Hend)]; [congruence|].
    rewrite H3 in Hdata. injection Hdata as <-.
    rewrite length_take in Hend.
    exists s', w'. split_and!; auto; try lia.
    unfold contents, fd_file. rewrite Hfds', lookup_insert_eq, Hfd. simpl.
    rewrite Hfs', H3, Hp. simpl. f_equal. rewrite take_take. f_equal. lia.
  - apply stream_open_effect in E as (_ & _ & _ & Hcause).
    destruct (Hcause (Hq' Hq))
      as [(Hr & _)|[(? & _)|[(_ & Hn & _)|(_ & _ & data & Hdata & Hbig)]]];
      try congruence; try lia.
    rewrite H3 in Hdata. injection Hdata as <-. rewrite length_take in Hbig. lia.
Qed.

(** X17: a program that opens a file in an [r] mode, then only reads,
    seeks and synchronises, with any arguments and whatever the system
    does, and closes the stream, leaves every file and the descriptor
    table exactly as they were. *)
Theorem reader_leaves_files path mode w s0 w0 s w' :
  stream_open (Some path) mode w = (Some s0, w0) →
  mode_char mode 0 = "r"%char →
  browsed s0 w0 s w' →
  w_fs (stream_close (Some s) w') = w_fs w ∧
  w_fds (stream_close (Some s) w') = w_fds w.
Proof.
  intros H Hmode Hb.
  pose proof (stream_open_spec _ _ _ _ _ H) as (Hinv & _ & _ & Hes & _).
  apply stream_open_effect in H as (_ & _ & Hfresh & Hfds0 & _ & _ & _ & _ & Hm).
  destruct Hm as [(Hw & _)|(_ & Hfs0 & _)]; [congruence|].
  apply browsed_inv in Hb as (_ & (_ & _ & Hdes) & He & Hs & Hfs & Hfds & _); [|done].
  unfold stream_close.
  replace (match s_buf s with Some m => sys_munmap m (s_len s) w' | None => w' end) with w'
    by (by destruct (s_buf s)).
  destruct (Z.ltb_spec (s_end s) (s_siz s)); [lia|]. simpl.
  rewrite Hfs, Hfs0, Hfds, Hfds0, Hdes. split; [done|]. by apply delete_fresh.
Qed.

(** ** The top of the address range *)

(** X18: the limit check of [stream_write] does not protect the window
    arithmetic. With the cursor in the last block below [LONG_MAX] and no
    window covering it, the bound [s->off + s->len] of the window to map
    is not representable: a write of at least one byte that passes the
    [EFBIG] check, and likewise a read below the end of the stream,
    overflows a signed [long]. *)
Theorem top_block_undefined fuel s w (b : list Byte.byte) len :
  0 ≤ s_cur s ≤ LONG_MAX → 1 ≤ s_blk s → s_buf s = None →
  LONG_MAX < Z.quot (s_cur s) (s_blk s) * s_blk s + s_blk s →
  0 < len ≤ LONG_MAX → (0 < fuel)%nat →
  (writable s → s_cur s + len ≤ LONG_MAX →
   stream_write fuel (Some s) (Some b) len w = Undef) ∧
  (readable s → s_cur s < s_end s ≤ LONG_MAX →
   stream_read fuel (Some s) (Some b) len w = Undef).
Proof.
  intros Hc Hb Hbuf Ho Hl Hf. destruct fuel as [|fuel]; [lia|].
  assert (Hstale : stale s = true).
  { unfold stale. rewrite Hbuf. apply orb_true_r. }
  assert (Hal : align (set_buf None s) = Undef).
  { apply align_overflow; simpl; lia. }
  split.
  - intros Hw Hmax. rewrite stream_write_checks by (done || lia).
    rewrite Z.gtb_ltb. destruct (Z.ltb_spec (LONG_MAX - len) (s_cur s)); [lia|].
    rewrite long_in by (unfold LONG_MIN; lia). simpl.
    destruct (Z.ltb_spec (s_cur s) (s_cur s + len)); [|lia].
    unfold write_body. rewrite Hstale. unfold write_fault.
    rewrite release_eq, Hal. reflexivity.
  - intros Hr He. unfold stream_read, readable in *.
    destruct (Z.ltb_spec len 0); [lia|]. rewrite Hr, Z.eqb_refl. simpl.
    rewrite (long_in (s_end s - len)) by (unfold LONG_MIN, LONG_MAX in *; lia). simpl.
    assert (∃ n, (if s_cur s >? s_end s - len then long (s_end s - s_cur s) else mret len)
                 = Done n ∧ 0 < n ∧ s_cur s + n ≤ LONG_MAX) as (n & -> & Hn & Hn').
    { rewrite Z.gtb_ltb. destruct (Z.ltb_spec (s_end s - len) (s_cur s)).
      - rewrite long_in by (unfold LONG_MIN, LONG_MAX in *; lia). eexists. split; [done|lia].
      - eexists. split; [done|lia]. }
    simpl. rewrite long_in by (unfold LONG_MIN; lia). simpl.
    destruct (Z.ltb_spec (s_cur s) (s_cur s + n)); [|lia].
    unfold read_body. rewrite Hstale. unfold read_fault.
    rewrite release_eq, Hal. reflexivity.
Qed.

(** ** Failures half-way and defined behaviour *)

(** X19: a transfer that fails at a later block has still transferred
    the blocks before: whatever the outcome, the bytes between the old
    and the new cursor have been copied - into the file by a write, which
    has also moved the end along, into the caller's buffer by a read.
    After a failure the cursor tells how far the transfer got. *)
Theorem transfer_keeps_progress fuel s w b len :
  stream_inv s w →
  (∀ r s' w', stream_write fuel (Some s) (Some b) len w = Done (r, Some s', w') →
     s_end s' = Z.max (s_end s) (s_cur s') ∧
     ∃ d', fd_file w' (s_des s) = Some d' ∧
       ∀ k : nat, Z.of_nat k < s_cur s' - s_cur s →
         d' !! Z.to_nat (s_cur s + Z.of_nat k) = b !! k) ∧
  (∀ r s' b' w', stream_read fuel (Some s) (Some b) len w = Done (r, Some s', Some b', w') →
     ∃ d, fd_file w (s_des s) = Some d ∧
       ∀ k : nat, Z.of_nat k < s_cur s' - s_cur s →
         b' !! k = d !! Z.to_nat (s_cur s + Z.of_nat k)).
Proof.
  intros Hinv. pose proof (inv_cur _ _ Hinv) as Hc0. pose proof (inv_end _ _ Hinv) as He0.
  destruct (inv_file _ _ Hinv) as (d & Hd & Hdl). split.
  - intros r s' w' H. unfold stream_write in H.
    assert (Hfail : ∀ e, s_end s = Z.max (s_end s) (s_cur s) ∧
      ∃ d', fd_file (set_errno e w) (s_des s) = Some d' ∧
        ∀ k : nat, Z.of_nat k < s_cur s - s_cur s →
          d' !! Z.to_nat (s_cur s + Z.of_nat k) = b !! k).
    { intros e. split; [lia|]. exists d. split; [done|]. intros k Hk. lia. }
    destruct (len <? 0); [injection H as <- <- <-; apply Hfail|].
    destruct (negb _); [injection H as <- <- <-; apply Hfail|].
    inv_bind H. destruct (_ >? _); [injection H as <- <- <-; apply Hfail|].
    inv_bind H. inv_bind H. destruct a1 as [[r1 s1] w1]. injection H as <- <- <-.
    apply write_loop_progress in Ha1 as (He & d' & Hd' & Hcont); [|done].
    split; [done|]. exists d'. split; [done|].
    intros k Hk. rewrite Hcont by done. f_equal. lia.
  - intros r s' b' w' H. exists d. split; [done|]. unfold stream_read in H.
    destruct (len <? 0) eqn:Hl; [injection H as <- <- <- <-; intros k Hk; lia|].
    destruct (negb _); [injection H as <- <- <- <-; intros k Hk; lia|].
    apply Z.ltb_ge in Hl.
    inv_bind H. apply long_Done in Ha as [-> _].
    inv_bind H.
    assert (a = Z.min len (s_end s - s_cur s)) as ->.
    { rewrite Z.gtb_ltb in Ha. destruct (Z.ltb_spec (s_end s - len) (s_cur s)).
      - apply long_Done in Ha as [-> _]. lia.
      - injection Ha as <-. lia. }
    inv_bind H. apply long_Done in Ha0 as [-> _].
    inv_bind H. destruct a as [[[r1 s1] b1] w1]. injection H as <- <- <- <-.
    apply read_loop_progress in Ha0 as (y & Hy & Hcont); [|done|lia..].
    rewrite Hd in Hy. injection Hy as <-.
    intros k Hk. rewrite <- Hcont by done. f_equal. lia.
Qed.

(** X20: on an open stream a request whose buffer holds the bytes asked
    for has defined behaviour and comes to an end, whatever the system
    does: every access of the copy loops falls inside the window mapped
    and inside the caller's buffer and no arithmetic overflows, as long
    as the bound of the last window is representable; and since every
    turn of a loop moves the cursor, [len] turns are never used up. *)
Theorem transfers_defined fuel s w (b : list Byte.byte) len :
  stream_inv s w → 0 ≤ len ≤ LONG_MAX →
  (len ≤ Z.of_nat (length b) → s_cur s + len + s_blk s ≤ LONG_MAX →
   len < Z.of_nat fuel →
   ∃ r s' w', stream_write fuel (Some s) (Some b) len w = Done (r, Some s', w')) ∧
  (Z.min len (s_end s - s_cur s) ≤ Z.of_nat (length b) →
   s_cur s + Z.min len (s_end s - s_cur s) + s_blk s ≤ LONG_MAX →
   Z.min len (s_end s - s_cur s) < Z.of_nat fuel →
   ∃ r s' b' w', stream_read fuel (Some s) (Some b) len w = Done (r, Some s', Some b', w')).
Proof.
  intros Hinv Hl. pose proof (inv_cur _ _ Hinv) as Hc0. pose proof (inv_end _ _ Hinv) as He0.
  pose proof (inv_blk _ _ Hinv) as Hb0. split.
  - intros Hb Ho Hf.
    destruct (decide (writable s)) as [Hw|Hw].
    + rewrite stream_write_checks by done.
      destruct (_ >? _); [eauto|].
      rewrite long_in by (unfold LONG_MIN; lia). simpl.
      destruct (write_loop_defined fuel (s_cur s + len) b 0 s w) as [[[r s1] w1] E];
        auto; try lia.
      rewrite E. simpl. eauto.
    + unfold stream_write. destruct (Z.ltb_spec len 0); [lia|].
      destruct (Z.eqb_spec (Z.land (s_mod s) PROT_WRITE) PROT_WRITE); [done|]. simpl. eauto.
  - intros Hb Ho Hf.
    destruct (decide (readable s)) as [Hr|Hr].
    + rewrite stream_read_checks by done.
      set (n := Z.min len (s_end s - s_cur s)) in *.
      destruct (read_loop_defined fuel (s_cur s + n) b 0 s w) as [[[[r s1] b1] w1] E];
        auto; try lia.
      rewrite E. simpl. eauto.
    + unfold stream_read. destruct (Z.ltb_spec len 0); [lia|].
      destruct (Z.eqb_spec (Z.land (s_mod s) PROT_READ) PROT_READ); [done|]. simpl. eauto.
Qed.

(** X21: a transfer that lies inside the window held is served from the
    window alone: it asks the system for nothing - the schedule of
    failures and [errno] are untouched, the window and the file size stay
    - and so it cannot fail, whatever the system would do; a read leaves
    the whole system state as it is. *)
Theorem window_hit fuel s w (b : list Byte.byte) len :
  stream_inv s w → is_Some (s_buf s) → s_off s ≤ s_cur s →
  0 < len ≤ Z.of_nat (length b) → s_cur s + len ≤ s_brk s → (1 < fuel)%nat →
  (readable s → s_cur s + len ≤ s_end s →
   ∃ b', stream_read fuel (Some s) (Some b) len w
         = Done (len, Some (set_cur (s_cur s + len) s), Some b', w)) ∧
  (writable s →
   ∃ s' w', stream_write fuel (Some s) (Some b) len w = Done (len, Some s', w') ∧
     w_faults w' = w_faults w ∧ w_errno w' = w_errno w ∧
     s_cur s' = s_cur s + len ∧ s_end s' = Z.max (s_end s) (s_cur s + len) ∧
     s_siz s' = s_siz s ∧ s_buf s' = s_buf s ∧ s_off s' = s_off s ∧
     s_len s' = s_len s ∧ s_brk s' = s_brk s).
Proof.
  intros Hinv Hbuf Hoff [Hl Hb] Hbrk Hf.
  pose proof (inv_cur _ _ Hinv) as Hc0. pose proof (inv_end _ _ Hinv) as He0.
  pose proof (inv_win _ _ Hinv) as Hw. unfold window_ok in Hw.
  destruct Hbuf as [m Hm]. rewrite Hm in Hw. destruct Hw as (_ & _ & _ & _ & _ & Hbs).
  destruct fuel as [|[|fuel]]; try lia. split.
  - intros Hr He. rewrite stream_read_checks by (done || lia).
    rewrite Z.min_l by lia. cbn [read_loop].
    destruct (Z.ltb_spec (s_cur s) (s_cur s + len)); [|lia].
    destruct (read_body_within (s_cur s + len) b 0 s w) as [b' ->]; eauto; try lia.
    cbn [mbind outcome_bind]. cbn [s_cur set_cur].
    destruct (Z.ltb_spec (s_cur s + len) (s_cur s + len)); [lia|].
    exists b'. simpl. do 4 f_equal. lia.
  - intros Hwr. rewrite stream_write_checks by (done || lia).
    rewrite Z.gtb_ltb. destruct (Z.ltb_spec (LONG_MAX - len) (s_cur s)); [lia|].
    rewrite long_in by (unfold LONG_MIN; lia). cbn [mbind outcome_bind write_loop].
    destruct (Z.ltb_spec (s_cur s) (s_cur s + len)); [|lia].
    destruct (write_body_within (s_cur s + len) b 0 s w) as (w' & -> & Hfl & Herr);
      eauto; try lia.
    cbn [mbind outcome_bind].
    set (s' := if s_cur s + len >? s_end s
               then set_end (s_cur s + len) (set_cur (s_cur s + len) s)
               else set_cur (s_cur s + len) s).
    assert (s_cur s' = s_cur s + len ∧ s_end s' = Z.max (s_end s) (s_cur s + len) ∧
            s_siz s' = s_siz s ∧ s_buf s' = s_buf s ∧ s_off s' = s_off s ∧
            s_len s' = s_len s ∧ s_brk s' = s_brk s) as Hs.
    { unfold s'. rewrite Z.gtb_ltb.
      destruct (Z.ltb_spec (s_end s) (s_cur s + len)); simpl; split_and!; auto; lia. }
    destruct (Z.ltb_spec (s_cur s') (s_cur s + len)); [lia|].
    exists s', w'. split; [|tauto]. simpl. do 3 f_equal. lia.
Qed.

(** ** From open to close *)

(** X22: a stream lives on its own file. From [stream_open] on, whatever
    calls are made on the stream, with whatever arguments and whatever
    the system does, block size, mode and descriptor stay as set by open,
    end and size never go down, the descriptor table stays and no file
    but the one opened is changed; and once the stream is closed the
    descriptor table is the one found before open. *)
Theorem stream_isolated path mode w s0 w0 s w1 :
  stream_open (Some path) mode w = (Some s0, w0) →
  used s0 w0 s w1 →
  same_handle s0 s ∧ s_end s0 ≤ s_end s ∧ s_siz s0 ≤ s_siz s ∧
  w_fds w1 = w_fds w0 ∧
  (∀ p, p ≠ path → w_fs w1 !! p = w_fs w !! p) ∧
  w_fds (stream_close (Some s) w1) = w_fds w ∧
  (∀ p, p ≠ path → w_fs (stream_close (Some s) w1) !! p = w_fs w !! p).
Proof.
  intros H Hu.
  pose proof (stream_open_spec _ _ _ _ _ H) as (Hinv0 & _).
  apply stream_open_effect in H as (_ & _ & Hfresh & Hfds0 & _ & _ & _ & _ & Hm).
  apply used_inv in Hu as (Hinv & Hsame & He & Hs & Hfds & Hoth); [|done].
  assert (Hfd0 : w_fds w0 !! s_des s0 = Some path) by (by rewrite Hfds0, lookup_insert_eq).
  assert (Hfs0 : ∀ p, p ≠ path → w_fs w0 !! p = w_fs w !! p).
  { intros p Hne. destruct Hm as [(_ & -> & _)|(_ & -> & _)]; [|done].
    by apply lookup_insert_ne. }
  assert (Hfs1 : ∀ p, p ≠ path → w_fs w1 !! p = w_fs w !! p).
  { intros p Hne. rewrite Hoth by congruence. by apply Hfs0. }
  destruct Hsame as (Hb & Hmd & Hd).
  destruct (inv_file _ _ Hinv) as (d & Hfile & _).
  assert (Hfd1 : w_fds w1 !! s_des s = Some path) by (by rewrite Hd, Hfds).
  assert (Hp1 : w_fs w1 !! path = Some d).
  { unfold fd_file in Hfile. by rewrite Hfd1 in Hfile. }
  destruct (stream_close_effect s w1 path d) as (H1 & H2 & _); auto.
  unfold same_handle. split_and!; auto.
  - rewrite H1, Hd, Hfds, Hfds0. by apply delete_fresh.
  - intros p Hne. rewrite H2 by done. by apply Hfs1.
Qed.

(** X23: [stream_end] reports the number of bytes of the stream, which
    is the size the file has once the stream is closed by a system that
    does not fail - not the size of the block-padded file behind the
    open stream. *)
Theorem end_is_final_size s w path :
  stream_inv s w → w_fds w !! s_des s = Some path → quiet w →
  ∃ c, contents s w = Some c ∧
    w_fs (stream_close (Some s) w) !! path = Some c ∧
    stream_end (Some s) w = (Z.of_nat (length c), w).
Proof.
  intros Hinv Hfd Hq.
  pose proof (inv_cur _ _ Hinv) as Hc0. pose proof (inv_end _ _ Hinv) as He0.
  destruct (inv_file _ _ Hinv) as (d & Hd & Hdl).
  assert (Hp : w_fs w !! path = Some d).
  { unfold fd_file in Hd. by rewrite Hfd in Hd. }
  destruct (stream_close_effect s w path d) as (_ & _ & _ & H3 & _); auto.
  destruct H3 as [H3|[Q _]]; [|by destruct Q].
  exists (take (Z.to_nat (s_end s)) d).
  split_and!; auto.
  - unfold contents. by rewrite Hd.
  - simpl. f_equal. rewrite length_take. lia.
Qed.

(** ** The further properties at concrete streams *)

(** X1 with an empty mode string, and on a system without a page size. *)
Lemma open_checks_first_witness :
  stream_open (Some "data"%string) "" (closed_world [])
    = (None, set_errno EINVAL (closed_world [])) ∧
  stream_open (Some "data"%string) "r" (World 0 0 4096 ∅ ∅ [])
    = (None, set_errno ENOTSUP (World 0 0 4096 ∅ ∅ [])).
Proof.
  split.
  - apply (proj1 (open_checks_first (Some "data"%string) "" (closed_world []))).
    right. by split.
  - apply (proj2 (open_checks_first (Some "data"%string) "r" (World 0 0 4096 ∅ ∅ []))).
    + by eexists.
    + by left.
    + simpl. lia.
Defined.

(** X2 with a system that lets [open] through and fails [fstat]: the
    descriptor is given back, the file has been emptied. *)
Lemma open_failure_releases_witness :
  ∃ w', stream_open (Some "data"%string) "w" (closed_world [None; Some ENOMEM]) = (None, w') ∧
    w_fds w' = w_fds (closed_world [None; Some ENOMEM]) ∧
    (w_fs w' = w_fs (closed_world [None; Some ENOMEM]) ∨
     ∃ p, Some "data"%string = Some p ∧ mode_char "w" 0 = "w"%char ∧
          w_fs w' = <[p := []]> (w_fs (closed_world [None; Some ENOMEM]))).
Proof.
  eexists. split; [run_call|].
  eapply (open_failure_releases (Some "data"%string) "w" (closed_world [None; Some ENOMEM])).
  run_call.
Defined.

(** X3 with the mode [r+]. *)
Lemma open_mode_capabilities_witness :
  ∃ s w', stream_open (Some "data"%string) "r+" (closed_world []) = (Some s, w') ∧
    s_mod s = mode_prot "r+" ∧
    (readable s ↔ mode_char "r+" 0 = "r"%char ∨ mode_char "r+" 1 = "+"%char) ∧
    (writable s ↔ mode_char "r+" 0 = "w"%char ∨ mode_char "r+" 1 = "+"%char).
Proof.
  do 2 eexists. split; [run_call|].
  eapply (open_mode_capabilities (Some "data"%string) "r+" (closed_world [])).
  run_call.
Defined.

(** X4 on the ten-byte file, opened for reading. *)
Lemma open_initial_state_witness :
  ∃ s w', stream_open (Some "data"%string) "r" (closed_world []) = (Some s, w') ∧
    s_buf s = None ∧ s_cur s = 0 ∧ s_end s = s_siz s ∧
    0 ≤ s_des s ∧ w_fds (closed_world []) !! s_des s = None ∧
    w_fds w' = <[s_des s := "data"%string]> (w_fds (closed_world [])) ∧
    ((mode_char "r" 0 = "w"%char ∧ s_end s = 0 ∧
      w_fs w' = <["data"%string := []]> (w_fs (closed_world []))) ∨
     (mode_char "r" 0 = "r"%char ∧ w_fs w' = w_fs (closed_world []) ∧
      ∃ data, w_fs (closed_world []) !! "data"%string = Some data ∧
              s_end s = Z.of_nat (length data))).
Proof.
  do 2 eexists. split; [run_call|].
  eapply (open_initial_state "data"%string "r" (closed_world [])).
  run_call.
Defined.


(** X6 on a stream open for reading only, and on one open for writing
    only. *)
Lemma transfer_refused_witness :
  stream_write 1 (Some (Stream None 0 0 0 4096 0 10 10 PROT_READ 3)) (Some ten_bytes) (-1)
    (demo_world 10 [])
    = Done (-1, Some (Stream None 0 0 0 4096 0 10 10 PROT_READ 3),
            set_errno EINVAL (demo_world 10 [])) ∧
  stream_write 1 (Some (Stream None 0 0 0 4096 0 10 10 PROT_READ 3)) (Some ten_bytes) 5
    (demo_world 10 [])
    = Done (-1, Some (Stream None 0 0 0 4096 0 10 10 PROT_READ 3),
            set_errno EPERM (demo_world 10 [])) ∧
  stream_read 1 (Some (Stream None 0 0 0 4096 0 10 10 PROT_WRITE 3)) (Some ten_bytes) 5
    (demo_world 10 [])
    = Done (-1, Some (Stream None 0 0 0 4096 0 10 10 PROT_WRITE 3), Some ten_bytes,
            set_errno EPERM (demo_world 10 [])).
Proof.
  split_and!.
  - refine (proj1 (proj1 (transfer_refused 1 (Stream None 0 0 0 4096 0 10 10 PROT_READ 3)
                            ten_bytes (-1) (demo_world 10 [])) _)).
    lia.
  - refine (proj1 (proj2 (proj2 (proj2
              (transfer_refused 1 (Stream None 0 0 0 4096 0 10 10 PROT_READ 3)
                 ten_bytes 5 (demo_world 10 []))))) _ _).
    + lia.
    + unfold writable. simpl. discriminate.
  - refine (proj2 (proj2 (proj2 (proj2
              (transfer_refused 1 (Stream None 0 0 0 4096 0 10 10 PROT_WRITE 3)
                 ten_bytes 5 (demo_world 10 []))))) _ _).
    + lia.
    + unfold readable. simpl. discriminate.
Defined.

(** X7 with an empty buffer. *)
Lemma zero_length_transfer_witness :
  stream_write 1 (Some (demo_stream 10 10)) (Some []) 0 (demo_world 10 [])
    = Done (0, Some (demo_stream 10 10), demo_world 10 []) ∧
  stream_read 1 (Some (demo_stream 10 10)) (Some []) 0 (demo_world 10 [])
    = Done (0, Some (demo_stream 10 10), Some [], demo_world 10 []).
Proof.
  destruct (zero_length_transfer 1 (demo_stream 10 10) (demo_world 10 []) [])
    as [Hw Hr]; [demo_inv|lia|].
  split; [by apply Hw|by apply Hr].
Defined.

(** X8: three bytes written at cursor 5 of a ten-byte file. *)
Lemma write_frame_witness :
  ∃ r s' w',
    stream_write 4 (Some (demo_stream 5 10)) (Some ten_bytes) 3 (demo_world 10 [])
      = Done (r, Some s', w') ∧
    only_file (s_des (demo_stream 5 10)) (demo_world 10 []) w' ∧
    ∃ d', fd_file w' (s_des (demo_stream 5 10)) = Some d' ∧
      (length (replicate 10 Byte.x00) ≤ length d')%nat ∧
      ∀ i : nat, (i < length (replicate 10 Byte.x00))%nat →
        Z.of_nat i < s_cur (demo_stream 5 10) ∨ s_cur s' ≤ Z.of_nat i →
        d' !! i = replicate 10 Byte.x00 !! i.
Proof.
  do 3 eexists. split; [run_call|].
  eapply (write_frame 4 (demo_stream 5 10) (demo_world 10 []) (Some ten_bytes) 3).
  - demo_inv.
  - run_call.
  - run_call.
Defined.

(** X9 in the same scenario: the file has grown to one block. *)
Lemma write_grows_by_blocks_witness :
  ∃ r s' w',
    stream_write 4 (Some (demo_stream 5 10)) (Some ten_bytes) 3 (demo_world 10 [])
      = Done (r, Some s', w') ∧
    same_handle (demo_stream 5 10) s' ∧
    s_cur (demo_stream 5 10) ≤ s_cur s' ∧ s_end (demo_stream 5 10) ≤ s_end s' ∧
    s_siz (demo_stream 5 10) ≤ s_siz s' ∧
    (s_siz s' = s_siz (demo_stream 5 10) ∨
     (Z.rem (s_siz s') (s_blk (demo_stream 5 10)) = 0 ∧
      s_siz s' ≤ s_cur s' + s_blk (demo_stream 5 10))) ∧
    (r ≠ -1 → s_cur s' = s_cur (demo_stream 5 10) + 3 ∧
              s_end s' = Z.max (s_end (demo_stream 5 10)) (s_cur s')).
Proof.
  do 3 eexists. split; [run_call|].
  eapply (write_grows_by_blocks 4 (demo_stream 5 10) (demo_world 10 []) (Some ten_bytes) 3).
  - demo_inv.
  - run_call.
Defined.

(** X10: three bytes written at cursor 2 of a stream of four bytes. *)
Lemma write_splices_witness :
  ∃ s1 w1,
    stream_write 4 (Some (demo_stream 2 4)) (Some ten_bytes) 3 (demo_world 4 [])
      = Done (3, Some s1, w1) ∧
    contents s1 w1 =
      Some (take (Z.to_nat (s_cur (demo_stream 2 4))) (replicate 4 Byte.x00)
            ++ take (Z.to_nat 3) ten_bytes
            ++ drop (Z.to_nat (s_cur (demo_stream 2 4) + 3)) (replicate 4 Byte.x00)).
Proof.
  apply (write_splices 4 (demo_stream 2 4) (demo_world 4 []) ten_bytes 3
           (replicate 4 Byte.x00)).
  - demo_inv.
  - reflexivity.
  - reflexivity.
  - apply Forall_nil_2.
  - simpl. lia.
  - simpl. unfold LONG_MAX. lia.
  - lia.
  - run_call.
Defined.

(** X11: ten bytes and ten bytes more on an empty file. *)
Lemma writes_concatenate_witness :
  ∃ s1 w1 s2 w2 s3 w3,
    stream_write 21 (Some (demo_stream 0 0)) (Some ten_bytes) (Z.of_nat (length ten_bytes))
      (demo_world 0 []) = Done (Z.of_nat (length ten_bytes), Some s1, w1) ∧
    stream_write 21 (Some s1) (Some ten_bytes) (Z.of_nat (length ten_bytes)) w1
      = Done (Z.of_nat (length ten_bytes), Some s2, w2) ∧
    stream_write 21 (Some (demo_stream 0 0)) (Some (ten_bytes ++ ten_bytes))
      (Z.of_nat (length (ten_bytes ++ ten_bytes))) (demo_world 0 [])
      = Done (Z.of_nat (length (ten_bytes ++ ten_bytes)), Some s3, w3) ∧
    s_cur s2 = s_cur s3 ∧ s_end s2 = s_end s3 ∧
    contents s2 w2 = contents s3 w3 ∧ is_Some (contents s3 w3).
Proof.
  apply (writes_concatenate 21 (demo_stream 0 0) (demo_world 0 []) ten_bytes ten_bytes).
  - demo_inv.
  - reflexivity.
  - reflexivity.
  - apply Forall_nil_2.
  - simpl. unfold LONG_MAX. lia.
  - simpl. lia.
Defined.

(** X12: four bytes read from a ten-byte file. *)
Lemma read_leaves_files_witness :
  ∃ r s' b' w',
    stream_read 5 (Some (demo_stream 0 10)) (Some ten_bytes) 4 (demo_world 10 [])
      = Done (r, Some s', Some b', w') ∧
    w_fs w' = w_fs (demo_world 10 []) ∧ w_fds w' = w_fds (demo_world 10 []) ∧
    same_handle (demo_stream 0 10) s' ∧
    s_end s' = s_end (demo_stream 0 10) ∧ s_siz s' = s_siz (demo_stream 0 10) ∧
    s_cur (demo_stream 0 10) ≤ s_cur s' ≤ s_end (demo_stream 0 10) ∧
    length b' = length ten_bytes ∧
    (∀ i : nat, s_cur s' - s_cur (demo_stream 0 10) ≤ Z.of_nat i → b' !! i = ten_bytes !! i).
Proof.
  do 4 eexists. split; [run_call|].
  eapply (read_leaves_files 5 (demo_stream 0 10) (demo_world 10 []) ten_bytes 4).
  - demo_inv.
  - run_call.
Defined.

(** X13: a window held and a system that fails [msync] with [ENOMEM]. *)
Lemma sync_failure_witness :
  ∃ r s' w',
    stream_sync (Some (set_buf (Some (Mapping 3 0 10 3)) (demo_stream 0 10)))
      (demo_world 10 [Some ENOMEM]) = (r, s', w') ∧
    r = -1 ∧ s' = Some (set_buf (Some (Mapping 3 0 10 3)) (demo_stream 0 10)) ∧
    is_Some (s_buf (set_buf (Some (Mapping 3 0 10 3)) (demo_stream 0 10))) ∧
    reports (w_errno w') (demo_world 10 [Some ENOMEM]) ∧
    w_fs w' = w_fs (demo_world 10 [Some ENOMEM]) ∧
    w_fds w' = w_fds (demo_world 10 [Some ENOMEM]).
Proof.
  do 3 eexists. split; [run_call|].
  eapply (sync_failure (set_buf (Some (Mapping 3 0 10 3)) (demo_stream 0 10))
            (demo_world 10 [Some ENOMEM])).
  - run_call.
  - lia.
Defined.

(** X14: a stream with end 10 on a file padded to one block. *)
Lemma close_trims_file_witness :
  w_fds (stream_close (Some (Stream None 0 0 0 4096 10 10 4096 3 3)) (demo_world 4096 []))
    = delete (s_des (Stream None 0 0 0 4096 10 10 4096 3 3)) (w_fds (demo_world 4096 [])) ∧
  (∀ p, p ≠ "data"%string →
     w_fs (stream_close (Some (Stream None 0 0 0 4096 10 10 4096 3 3)) (demo_world 4096 []))
       !! p = w_fs (demo_world 4096 []) !! p) ∧
  (w_fs (stream_close (Some (Stream None 0 0 0 4096 10 10 4096 3 3)) (demo_world 4096 []))
     !! "data"%string
   = Some (take (Z.to_nat (s_end (Stream None 0 0 0 4096 10 10 4096 3 3)))
             (replicate 4096 Byte.x00)) ∨
   (¬ quiet (demo_world 4096 []) ∧
    w_fs (stream_close (Some (Stream None 0 0 0 4096 10 10 4096 3 3)) (demo_world 4096 []))
      !! "data"%string = Some (replicate 4096 Byte.x00))).
Proof.
  apply (close_trims_file (Stream None 0 0 0 4096 10 10 4096 3 3) (demo_world 4096 [])
           "data"%string (replicate 4096 Byte.x00)).
  - demo_inv.
  - run_call.
  - run_call.
Defined.

(** X15: the ten digits written to a new file. *)
Lemma write_close_persists_witness :
  ∃ s w1,
    stream_open (Some "new"%string) "w+" (closed_world []) = (Some s, w1) ∧
    ∃ s2 w2,
    stream_write 11 (Some s) (Some ten_bytes) (Z.of_nat (length ten_bytes)) w1
      = Done (Z.of_nat (length ten_bytes), Some s2, w2) ∧
    w_fs (stream_close (Some s2) w2) = <["new"%string := ten_bytes]> (w_fs (closed_world [])) ∧
    w_fds (stream_close (Some s2) w2) = w_fds (closed_world []).
Proof.
  do 2 eexists. split; [run_call|].
  eapply (write_close_persists 11 "new"%string "w+" (closed_world [])).
  - run_call.
  - reflexivity.
  - reflexivity.
  - apply Forall_nil_2.
  - simpl. unfold LONG_MAX. lia.
  - simpl. lia.
Defined.

(** X16: the stream of X14, closed and opened again. *)
Lemma close_reopen_witness :
  ∃ s' w',
    stream_open (Some "data"%string) "r"
      (stream_close (Some (Stream None 0 0 0 4096 10 10 4096 3 3)) (demo_world 4096 []))
      = (Some s', w') ∧
    s_cur s' = 0 ∧ s_end s' = s_end (Stream None 0 0 0 4096 10 10 4096 3 3) ∧
    s_siz s' = s_end (Stream None 0 0 0 4096 10 10 4096 3 3) ∧
    contents s' w' = contents (Stream None 0 0 0 4096 10 10 4096 3 3) (demo_world 4096 []).
Proof.
  apply (close_reopen (Stream None 0 0 0 4096 10 10 4096 3 3) (demo_world 4096 [])
           "data"%string "r").
  - demo_inv.
  - apply Forall_nil_2.
  - simpl. lia.
  - run_call.
  - reflexivity.
Defined.

(** X17: open the ten-byte file, read it, seek back, close. *)
Lemma reader_leaves_files_witness :
  ∃ s0 w0 s1 out w1 s2 w2,
    stream_open (Some "data"%string) "r" (closed_world []) = (Some s0, w0) ∧
    stream_read 2 (Some s0) (Some (replicate 10 Byte.x00)) 10 w0
      = Done (10, Some s1, out, w1) ∧
    stream_seek (Some s1) 0 w1 = Done (0, Some s2, w2) ∧
    w_fs (stream_close (Some s2) w2) = w_fs (closed_world []) ∧
    w_fds (stream_close (Some s2) w2) = w_fds (closed_world []).
Proof.
  do 7 eexists. split; [run_call|]. split; [run_call|]. split; [run_call|].
  eapply (reader_leaves_files "data"%string "r" (closed_world [])).
  - run_call.
  - reflexivity.
  - eapply (browse_seek _ _ _ _ 0).
    + eapply (browse_read _ _ 2%nat _ _ (Some (replicate 10 Byte.x00)) 10).
      * apply browse_start.
      * run_call.
    + unfold LONG_MIN, LONG_MAX. lia.
    + run_call.
Defined.

(** X18: the cursor ten bytes below [LONG_MAX], blocks of 4096 bytes. *)
Lemma top_block_undefined_witness :
  stream_write 1 (Some (Stream None 0 0 0 4096 (LONG_MAX - 10) LONG_MAX LONG_MAX 3 3))
    (Some ten_bytes) 5 (demo_world 0 []) = Undef ∧
  stream_read 1 (Some (Stream None 0 0 0 4096 (LONG_MAX - 10) LONG_MAX LONG_MAX 3 3))
    (Some ten_bytes) 5 (demo_world 0 []) = Undef.
Proof.
  destruct (top_block_undefined 1
              (Stream None 0 0 0 4096 (LONG_MAX - 10) LONG_MAX LONG_MAX 3 3)
              (demo_world 0 []) ten_bytes 5) as [Hw Hr].
  - simpl. unfold LONG_MAX. lia.
  - simpl. lia.
  - reflexivity.
  - by vm_compute.
  - unfold LONG_MAX. lia.
  - lia.
  - split.
    + apply Hw; [reflexivity|]. simpl. unfold LONG_MAX. lia.
    + apply Hr; [reflexivity|]. simpl. unfold LONG_MAX. lia.
Defined.

(** X19: ten bytes written six bytes before the end of a one-block file,
    with a system that maps the first window and refuses to grow the file:
    the write returns -1, the six bytes are written, cursor and end are at
    4096. *)
Lemma transfer_keeps_progress_witness :
  ∃ s' w',
    stream_write 11 (Some (demo_stream 4090 4096)) (Some ten_bytes) 10
      (demo_world 4096 [None; Some ENOMEM]) = Done (-1, Some s', w') ∧
    s_cur s' = 4096 ∧
    s_end s' = Z.max (s_end (demo_stream 4090 4096)) (s_cur s') ∧
    ∃ d', fd_file w' (s_des (demo_stream 4090 4096)) = Some d' ∧
      ∀ k : nat, Z.of_nat k < s_cur s' - s_cur (demo_stream 4090 4096) →
        d' !! Z.to_nat (s_cur (demo_stream 4090 4096) + Z.of_nat k) = ten_bytes !! k.
Proof.
  do 2 eexists. split; [run_call|]. split; [reflexivity|].
  destruct (transfer_keeps_progress 11 (demo_stream 4090 4096)
              (demo_world 4096 [None; Some ENOMEM]) ten_bytes 10) as [Hw _]; [demo_inv|].
  eapply Hw. run_call.
Defined.

(** X20: ten bytes asked of a system that fails every call. *)
Lemma transfers_defined_witness :
  (∃ r s' w',
     stream_write 11 (Some (demo_stream 0 10)) (Some ten_bytes) 10
       (demo_world 10 [Some ENOMEM]) = Done (r, Some s', w')) ∧
  (∃ r s' b' w',
     stream_read 11 (Some (demo_stream 0 10)) (Some ten_bytes) 10
       (demo_world 10 [Some ENOMEM]) = Done (r, Some s', Some b', w')).
Proof.
  destruct (transfers_defined 11 (demo_stream 0 10) (demo_world 10 [Some ENOMEM])
              ten_bytes 10) as [Hw Hr].
  - demo_inv.
  - unfold LONG_MAX. lia.
  - split.
    + apply Hw; simpl; unfold LONG_MAX; lia.
    + apply Hr; simpl; unfold LONG_MAX; lia.
Defined.

(** X21: four bytes at cursor 2 with the window [0, 10) held, and a
    system that would fail every call. *)
Lemma window_hit_witness :
  (∃ b',
     stream_read 2 (Some (Stream (Some (Mapping 3 0 10 3)) 0 10 10 4096 2 10 10 3 3))
       (Some ten_bytes) 4 (demo_world 10 [Some ENOMEM])
     = Done (4, Some (set_cur (2 + 4)
                        (Stream (Some (Mapping 3 0 10 3)) 0 10 10 4096 2 10 10 3 3)),
             Some b', demo_world 10 [Some ENOMEM])) ∧
  (∃ s' w',
     stream_write 2 (Some (Stream (Some (Mapping 3 0 10 3)) 0 10 10 4096 2 10 10 3 3))
       (Some ten_bytes) 4 (demo_world 10 [Some ENOMEM]) = Done (4, Some s', w') ∧
     w_faults w' = [Some ENOMEM] ∧ w_errno w' = 0 ∧ s_cur s' = 2 + 4 ∧
     s_end s' = Z.max 10 (2 + 4) ∧ s_siz s' = 10 ∧
     s_buf s' = Some (Mapping 3 0 10 3) ∧ s_off s' = 0 ∧ s_len s' = 10 ∧ s_brk s' = 10).
Proof.
  destruct (window_hit 2 (Stream (Some (Mapping 3 0 10 3)) 0 10 10 4096 2 10 10 3 3)
              (demo_world 10 [Some ENOMEM]) ten_bytes 4) as [Hr Hw].
  - split;
      [ simpl; lia | simpl; lia | simpl; unfold LONG_MAX; lia
      | eexists; split; [run_call|vm_compute; reflexivity]
      | unfold window_ok; simpl; split_and!; (reflexivity || lia) ].
  - by eexists.
  - simpl. lia.
  - simpl. lia.
  - simpl. lia.
  - lia.
  - split; [apply Hr; [reflexivity|simpl; lia]|apply Hw; reflexivity].
Defined.

(** X22: create a file, write the ten digits, seek back - the ten-byte
    file ["data"] is not touched, and close gives the descriptor back. *)
Lemma stream_isolated_witness :
  ∃ s0 w0 s1 w1 s2 w2,
    stream_open (Some "new"%string) "w+" (closed_world []) = (Some s0, w0) ∧
    stream_write 11 (Some s0) (Some ten_bytes) 10 w0 = Done (10, Some s1, w1) ∧
    stream_seek (Some s1) 0 w1 = Done (0, Some s2, w2) ∧
    same_handle s0 s2 ∧ s_end s0 ≤ s_end s2 ∧ s_siz s0 ≤ s_siz s2 ∧
    w_fds w2 = w_fds w0 ∧
    (∀ p, p ≠ "new"%string → w_fs w2 !! p = w_fs (closed_world []) !! p) ∧
    w_fds (stream_close (Some s2) w2) = w_fds (closed_world []) ∧
    (∀ p, p ≠ "new"%string →
       w_fs (stream_close (Some s2) w2) !! p = w_fs (closed_world []) !! p).
Proof.
  do 6 eexists. split; [run_call|]. split; [run_call|]. split; [run_call|].
  eapply (stream_isolated "new"%string "w+" (closed_world [])).
  - run_call.
  - eapply (use_seek _ _ _ _ 0).
    + eapply (use_write _ _ 11%nat _ _ (Some ten_bytes) 10).
      * apply use_start.
      * run_call.
    + unfold LONG_MIN, LONG_MAX. lia.
    + run_call.
Defined.

(** X23: a stream with end 10 on a file padded to one block. *)
Lemma end_is_final_size_witness :
  ∃ c,
    contents (Stream None 0 0 0 4096 10 10 4096 3 3) (demo_world 4096 []) = Some c ∧
    w_fs (stream_close (Some (Stream None 0 0 0 4096 10 10 4096 3 3)) (demo_world 4096 []))
      !! "data"%string = Some c ∧
    stream_end (Some (Stream None 0 0 0 4096 10 10 4096 3 3)) (demo_world 4096 [])
      = (Z.of_nat (length c), demo_world 4096 []).
Proof.
  apply (end_is_final_size (Stream None 0 0 0 4096 10 10 4096 3 3) (demo_world 4096 [])
           "data"%string).
  - demo_inv.
  - run_call.
  - apply Forall_nil_2.
Defined.
